(** * openapi-to-zod: the schema-to-validator compiler

    A shallow embedding of [src/utils/typeConverter.ts],
    [src/utils/helpers.ts], [src/generators/componentGenerator.ts],
    [src/generators/operationGenerator.ts] and [src/generator.ts].

    Conventions of the embedding.
    - A JavaScript object read with [Object.keys]/[Object.entries] is the list
      of its own entries in enumeration order.  The component table is a plain
      object: [this.schemas[k]] finds the own entry with key [k], and else the
      member of [Object.prototype] of that name, if there is one.  An object
      that is filled member by member (a parsed object, [opSchema.responses])
      follows the ECMAScript own-property order: array-index keys ascending,
      then the other keys by insertion.
    - [Map] and [Set] are lists in insertion order.
    - A number is given by the text that a template literal prints for it;
      the program only tests a number against [undefined] and prints it.
    - Strings are Rocq strings; [toUpperCase]/[toLowerCase] act on ASCII
      letters.
    - Mutable fields become explicit state: the dependency map of the
      converter, the cache, processing set and console of the emitter. *)

From Stdlib Require Import String Ascii List Bool ZArith Lia PeanoNat.
Import ListNotations.
Open Scope string_scope.

(* ===================================================================== *)
(** ** JavaScript strings and arrays *)
(* ===================================================================== *)

Module Js.

(** Truthiness of a string: every string but the empty one. *)
Definition truthy (s : string) : bool := negb (s =? "").

(** [o] when it is a truthy string, as in [if (property.pattern)]. *)
Definition truthyStr (o : option string) : option string :=
  match o with
  | Some s => if truthy s then Some s else None
  | None => None
  end.

(** [a || b] on a possibly missing string. *)
Definition orElse (o : option string) (d : string) : string :=
  match truthyStr o with Some s => s | None => d end.

(** [String.prototype.startsWith]. *)
Fixpoint startsWith (s prefix : string) : bool :=
  match prefix, s with
  | EmptyString, _ => true
  | String p prefix', String c s' => Ascii.eqb p c && startsWith s' prefix'
  | String _ _, EmptyString => false
  end.

(** [String.prototype.includes]: [sub] occurs in [s]. *)
Fixpoint includes (s sub : string) : bool :=
  startsWith s sub ||
  match s with
  | EmptyString => false
  | String _ s' => includes s' sub
  end.

(** [s.split(sep)] for a one-character separator: never empty. *)
Fixpoint split (s : string) (sep : ascii) : list string :=
  match s with
  | EmptyString => [""]
  | String c s' =>
      if Ascii.eqb c sep then "" :: split s' sep
      else match split s' sep with
           | seg :: segs => String c seg :: segs
           | [] => [String c ""]
           end
  end.

(** [arr.pop()!] on the result of a [split]. *)
Definition pop (l : list string) : string := last l "".

(** [Array.prototype.includes] on strings. *)
Definition arrIncludes (l : list string) (x : string) : bool :=
  existsb (String.eqb x) l.

(** [arr.join(sep)] on strings. *)
Definition joinStr (l : list string) (sep : string) : string :=
  String.concat sep l.

(** The line feed, as a string. *)
Definition nl : string := String "010" "".

(** The double quote, as a string. *)
Definition dq : string := String "034" "".

(** [c] is one of the characters of [s]. *)
Fixpoint occurs (c : ascii) (s : string) : bool :=
  match s with
  | EmptyString => false
  | String x s' => Ascii.eqb c x || occurs c s'
  end.

(** Every character of [s] satisfies [p]. *)
Fixpoint allChars (p : ascii -> bool) (s : string) : bool :=
  match s with
  | EmptyString => true
  | String c s' => p c && allChars p s'
  end.

(** The characters of the texts that [Number.prototype.toString] returns:
    those of a decimal numeral with its sign, point and exponent, as in [3],
    [-1], [0.5] and [1e+21], and those of [Infinity] and [NaN]. *)
Definition isNumberChar (c : ascii) : bool :=
  occurs c "0123456789+-.eInfityNa".

Definition isNumberText (s : string) : bool :=
  negb (s =? "") && allChars isNumberChar s.

(** A number.  The program does two things with a number: it tests it
    against [undefined], and it prints it in a template literal.  So a number
    is given here by the text that is printed for it, whether it is an
    integer or not. *)
Record number : Type := mkNumber {
  numText : string;
  numOk : isNumberText numText = true
}.

(** Rendering of a number in a template literal. *)
Definition numToString (n : number) : string := numText n.

Definition isUpper (c : ascii) : bool :=
  let n := nat_of_ascii c in (65 <=? n)%nat && (n <=? 90)%nat.

Definition isLower (c : ascii) : bool :=
  let n := nat_of_ascii c in (97 <=? n)%nat && (n <=? 122)%nat.

Definition upperChar (c : ascii) : ascii :=
  if isLower c then ascii_of_nat (nat_of_ascii c - 32) else c.

Definition lowerChar (c : ascii) : ascii :=
  if isUpper c then ascii_of_nat (nat_of_ascii c + 32) else c.

Fixpoint mapChars (f : ascii -> ascii) (s : string) : string :=
  match s with
  | EmptyString => EmptyString
  | String c s' => String (f c) (mapChars f s')
  end.

Definition toUpperCase : string -> string := mapChars upperChar.
Definition toLowerCase : string -> string := mapChars lowerChar.

(** A value that is a string or [undefined]. *)
Inductive strOrUndef : Type :=
| undefined
| str (s : string).

(** [`${v}`]: a template literal prints [undefined] by name. *)
Definition tpl (v : strOrUndef) : string :=
  match v with
  | undefined => "undefined"
  | str s => s
  end.

(** [Array.prototype.join]: an [undefined] element prints as nothing. *)
Definition joinElem (v : strOrUndef) : string :=
  match v with
  | undefined => ""
  | str s => s
  end.

Definition join (l : list strOrUndef) (sep : string) : string :=
  String.concat sep (map joinElem l).

(** [Map.prototype.get] / [obj[k]]. *)
Fixpoint get {V : Type} (m : list (string * V)) (k : string) : option V :=
  match m with
  | [] => None
  | (k', v) :: m' => if k =? k' then Some v else get m' k
  end.

Definition has {V : Type} (m : list (string * V)) (k : string) : bool :=
  match get m k with Some _ => true | None => false end.

(** The names of the members of [Object.prototype], which every plain
    object inherits. *)
Definition objectPrototype : list string :=
  ["constructor"; "__defineGetter__"; "__defineSetter__"; "hasOwnProperty";
   "__lookupGetter__"; "__lookupSetter__"; "isPrototypeOf";
   "propertyIsEnumerable"; "toString"; "valueOf"; "__proto__";
   "toLocaleString"].

(** What [obj[k]] finds on a plain object: an own property; else the member
    of [Object.prototype] called [k], which is a function, or for
    [__proto__] the prototype itself; else [undefined]. *)
Inductive member (V : Type) : Type :=
| OwnMember (v : V)
| InheritedMember
| NoMember.

Arguments OwnMember {V} v.
Arguments InheritedMember {V}.
Arguments NoMember {V}.

(** [obj[k]] on a plain object. *)
Definition lookup {V : Type} (obj : list (string * V)) (k : string) : member V :=
  match get obj k with
  | Some v => OwnMember v
  | None => if arrIncludes objectPrototype k then InheritedMember else NoMember
  end.

(** [if (obj[k])] on a plain object whose own values are objects: own
    values and inherited members are truthy. *)
Definition present {V : Type} (obj : list (string * V)) (k : string) : bool :=
  match lookup obj k with
  | NoMember => false
  | _ => true
  end.

(** [Map.prototype.set]: a present key keeps its place. *)
Fixpoint mapSet {V : Type} (m : list (string * V)) (k : string) (v : V)
  : list (string * V) :=
  match m with
  | [] => [(k, v)]
  | (k', v') :: m' =>
      if k =? k' then (k, v) :: m' else (k', v') :: mapSet m' k v
  end.

(** [Set.prototype.add]. *)
Definition setAdd (s : list string) (x : string) : list string :=
  if arrIncludes s x then s else s ++ [x].

End Js.

Import Js.

(* ===================================================================== *)
(** ** types.ts *)
(* ===================================================================== *)

#[warnings="-register-all"]
Inductive Schema : Type := mkSchema {
  type : option string;
  properties : option (list (string * Schema));
  required : option (list string);
  items : option Schema;
  ref : option string;                       (* $ref *)
  allOf : option (list Schema);
  oneOf : option (list Schema);
  anyOf : option (list Schema);
  enum : option (list string);
  format : option string;
  pattern : option string;
  minLength : option number;
  maxLength : option number;
  minimum : option number;
  maximum : option number;
  minItems : option number;
  maxItems : option number;
  description : option string;
  additionalProperties : option (bool + Schema)
}.

(** The node [{}]. *)
Definition emptySchema : Schema :=
  mkSchema None None None None None None None None None None None
           None None None None None None None None.

(** A member of the component table read as a schema.  A member inherited
    from [Object.prototype] has none of the fields that the program reads from
    a schema ([$ref], [allOf], [oneOf], [anyOf], [type], [description],
    [properties], [required]): each of them is [undefined] on it, as on the
    node [{}]. *)
Definition memberSchema (m : member Schema) : option Schema :=
  match m with
  | OwnMember s => Some s
  | InheritedMember => Some emptySchema
  | NoMember => None
  end.

Record GeneratedFile : Type := mkFile {
  dirName : option string;
  fileName : string;
  content : string
}.


(* ===================================================================== *)
(** ** utils/typeConverter.ts *)
(* ===================================================================== *)

(** [private dependencies = new Map<string, Set<string>>()]. *)
Definition Dependencies : Type := list (string * list string).

(** A computation of the converter: it threads the dependency map, and
    yields [None] when the budget of inline expansions is used up. *)
Definition Conv (A : Type) : Type := Dependencies -> option (A * Dependencies).

Definition ret {A : Type} (a : A) : Conv A := fun d => Some (a, d).

Definition bind {A B : Type} (m : Conv A) (k : A -> Conv B) : Conv B :=
  fun d => match m d with
           | Some (a, d') => k a d'
           | None => None
           end.

Definition exhausted {A : Type} : Conv A := fun _ => None.

Declare Scope conv_scope.
Delimit Scope conv_scope with conv.
Notation "x <- m ;; k" := (bind m (fun x => k))
  (at level 61, m at next level, right associativity) : conv_scope.
Notation "m ;;; k" := (bind m (fun _ => k))
  (at level 61, right associativity) : conv_scope.

(** [arr.map(f)] for an effectful [f], left to right. *)
Fixpoint mapM {A B : Type} (f : A -> Conv B) (l : list A) : Conv (list B) :=
  match l with
  | [] => ret []
  | a :: l' => (b <- f a ;; bs <- mapM f l' ;; ret (b :: bs))%conv
  end.

(** Lines 23-26: the set of [schemaName] is created on first use, then
    [refName] is added to it. *)
Definition trackDependency (schemaName refName : string) : Conv unit :=
  fun d =>
    let d1 := if has d schemaName then d else mapSet d schemaName [] in
    match get d1 schemaName with
    | Some s => Some (tt, mapSet d1 schemaName (setAdd s refName))
    | None => Some (tt, d1)
    end.

(** [getDependencies]. *)
Definition getDependencies (d : Dependencies) (schemaName : string)
  : list string :=
  match get d schemaName with Some s => s | None => [] end.

(** [property.format === f]. *)
Definition formatIs (property : Schema) (f : string) : bool :=
  match format property with
  | Some g => g =? f
  | None => false
  end.

(** [type === t] in the [switch] of [convertType]. *)
Definition typeIs (type : option string) (t : string) : bool :=
  match type with
  | Some u => u =? t
  | None => false
  end.

Definition convertString (property : Schema) : string :=
  let zodString := "z.string()" in
  match enum property with
  | Some e =>
      "z.enum([" ++ joinStr (map (fun e => dq ++ e ++ dq) e) ", " ++ "])"
  | None =>
      let zodString :=
        if formatIs property "date-time" then zodString ++ ".datetime()"
        else if formatIs property "date" then zodString ++ ".date()"
        else if formatIs property "email" then zodString ++ ".email()"
        else if formatIs property "uuid" then zodString ++ ".uuid()"
        else if formatIs property "uri" || formatIs property "url"
             then zodString ++ ".url()"
        else zodString in
      let zodString :=
        match truthyStr (pattern property) with
        | Some p => zodString ++ ".regex(/" ++ p ++ "/)"
        | None => zodString
        end in
      let zodString :=
        match minLength property with
        | Some n => zodString ++ ".min(" ++ numToString n ++ ")"
        | None => zodString
        end in
      let zodString :=
        match maxLength property with
        | Some n => zodString ++ ".max(" ++ numToString n ++ ")"
        | None => zodString
        end in
      zodString
  end.

Definition convertNumber (property : Schema) (type : option string) : string :=
  let zodNumber :=
    if typeIs type "integer" then "z.number().int()" else "z.number()" in
  let zodNumber :=
    match minimum property with
    | Some n => zodNumber ++ ".min(" ++ numToString n ++ ")"
    | None => zodNumber
    end in
  let zodNumber :=
    match maximum property with
    | Some n => zodNumber ++ ".max(" ++ numToString n ++ ")"
    | None => zodNumber
    end in
  zodNumber.

(** The type of [convertType], through which [convertArray] and
    [convertObject] call back. *)
Definition converter : Type :=
  option Schema -> list string -> string -> bool -> Conv strOrUndef.

Definition convertArray (convertType : converter) (property : Schema)
    (currentPath : list string) (schemaName : string) (isInline : bool)
  : Conv strOrUndef :=
  (itemsSchema <- convertType (items property) currentPath schemaName isInline ;;
   let zodArray := "z.array(" ++ tpl itemsSchema ++ ")" in
   let zodArray :=
     match minItems property with
     | Some n => zodArray ++ ".min(" ++ numToString n ++ ")"
     | None => zodArray
     end in
   let zodArray :=
     match maxItems property with
     | Some n => zodArray ++ ".max(" ++ numToString n ++ ")"
     | None => zodArray
     end in
   ret (str zodArray))%conv.

(** [property.required && property.required.includes(key)]. *)
Definition isRequiredIn (required : option (list string)) (key : string)
  : bool :=
  match required with
  | Some r => arrIncludes r key
  | None => false
  end.

Definition convertObject (convertType : converter) (property : Schema)
    (currentPath : list string) (schemaName : string) (isInline : bool)
  : Conv strOrUndef :=
  match properties property with
  | Some ps =>
      (props <- mapM (fun kv : string * Schema =>
                 let isRequired := isRequiredIn (required property) (fst kv) in
                 zodType <- convertType (Some (snd kv)) currentPath schemaName isInline ;;
                 let optionalModifier :=
                   if isRequired then "" else ".optional()" in
                 ret ("  " ++ fst kv ++ ": " ++ tpl zodType ++ optionalModifier)) ps ;;
       let props := joinStr props ("," ++ nl) in
       let zodObject := "z.object({" ++ nl ++ props ++ nl ++ "})" in
       match additionalProperties property with
       | Some (inl false) => ret (str (zodObject ++ ".strict()"))
       | Some (inl true) => ret (str (zodObject ++ ".catchall(z.unknown())"))
       | Some (inr a) =>
           additionalSchema <- convertType (Some a) currentPath schemaName isInline ;;
           ret (str (zodObject ++ ".catchall(" ++ tpl additionalSchema ++ ")"))
       | None => ret (str zodObject)
       end)%conv
  | None => ret (str "z.record(z.unknown())")
  end.

Section TypeConverter.

(** [private schemas: Record<string, Schema>]. *)
Variable schemas : list (string * Schema).

(** The body of [convertType] on a present node.  [convert] stands for the
    recursive calls on the parts of the node, and [expand] for the recursive
    call of line 36 on a component of the table ([None] when no further
    inline expansion is allowed). *)
Definition convertTypeBody
    (expand : option (Schema -> list string -> string -> bool -> Conv strOrUndef))
    (convert : Schema -> list string -> string -> bool -> Conv strOrUndef)
    (property : Schema) (currentPath : list string)
    (schemaName : string) (isInline : bool)
  : Conv strOrUndef :=
  let convertType : converter :=
    fun p cp sn il =>
      match p with
      | None => ret (str "z.unknown()")
      | Some s => convert s cp sn il
      end in
  match truthyStr (ref property) with
  | Some r =>
      let refName := pop (split r "/") in
      ((if truthy schemaName && truthy refName && negb isInline
        then trackDependency schemaName refName
        else ret tt) ;;;
       if arrIncludes currentPath refName then
         ret (str ("z.lazy(() => " ++ refName ++ ")"))
       else
         match (if isInline then lookup schemas refName else NoMember) with
         | OwnMember target =>
             match expand with
             | Some convertTarget =>
                 convertTarget target (currentPath ++ [refName])%list
                               refName true
             | None => exhausted
             end
         | InheritedMember =>
             (* the recursive call on a member of [Object.prototype], which
                has no [$ref], no composition list and no [type] *)
             ret (str "z.unknown()")
         | NoMember => ret (str refName)
         end)%conv
  | None =>
  match allOf property with
  | Some l =>
      (schemas <- mapM (fun s => convert s currentPath schemaName isInline) l ;;
       ret (if (1 <? length schemas)%nat
            then str ("z.intersection(" ++ join schemas ", " ++ ")")
            else nth 0 schemas undefined))%conv
  | None =>
  match oneOf property with
  | Some l =>
      (schemas <- mapM (fun s => convert s currentPath schemaName isInline) l ;;
       ret (str ("z.union([" ++ join schemas ", " ++ "])")))%conv
  | None =>
  match anyOf property with
  | Some l =>
      (schemas <- mapM (fun s => convert s currentPath schemaName isInline) l ;;
       ret (str ("z.union([" ++ join schemas ", " ++ "])")))%conv
  | None =>
  let type := type property in
  if typeIs type "string" then ret (str (convertString property))
  else if typeIs type "number" || typeIs type "integer" then
    ret (str (convertNumber property type))
  else if typeIs type "boolean" then ret (str "z.boolean()")
  else if typeIs type "array" then
    convertArray convertType property currentPath schemaName isInline
  else if typeIs type "object" then
    convertObject convertType property currentPath schemaName isInline
  else if typeIs type "null" then ret (str "z.null()")
  else ret (str "z.unknown()")
  end end end end.

(** [convertType] on a present node, with a budget of [budget] nested
    inline expansions. *)
Fixpoint convertNode (budget : nat)
  : Schema -> list string -> string -> bool -> Conv strOrUndef :=
  fix convert (property : Schema) (currentPath : list string)
      (schemaName : string) (isInline : bool) {struct property}
    : Conv strOrUndef :=
    convertTypeBody
      (match budget with
       | S budget' => Some (convertNode budget')
       | O => None
       end)
      convert property currentPath schemaName isInline.

(** [convertType(property, currentPath, schemaName, isInline)].  No chain
    of inline expansions is longer than the component table, so the table's
    size is budget enough ([convertType_returns], [convertNode_enough]). *)
Definition convertType : converter :=
  fun property currentPath schemaName isInline =>
    match property with
    | None => ret (str "z.unknown()")
    | Some s =>
        convertNode (length schemas) s currentPath schemaName isInline
    end.

End TypeConverter.

(* ===================================================================== *)
(** ** utils/helpers.ts *)
(* ===================================================================== *)

(** The state of the scan [name.match(/[A-Z][a-z]+|[A-Z]+(?=[A-Z])|[a-z]+/g)]:
    between two matches, inside the lower-case run of the first or third
    alternative, or inside the upper-case run of the second one. *)
Inductive wordScan : Type :=
| Idle
| InLower (w : string)
| InUpper (w : string).

Definition nextIs (p : ascii -> bool) (rest : string) : bool :=
  match rest with
  | String d _ => p d
  | EmptyString => false
  end.

(** The matches of the regular expression, left to right.  At an upper-case
    letter the first alternative needs a lower-case letter next; the second
    takes the upper-case run up to, and without, its last letter; a letter
    that starts no match is skipped. *)
Fixpoint matchWords (st : wordScan) (s : string) : list string :=
  match s with
  | EmptyString =>
      match st with
      | Idle => []
      | InLower w => [w]
      | InUpper w => [w]
      end
  | String c rest =>
      let start :=
        if isUpper c then
          if nextIs isLower rest then matchWords (InLower (String c "")) rest
          else if nextIs isUpper rest then matchWords (InUpper (String c "")) rest
          else matchWords Idle rest
        else if isLower c then matchWords (InLower (String c "")) rest
        else matchWords Idle rest in
      match st with
      | Idle => start
      | InLower w =>
          if isLower c then matchWords (InLower (w ++ String c "")) rest
          else w :: start
      | InUpper w =>
          if nextIs isUpper rest then matchWords (InUpper (w ++ String c "")) rest
          else w :: start
      end
  end.

Definition generateDescription (name : string) : string :=
  let words := matchWords Idle name in
  let description := toLowerCase (joinStr words " ") in
  match description with
  | EmptyString => ""
  | String c rest => String (upperChar c) rest
  end.

Fixpoint getPropertyType (propSchema : Schema) : string :=
  match truthyStr (ref propSchema) with
  | Some r => pop (split r "/")
  | None =>
      let type := type propSchema in
      if typeIs type "string" then "string"
      else if typeIs type "number" then "number"
      else if typeIs type "integer" then "number"
      else if typeIs type "boolean" then "boolean"
      else if typeIs type "array" then
        let itemType :=
          match items propSchema with
          | Some i => getPropertyType i
          | None => "any"
          end in
        itemType ++ "[]"
      else if typeIs type "object" then "object"
      else "any"
  end.

Definition componentPrefix : string := "#/components/schemas/".

Definition isComponentSchema (schema : option Schema) : bool :=
  match schema with
  | None => false
  | Some s =>
      match truthyStr (ref s) with
      | Some r => startsWith r componentPrefix
      | None => false
      end
  end.

(** [$ref!.split('/').pop()!] of a node that passed [isComponentSchema]. *)
Definition refNameOf (s : Schema) : string :=
  match ref s with
  | Some r => pop (split r "/")
  | None => ""
  end.

(** [findComponentReferences(schema, references)] on a present node; the
    result is the set [references] after the call. *)
Fixpoint findComponentReferences (schema : Schema) (references : list string)
  : list string :=
  if isComponentSchema (Some schema) then
    setAdd references (refNameOf schema)
  else
    let each :=
      fix each (l : list Schema) (references : list string) : list string :=
        match l with
        | [] => references
        | s :: l' => each l' (findComponentReferences s references)
        end in
    let eachProp :=
      fix eachProp (l : list (string * Schema)) (references : list string)
        : list string :=
        match l with
        | [] => references
        | kv :: l' => eachProp l' (findComponentReferences (snd kv) references)
        end in
    let references :=
      match allOf schema with Some l => each l references | None => references end in
    let references :=
      match oneOf schema with Some l => each l references | None => references end in
    let references :=
      match anyOf schema with Some l => each l references | None => references end in
    let references :=
      match properties schema with
      | Some ps => eachProp ps references
      | None => references
      end in
    match items schema with
    | Some i => findComponentReferences i references
    | None => references
    end.

(* ===================================================================== *)
(** ** generators/componentGenerator.ts *)
(* ===================================================================== *)

(** The mutable fields of a [ComponentGenerator], with the dependency map
    of its [typeConverter] and the lines written to the console. *)
Record ComponentGenerator : Type := mkComponentGenerator {
  dependencies : Dependencies;
  generatedSchemas : list (string * GeneratedFile);
  processingStack : list string;
  console : list string
}.

(** [new ComponentGenerator(schemas)] under a console that already holds
    [out]. *)
Definition newComponentGenerator (out : list string) : ComponentGenerator :=
  mkComponentGenerator [] [] [] out.

(** [Set.prototype.delete]. *)
Definition setDelete (s : list string) (x : string) : list string :=
  filter (fun y => negb (y =? x)) s.

Definition consoleLog (g : ComponentGenerator) (line : string)
  : ComponentGenerator :=
  mkComponentGenerator (dependencies g) (generatedSchemas g)
                       (processingStack g) (console g ++ [line]).

Section ComponentGenerator.

Variable schemas : list (string * Schema).

(** Lines 52-61: the import of zod, then one import per dependency for
    which [this.schemas[depName]] is truthy. *)
Definition componentImports (deps : list string) : list string :=
  "import { z } from 'zod';" ::
  flat_map (fun depName =>
    if present schemas depName
    then ["import { " ++ depName ++ " } from './" ++ depName ++ ".js';"]
    else []) deps.

(** Lines 74-79: the JSDoc line of one property. *)
Definition propertyDoc (required : list string) (entry : string * Schema)
  : string :=
  let propName := fst entry in
  let propSchema := snd entry in
  let isRequired := arrIncludes required propName in
  let propDescription := orElse (description propSchema) propName in
  let propType := getPropertyType propSchema in
  " * @property {" ++ propType ++ "} " ++ propName ++
  (if isRequired then "" else "?") ++ " - " ++ propDescription.

(** Lines 63-82: the JSDoc comment. *)
Definition componentJsDoc (name : string) (schema : Schema) : list string :=
  let description := orElse (description schema) (generateDescription name) in
  let properties :=
    match properties schema with Some ps => ps | None => [] end in
  let required :=
    match required schema with Some r => r | None => [] end in
  let opening := ["/**"; " * " ++ description] in
  (opening ++
   (if (0 <? length properties)%nat
    then " *" :: map (propertyDoc required) properties
    else []) ++
   [" */"])%list.

(** [generateSchemaFile(name)]: the returned file or [null], and the
    generator afterwards.  Line 45 reads [this.schemas[name]], which is an
    entry of the table on every call that [generateComponentSchemas]
    makes. *)
Definition generateSchemaFile (name : string) (g : ComponentGenerator)
  : option (option GeneratedFile * ComponentGenerator) :=
  match get (generatedSchemas g) name with
  | Some cached => Some (Some cached, g)
  | None =>
      if arrIncludes (processingStack g) name then
        Some (None,
              consoleLog g ("Detected circular reference for schema: " ++ name))
      else
        match memberSchema (lookup schemas name) with
        | None => Some (None, g)
        | Some schema =>
            let stack := setAdd (processingStack g) name in
            match convertType schemas (Some schema) [name] name false
                              (dependencies g) with
            | None => None
            | Some (zodSchema, deps) =>
                let imports := componentImports (getDependencies deps name) in
                let jsDoc := componentJsDoc name schema in
                let content :=
                  joinStr
                    (imports ++ [""] ++ jsDoc ++
                     ["export const " ++ name ++ " = " ++ tpl zodSchema ++ ";";
                      "export type " ++ name ++ "Type = z.infer<typeof " ++
                        name ++ ">;";
                      ""])
                    nl in
                let result := mkFile None (name ++ ".ts") content in
                Some (Some result,
                      mkComponentGenerator deps
                        (mapSet (generatedSchemas g) name result)
                        (setDelete stack name)
                        (console g))
            end
        end
  end.

(** The body of the [forEach] of [generateComponentSchemas], run over the
    names [names] with the files collected so far. *)
Fixpoint generateEach (names : list string) (files : list GeneratedFile)
    (g : ComponentGenerator)
  : option (list GeneratedFile * ComponentGenerator) :=
  match names with
  | [] => Some (files, g)
  | name :: names' =>
      match generateSchemaFile name g with
      | None => None
      | Some (Some schemaFile, g') =>
          generateEach names'
            (files ++ [mkFile (Some "_components") (fileName schemaFile)
                              (content schemaFile)])
            g'
      | Some (None, g') => generateEach names' files g'
      end
  end.

Definition generateComponentSchemas (g : ComponentGenerator)
  : option (list GeneratedFile * ComponentGenerator) :=
  generateEach (map fst schemas) [] g.

End ComponentGenerator.

(* ===================================================================== *)
(** ** The document (types.ts) *)
(* ===================================================================== *)

(** [content?: { 'application/json'?: { schema?: Schema } }]. *)
Record MediaType : Type := mkMediaType { schema : option Schema }.
Record Content : Type := mkContent { application_json : option MediaType }.

(** [x?.content?.['application/json']?.schema]. *)
Definition jsonSchema (content : option Content) : option Schema :=
  match content with
  | Some c =>
      match application_json c with
      | Some m => schema m
      | None => None
      end
  | None => None
  end.

Module Response.
Record t : Type := mk {
  description : option string;
  content : option Content
}.
End Response.

Module Operation.
Record t : Type := mk {
  operationId : option string;
  summary : option string;
  requestBody : option (option Content);   (* { content? } *)
  responses : option (list (string * Response.t))
}.
End Operation.

(** A member of a path item: an operation, or any other value. *)
Inductive PathItemValue : Type :=
| OtherValue
| OperationValue (operation : Operation.t).

Definition PathItem : Type := list (string * PathItemValue).

(** The fields of the document the generators read. *)
Record OpenAPIDocument : Type := mkDocument {
  paths : list (string * PathItem);
  components : option (option (list (string * Schema)))   (* { schemas? } *)
}.

Module ResponseSchema.
Record t : Type := mk {
  description : string;
  schema : Schema
}.
End ResponseSchema.

Module OperationSchema.
Record t : Type := mk {
  operationId : string;
  summary : string;
  method : string;
  path : string;
  request : option Schema;
  responses : list (string * ResponseSchema.t)
}.
End OperationSchema.

(* ===================================================================== *)
(** ** Own-property order of an object the program fills *)
(* ===================================================================== *)

Module JsObject.

Definition isDigit (c : ascii) : bool :=
  let n := nat_of_ascii c in (48 <=? n)%nat && (n <=? 57)%nat.

Fixpoint digitsValue (s : string) (acc : N) : option N :=
  match s with
  | EmptyString => Some acc
  | String c s' =>
      if isDigit c
      then digitsValue s' (acc * 10 + N.of_nat (nat_of_ascii c - 48))%N
      else None
  end.

(** The array index a key denotes, if any: a canonical decimal numeral
    below [2^32 - 1]. *)
Definition arrayIndex (k : string) : option N :=
  match k with
  | EmptyString => None
  | String c rest =>
      if Ascii.eqb c "0" && negb (rest =? "") then None
      else match digitsValue k 0%N with
           | Some n => if (n <? 4294967295)%N then Some n else None
           | None => None
           end
  end.

(** A new array-index key goes before the first key that is a larger
    index or no index. *)
Fixpoint insertIndex {V : Type} (o : list (string * V)) (i : N)
    (k : string) (v : V) : list (string * V) :=
  match o with
  | [] => [(k, v)]
  | (k', v') :: o' =>
      match arrayIndex k' with
      | Some j =>
          if (j <? i)%N then (k', v') :: insertIndex o' i k v
          else (k, v) :: o
      | None => (k, v) :: o
      end
  end.

(** [o[k] = v] on a plain object, and the definition of the member [k] of
    an object that is parsed.  (An assignment under the key [__proto__] would
    set the prototype and define no member; that key is not treated apart
    here.) *)
Definition set {V : Type} (o : list (string * V)) (k : string) (v : V)
  : list (string * V) :=
  if has o k then mapSet o k v
  else match arrayIndex k with
       | Some i => insertIndex o i k v
       | None => o ++ [(k, v)]
       end.


End JsObject.

(* ===================================================================== *)
(** ** generators/operationGenerator.ts *)
(* ===================================================================== *)

Section OperationGenerator.

Variable schemas : list (string * Schema).

(** Lines 48-60: the responses of one operation are stored by status
    code. *)
Definition recordResponses (responses : list (string * Response.t))
    (acc : list (string * ResponseSchema.t))
  : list (string * ResponseSchema.t) :=
  fold_left
    (fun acc (entry : string * Response.t) =>
       let statusCode := fst entry in
       let resp := snd entry in
       match jsonSchema (Response.content resp) with
       | Some s =>
           JsObject.set acc statusCode
             (ResponseSchema.mk
                (orElse (Response.description resp) ("Response " ++ statusCode))
                s)
       | None => acc
       end)
    responses acc.

(** Lines 23-60: the body of the inner [forEach], on the member [method]
    of the path item at [pathName]. *)
Definition recordOperation (pathName method : string)
    (value : PathItemValue)
    (operationSchemas : list (string * OperationSchema.t))
  : list (string * OperationSchema.t) :=
  match value with
  | OtherValue => operationSchemas
  | OperationValue operation =>
      match truthyStr (Operation.operationId operation) with
      | None => operationSchemas
      | Some operationId =>
          let dirName := operationId in
          let operationSchemas :=
            if has operationSchemas dirName then operationSchemas
            else mapSet operationSchemas dirName
                   (OperationSchema.mk operationId
                      (orElse (Operation.summary operation)
                              (generateDescription operationId))
                      (toUpperCase method) pathName None []) in
          match get operationSchemas dirName with
          | None => operationSchemas
          | Some opSchema =>
              let request :=
                match Operation.requestBody operation with
                | Some content =>
                    match jsonSchema content with
                    | Some requestSchema => Some requestSchema
                    | None => OperationSchema.request opSchema
                    end
                | None => OperationSchema.request opSchema
                end in
              let responses :=
                match Operation.responses operation with
                | Some responses =>
                    recordResponses responses
                      (OperationSchema.responses opSchema)
                | None => OperationSchema.responses opSchema
                end in
              mapSet operationSchemas dirName
                (OperationSchema.mk
                   (OperationSchema.operationId opSchema)
                   (OperationSchema.summary opSchema)
                   (OperationSchema.method opSchema)
                   (OperationSchema.path opSchema)
                   request responses)
          end
      end
  end.

(** Lines 21-62: the pass over the path table. *)
Definition collectOperations (paths : list (string * PathItem))
  : list (string * OperationSchema.t) :=
  fold_left
    (fun acc (entry : string * PathItem) =>
       fold_left
         (fun acc (member : string * PathItemValue) =>
            recordOperation (fst entry) (fst member) (snd member) acc)
         (snd entry) acc)
    paths [].

(** [convertResponseSchema(schema, componentRefs)]; the set
    [componentRefs] is threaded since the method adds to it. *)
Definition convertResponseSchema (schema : Schema)
    (componentRefs : list string)
  : Conv (strOrUndef * list string) :=
  if isComponentSchema (Some schema) then
    ret (str (refNameOf schema), componentRefs)
  else
    match (if typeIs (type schema) "object" then properties schema else None) with
    | Some ps =>
        (let each :=
           fix each (ps : list (string * Schema)) (componentRefs : list string)
             : Conv (list string * list string) :=
             match ps with
             | [] => ret ([], componentRefs)
             | kv :: ps' =>
                 let key := fst kv in
                 let value := snd kv in
                 let isRequired := isRequiredIn (required schema) key in
                 r <- (if isComponentSchema (Some value) then
                         let refName := refNameOf value in
                         ret (str refName, setAdd componentRefs refName)
                       else
                         zodType <- convertType schemas (Some value) [] "" true ;;
                         ret (zodType, componentRefs)) ;;
                 let optionalModifier :=
                   if isRequired then "" else ".optional()" in
                 let line :=
                   "  " ++ key ++ ": " ++ tpl (fst r) ++ optionalModifier in
                 rest <- each ps' (snd r) ;;
                 ret (line :: fst rest, snd rest)
             end in
         r <- each ps componentRefs ;;
         let props := joinStr (fst r) ("," ++ nl) in
         ret (str ("z.object({" ++ nl ++ props ++ nl ++ "})"), snd r))%conv
    | None =>
        (zod <- convertType schemas (Some schema) [] "" true ;;
         ret (zod, componentRefs))%conv
    end.

(** Lines 72-90: the component references of an operation, and its
    imports. *)
Definition operationComponentRefs (opSchema : OperationSchema.t)
  : list string :=
  let componentRefs :=
    match OperationSchema.request opSchema with
    | Some request =>
        if isComponentSchema (Some request)
        then setAdd [] (refNameOf request) else []
    | None => []
    end in
  fold_left
    (fun refs (response : string * ResponseSchema.t) =>
       findComponentReferences (ResponseSchema.schema (snd response)) refs)
    (OperationSchema.responses opSchema) componentRefs.

Definition operationImports (componentRefs : list string) : list string :=
  fold_left
    (fun imports schemaName =>
       if present schemas schemaName
       then setAdd imports
              ("import { " ++ schemaName ++ " } from '../_components/" ++
               schemaName ++ ".js';")
       else imports)
    componentRefs (setAdd [] "import { z } from 'zod';").

(** Lines 105-122: the request validator. *)
Definition requestLines (opSchema : OperationSchema.t) : Conv (list string) :=
  match OperationSchema.request opSchema with
  | Some request =>
      (decl <- (if isComponentSchema (Some request) then
                  ret ("export const Request = " ++ refNameOf request ++ ";")
                else
                  requestZod <- convertType schemas (Some request) [] "Request" true ;;
                  ret ("export const Request = " ++ tpl requestZod ++ ";")) ;;
       ret ["/**"; " * Request schema"; " */"; decl;
            "export type RequestType = z.infer<typeof Request>;"; ""])%conv
  | None => ret []
  end.

(** Lines 125-135: one validator per stored response. *)
Fixpoint responseLines (responses : list (string * ResponseSchema.t))
    (componentRefs : list string) : Conv (list string) :=
  match responses with
  | [] => ret []
  | (statusCode, response) :: responses' =>
      (r <- convertResponseSchema (ResponseSchema.schema response) componentRefs ;;
       rest <- responseLines responses' (snd r) ;;
       let lines :=
         ["/**";
          " * Response " ++ statusCode ++ ": " ++
            ResponseSchema.description response;
          " */";
          "export const Response" ++ statusCode ++ " = " ++ tpl (fst r) ++ ";";
          "export type Response" ++ statusCode ++ "Type = z.infer<typeof Response" ++
            statusCode ++ ">;";
          ""] in
       ret (app lines rest))%conv
  end.

(** Lines 65-143: the file of one operation. *)
Definition operationFile (dirName : string) (opSchema : OperationSchema.t)
  : Conv GeneratedFile :=
  let componentRefs := operationComponentRefs opSchema in
  let imports := operationImports componentRefs in
  let documentation :=
    ["/**";
     " * " ++ OperationSchema.summary opSchema;
     " * ";
     " * @operationId " ++ OperationSchema.operationId opSchema;
     " * @method " ++ OperationSchema.method opSchema;
     " * @path " ++ OperationSchema.path opSchema;
     " */";
     ""] in
  (req <- requestLines opSchema ;;
   resps <- responseLines (OperationSchema.responses opSchema) componentRefs ;;
   ret (mkFile (Some dirName) "schema.ts"
               (joinStr (imports ++ [""] ++ documentation ++ req ++ resps)%list
                        nl)))%conv.

(** [generateOperationSchemas()], from the dependency map [d] of the
    generator's own converter. *)
Definition generateOperationSchemas (paths : list (string * PathItem))
  : Conv (list GeneratedFile) :=
  mapM (fun entry : string * OperationSchema.t =>
          operationFile (fst entry) (snd entry))
       (collectOperations paths).

End OperationGenerator.

(* ===================================================================== *)
(** ** generator.ts *)
(* ===================================================================== *)

(** [this.openApiDoc.components?.schemas || {}]. *)
Definition documentSchemas (doc : OpenAPIDocument) : list (string * Schema) :=
  match components doc with
  | Some (Some schemas) => schemas
  | _ => []
  end.

(** [ZodSchemaGenerator.generate()], run under a console that already holds
    [out]: the files, and the console afterwards. *)
Definition generate (doc : OpenAPIDocument) (out : list string)
  : option (list GeneratedFile * list string) :=
  let schemas := documentSchemas doc in
  match generateComponentSchemas schemas (newComponentGenerator out) with
  | None => None
  | Some (componentFiles, g) =>
      match generateOperationSchemas schemas (paths doc) [] with
      | None => None
      | Some (operationFiles, _) =>
          Some ((componentFiles ++ operationFiles)%list, console g)
      end
  end.

(* ===================================================================== *)
(** * Vocabulary of the statements *)
(* ===================================================================== *)

(** ** Termination *)

(** A computation that returns on every dependency map. *)
Definition returns {A : Type} (m : Conv A) : Prop :=
  forall d, exists a d', m d = Some (a, d').

(** The components that an inline expansion under [currentPath] may still
    enter. *)
Definition unexpanded (schemas : list (string * Schema))
    (currentPath : list string) : nat :=
  length (filter (fun kv : string * Schema =>
                    negb (arrIncludes currentPath (fst kv))) schemas).

(** ** Characters of a string *)

(** [s] without its first character. *)
Definition tail (s : string) : string :=
  match s with
  | EmptyString => EmptyString
  | String _ s' => s'
  end.

(** ** Schema nodes of the statements and examples *)

(** [{ $ref: r }]. *)
Definition refNode (r : string) : Schema :=
  mkSchema None None None None (Some r) None None None None None None
           None None None None None None None None.

(** [{ allOf: l }]. *)
Definition allOfNode (l : list Schema) : Schema :=
  mkSchema None None None None None (Some l) None None None None None
           None None None None None None None None.

(** [{ ...base, oneOf: l }], without [anyOf]. *)
Definition oneOfNode (base : Schema) (l : list Schema) : Schema :=
  mkSchema (type base) (properties base) (required base) (items base)
           (ref base) (allOf base) (Some l) None (enum base) (format base)
           (pattern base) (minLength base) (maxLength base) (minimum base)
           (maximum base) (minItems base) (maxItems base) (description base)
           (additionalProperties base).

(** [{ ...base, anyOf: l }], without [oneOf]. *)
Definition anyOfNode (base : Schema) (l : list Schema) : Schema :=
  mkSchema (type base) (properties base) (required base) (items base)
           (ref base) (allOf base) None (Some l) (enum base) (format base)
           (pattern base) (minLength base) (maxLength base) (minimum base)
           (maximum base) (minItems base) (maxItems base) (description base)
           (additionalProperties base).

(** [{ type: t }]. *)
Definition typeNode (t : string) : Schema :=
  mkSchema (Some t) None None None None None None None None None None
           None None None None None None None None.

(** [{ type: 'object', properties: ps, required: req }]. *)
Definition objectNode (ps : list (string * Schema)) (req : list string) : Schema :=
  mkSchema (Some "object") (Some ps) (Some req) None None None None None None
           None None None None None None None None None None.

(** [{ type: 'array', items: i }]. *)
Definition arrayNode (i : Schema) : Schema :=
  mkSchema (Some "array") None None (Some i) None None None None None
           None None None None None None None None None None.

(** [{ type: 'string', enum: e, format, pattern, minLength, maxLength }]. *)
Definition stringNode (e : option (list string)) (f p : option string)
    (lo hi : option number) : Schema :=
  mkSchema (Some "string") None None None None None None None e f p lo hi
           None None None None None None.

(** A node that [convertType] passes to the [switch] on its type: no
    reference and no composition list. *)
Definition plainNode (s : Schema) : Prop :=
  truthyStr (ref s) = None /\ allOf s = None /\ oneOf s = None /\ anyOf s = None.

(** ** Dependencies *)

(** The dependency map after lines 22-27 on [schemaName] and [refName]. *)
Definition recordedDependency (schemaName refName : string) (isInline : bool)
    (d : Dependencies) : Dependencies :=
  if truthy schemaName && truthy refName && negb isInline then
    match trackDependency schemaName refName d with
    | Some (_, d') => d'
    | None => d
    end
  else d.

(** ** Constraint tokens *)

(** The heads of the format, pattern and length-constraint method calls
    that [convertString] can append. *)
Definition stringConstraintTokens : list string :=
  [".datetime("; ".date("; ".email("; ".uuid("; ".url("; ".regex(";
   ".min("; ".max("].

(** The base of a string validator and its format check. *)
Definition stringBase (property : Schema) : string :=
  let zodString := "z.string()" in
  if formatIs property "date-time" then zodString ++ ".datetime()"
  else if formatIs property "date" then zodString ++ ".date()"
  else if formatIs property "email" then zodString ++ ".email()"
  else if formatIs property "uuid" then zodString ++ ".uuid()"
  else if formatIs property "uri" || formatIs property "url"
       then zodString ++ ".url()"
  else zodString.

(** The call [head n )] of a numeric constraint that is present; nothing
    for one that is absent. *)
Definition optCall (head : string) (n : option number) : string :=
  match n with
  | Some n => head ++ numToString n ++ ")"
  | None => ""
  end.

(** The call [.regex(/p/)] of a pattern that is present and not empty. *)
Definition optRegex (p : option string) : string :=
  match truthyStr p with
  | Some p => ".regex(/" ++ p ++ "/)"
  | None => ""
  end.

(** The texts that [convertString] copies from the pattern. *)
Definition patternTexts (property : Schema) : list string :=
  match truthyStr (pattern property) with
  | Some r => [r]
  | None => []
  end.

(** How a numeric constraint shows in an expression [out]: when present,
    its call [head n )] occurs in [out]; when absent, the head of the call
    does not occur, unless it occurs in one of the texts [inner] that the
    expression copies from elsewhere. *)
Definition roundTrips (out head : string) (value : option number)
    (inner : list string) : Prop :=
  match value with
  | Some n => includes out (head ++ numToString n ++ ")") = true
  | None =>
      (forall t, In t inner -> includes t head = false) ->
      includes out head = false
  end.

(** How the pattern shows: when present and not empty, its call occurs;
    when absent or empty, there is no [.regex(]. *)
Definition patternRoundTrips (out : string) (p : option string) : Prop :=
  match truthyStr p with
  | Some r => includes out (".regex(/" ++ r ++ "/)") = true
  | None => includes out ".regex(" = false
  end.

(** Every recorded dependency of [d] is still recorded in [d']. *)
Definition depsLe (d d' : Dependencies) : Prop :=
  forall key x, In x (getDependencies d key) -> In x (getDependencies d' key).

(** [Visits target s]: the conversion of [s], outside inline mode, reaches a
    reference node whose target name is [target].  The rules follow the
    priority of [convertType]: a reference hides every other field, a
    composition list hides the type, and the parts of an array or object
    count only under that type. *)
Inductive Visits (target : string) : Schema -> Prop :=
| VisitsRef s r :
    truthyStr (ref s) = Some r -> pop (split r "/") = target ->
    Visits target s
| VisitsAllOf s l c :
    truthyStr (ref s) = None -> allOf s = Some l ->
    In c l -> Visits target c -> Visits target s
| VisitsOneOf s l c :
    truthyStr (ref s) = None -> allOf s = None -> oneOf s = Some l ->
    In c l -> Visits target c -> Visits target s
| VisitsAnyOf s l c :
    truthyStr (ref s) = None -> allOf s = None -> oneOf s = None ->
    anyOf s = Some l ->
    In c l -> Visits target c -> Visits target s
| VisitsItems s i :
    plainNode s -> type s = Some "array" -> items s = Some i ->
    Visits target i -> Visits target s
| VisitsProperty s ps k v :
    plainNode s -> type s = Some "object" -> properties s = Some ps ->
    In (k, v) ps -> Visits target v -> Visits target s
| VisitsAdditional s ps a :
    plainNode s -> type s = Some "object" -> properties s = Some ps ->
    additionalProperties s = Some (inr a) ->
    Visits target a -> Visits target s.

(** ** The component emitter *)

(** The diagnostic of line 41. *)
Definition diagnostic (name : string) : string :=
  "Detected circular reference for schema: " ++ name.

(** A name that is mid-generation: in the processing set, and not yet in
    the cache of generated files. *)
Definition midGeneration (g : ComponentGenerator) (name : string) : bool :=
  arrIncludes (processingStack g) name && negb (has (generatedSchemas g) name).

(** The file [generateComponentSchemas] pushes for a generated file. *)
Definition asComponent (f : GeneratedFile) : GeneratedFile :=
  mkFile (Some "_components") (fileName f) (content f).

(** The text of the file of a component (lines 84-91). *)
Definition componentContent (schemas : list (string * Schema))
    (name : string) (schema : Schema)
    (zodSchema : strOrUndef) (deps : Dependencies) : string :=
  joinStr
    (componentImports schemas (getDependencies deps name) ++ [""] ++
     componentJsDoc name schema ++
     ["export const " ++ name ++ " = " ++ tpl zodSchema ++ ";";
      "export type " ++ name ++ "Type = z.infer<typeof " ++ name ++ ">;";
      ""])
    nl.

Definition cacheOk (Q : string -> GeneratedFile -> Prop)
    (g : ComponentGenerator) : Prop :=
  forall name f, get (generatedSchemas g) name = Some f -> Q name f.

(** The number of files of the list that are named [name.ts]. *)
Definition artifactsOf (name : string) (files : list GeneratedFile) : nat :=
  length (filter (fun f => fileName f =? name ++ ".ts") files).

(** The import a component file holds for the dependency [dep]. *)
Definition importOf (dep : string) : string :=
  "import { " ++ dep ++ " } from './" ++ dep ++ ".js';".

(** What holds of the file generated for [name]: it is named [name.ts], and
    when the conversion of the component reaches a reference to [name]
    itself, it imports [name] from its own file. *)
Definition fileOk (schemas : list (string * Schema))
    (name : string) (f : GeneratedFile) : Prop :=
  fileName f = name ++ ".ts" /\
  (forall schema,
     truthy name = true -> get schemas name = Some schema ->
     Visits name schema ->
     includes (content f) (importOf name) = true).

(** ** The operation assembler *)



(** [{ content: { 'application/json': { schema: s } } }]. *)
Definition jsonContent (s : Schema) : option Content :=
  Some (mkContent (Some (mkMediaType (Some s)))).


(** ** Artifacts of a run *)

(** The two-part key of an artifact: its group and its file name. *)
Definition fileKey (f : GeneratedFile) : option string * string :=
  (dirName f, fileName f).

(** The operationIds of the path table, in the order of the pass: every
    member of every path item that is an operation with a non-empty
    operationId. *)
Definition operationIds (paths : list (string * PathItem)) : list string :=
  flat_map
    (fun entry : string * PathItem =>
       flat_map
         (fun member : string * PathItemValue =>
            match snd member with
            | OperationValue operation =>
                match truthyStr (Operation.operationId operation) with
                | Some operationId => [operationId]
                | None => []
                end
            | OtherValue => []
            end)
         (snd entry))
    paths.

(** The distinct elements of a list, each at its first occurrence. *)
Definition firstOccurrences (l : list string) : list string :=
  fold_left setAdd l [].

(** Two generators that differ at most in the console. *)
Definition sameButConsole (g1 g2 : ComponentGenerator) : Prop :=
  dependencies g1 = dependencies g2 /\
  generatedSchemas g1 = generatedSchemas g2 /\
  processingStack g1 = processingStack g2.

(** Two results that agree but for the console. *)
Definition sameOutcome {A : Type}
    (r1 r2 : option (A * ComponentGenerator)) : Prop :=
  match r1, r2 with
  | Some (a1, g1), Some (a2, g2) => a1 = a2 /\ sameButConsole g1 g2
  | None, None => True
  | _, _ => False
  end.

(** The keys of the artifacts of a document, in declaration order: the
    components of the table, then the operations by first occurrence of their
    operationId in the path table. *)
Definition declaredArtifacts (doc : OpenAPIDocument)
  : list (option string * string) :=
  let componentKeys :=
    map (fun name => (Some "_components", name ++ ".ts"))
        (map fst (documentSchemas doc)) in
  let operationKeys :=
    map (fun operationId => (Some operationId, "schema.ts"))
        (firstOccurrences (operationIds (paths doc))) in
  (componentKeys ++ operationKeys)%list.

(** ** References in declaration order *)

(** The target names of the reference nodes that the conversion of a node
    meets outside inline mode, in the order it meets them. *)
Fixpoint referencesOf (s : Schema) : list string :=
  match truthyStr (ref s) with
  | Some r => [pop (split r "/")]
  | None =>
  match allOf s with
  | Some l => flat_map referencesOf l
  | None =>
  match oneOf s with
  | Some l => flat_map referencesOf l
  | None =>
  match anyOf s with
  | Some l => flat_map referencesOf l
  | None =>
    if typeIs (type s) "array" then
      match items s with
      | Some i => referencesOf i
      | None => []
      end
    else if typeIs (type s) "object" then
      match properties s with
      | Some ps =>
          (flat_map (fun kv : string * Schema => referencesOf (snd kv)) ps ++
           match additionalProperties s with
           | Some (inr a) => referencesOf a
           | _ => []
           end)%list
      | None => []
      end
    else []
  end end end end.

(** The dependency map after the references [refs] were met, in order,
    under the owner [schemaName]. *)
Definition recordAll (schemaName : string) (refs : list string)
    (d : Dependencies) : Dependencies :=
  fold_left (fun d refName => recordedDependency schemaName refName false d)
            refs d.

(** ** A sample document *)

(** [User = { id: string (required), email?: string (email), team?: Team,
    friend?: User, boss?: Team }] with [Team = { lead: User }], and
    [POST /users] with the operationId [user.create]. *)
Definition sampleDocument : OpenAPIDocument :=
  mkDocument
    [("/users",
      [("parameters", OtherValue);
       ("post", OperationValue
          (Operation.mk (Some "user.create") None
             (Some (jsonContent (refNode "#/components/schemas/User")))
             (Some [("201", Response.mk None
                              (jsonContent
                                 (objectNode
                                    [("data", refNode "#/components/schemas/User")]
                                    [])))])))])]
    (Some (Some
       [("User",
         objectNode
           [("id", typeNode "string");
            ("email", stringNode None (Some "email") None None None);
            ("team", refNode "#/components/schemas/Team");
            ("friend", refNode "#/components/schemas/User");
            ("boss", refNode "#/components/schemas/Team")]
           ["id"]);
        ("Team", objectNode [("lead", refNode "#/components/schemas/User")] ["lead"])])).

(** ** Dependency sets *)

(** Every dependency set of the map is duplicate-free and holds no empty
    name. *)
Definition depsTidy (d : Dependencies) : Prop :=
  forall key,
    NoDup (getDependencies d key) /\ ~ In "" (getDependencies d key).

(** ** Shapes of expressions *)

(** The modifier that [convertObject] appends for the additional-properties
    policy, given the expression of the policy's schema. *)
Definition policySuffix (policy : option (bool + Schema))
    (additionalSchema : strOrUndef) : string :=
  match policy with
  | Some (inl false) => ".strict()"
  | Some (inl true) => ".catchall(z.unknown())"
  | Some (inr _) => ".catchall(" ++ tpl additionalSchema ++ ")"
  | None => ""
  end.

(** The type token is none of those the [switch] of [convertType] knows. *)
Definition unknownType (type : option string) : Prop :=
  forall t,
    In t ["string"; "number"; "integer"; "boolean"; "array"; "object"; "null"] ->
    typeIs type t = false.

(** ** Component references *)

(** The names that [findComponentReferences] adds for a node, in the order
    of its walk: the name of a component reference, else the names found in
    the all-of, one-of and any-of lists, the properties and the items. *)
Fixpoint componentRefsOf (schema : Schema) : list string :=
  if isComponentSchema (Some schema) then [refNameOf schema]
  else
    ((match allOf schema with
      | Some l => flat_map componentRefsOf l
      | None => []
      end) ++
     (match oneOf schema with
      | Some l => flat_map componentRefsOf l
      | None => []
      end) ++
     (match anyOf schema with
      | Some l => flat_map componentRefsOf l
      | None => []
      end) ++
     (match properties schema with
      | Some ps => flat_map (fun kv : string * Schema => componentRefsOf (snd kv)) ps
      | None => []
      end) ++
     (match items schema with
      | Some i => componentRefsOf i
      | None => []
      end))%list.

(** The import an operation file holds for the component [schemaName]. *)
Definition operationImportOf (schemaName : string) : string :=
  "import { " ++ schemaName ++ " } from '../_components/" ++ schemaName ++ ".js';".

(** ** Characters of a description *)

Definition isLetter (c : ascii) : bool := isUpper c || isLower c.

(** A match of the regular expression of [generateDescription]: letters,
    and at least one. *)
Definition isWord (w : string) : Prop :=
  w <> "" /\ allChars isLetter w = true.

(** What the scan holds is a word, and inside an upper-case run the next
    character is upper-case. *)
Definition scanOk (st : wordScan) (s : string) : Prop :=
  match st with
  | Idle => True
  | InLower w => isWord w
  | InUpper w => isWord w /\ nextIs isUpper s = true
  end.

Definition lowerOrSpace (c : ascii) : bool := isLower c || Ascii.eqb c " ".

(** ** The entries of the operation pass *)








(** ** Own-property order *)

(** [k] may stand before [k'] among the own properties of an object: array
    indices come first, in ascending order. *)
Definition keyBefore (k k' : string) : Prop :=
  match JsObject.arrayIndex k, JsObject.arrayIndex k' with
  | Some i, Some j => (i <= j)%N
  | Some _, None => True
  | None, Some _ => False
  | None, None => True
  end.

Fixpoint ownKeyOrder (ks : list string) : Prop :=
  match ks with
  | [] => True
  | k :: ks' => Forall (keyBefore k) ks' /\ ownKeyOrder ks'
  end.

(** ** The summary that [main] prints (index.ts) *)

(** [fileCount] after the loop over the files. *)
Definition fileCount (files : list GeneratedFile) : nat :=
  fold_left (fun count _ => S count) files 0%nat.

(** [f.dirName && f.dirName !== '_components']. *)
Definition isOperationEndpoint (f : GeneratedFile) : bool :=
  match dirName f with
  | Some d => truthy d && negb (d =? "_components")
  | None => false
  end.

(** [f.dirName === '_components']. *)
Definition isComponentFile (f : GeneratedFile) : bool :=
  match dirName f with
  | Some d => d =? "_components"
  | None => false
  end.

(** The counts printed as "Operation endpoints" and "Component schemas". *)
Definition operationEndpoints (files : list GeneratedFile) : nat :=
  length (filter isOperationEndpoint files).

Definition componentSchemas (files : list GeneratedFile) : nat :=
  length (filter isComponentFile files).

(** ** The command line (cli.ts) *)

Module Cli.

Record CLIOptions : Type := mkOptions {
  file : string;
  output : string
}.

(** How [parseArgs] ends: it returns the options, or prints the usage and
    exits with status 0. *)
Inductive outcome : Type :=
| Parsed (options : CLIOptions)
| HelpShown.

(** The loop over [args], from the index where [args] starts. *)
Fixpoint parseLoop (args : list string) (options : CLIOptions) : outcome :=
  match args with
  | [] => Parsed options
  | arg :: rest =>
      if arg =? "-file" then
        match rest with
        | value :: rest' => parseLoop rest' (mkOptions value (output options))
        | [] => parseLoop rest options
        end
      else if arg =? "-output" then
        match rest with
        | value :: rest' => parseLoop rest' (mkOptions (file options) value)
        | [] => parseLoop rest options
        end
      else if (arg =? "--help") || (arg =? "-h") then HelpShown
      else parseLoop rest options
  end.

(** [parseArgs()] when [process.argv.slice(2)] is [args]. *)
Definition parseArgs (args : list string) : outcome :=
  parseLoop args (mkOptions "document.json" "schema").

End Cli.

(** ** Results and the dependency map *)

(** The result of the computation, failure included, is the same on every
    dependency map. *)
Definition oblivious {A : Type} (m : Conv A) : Prop :=
  forall d1 d2, option_map fst (m d1) = option_map fst (m d2).

(** The file that a request for [name] alone returns on a new generator. *)
Definition standalone (schemas : list (string * Schema)) (name : string)
    (f : GeneratedFile) : Prop :=
  exists g,
    generateSchemaFile schemas name (newComponentGenerator []) =
      Some (Some f, g).

(** ** The artifacts of a run, written out *)











(** ** References anywhere in a node *)

(** [Mentions target s]: somewhere in [s], in whatever field, there is a
    reference node whose target name is [target]. *)
Inductive Mentions (target : string) : Schema -> Prop :=
| MentionsRef s r :
    truthyStr (ref s) = Some r -> pop (split r "/") = target ->
    Mentions target s
| MentionsAllOf s l c :
    allOf s = Some l -> In c l -> Mentions target c -> Mentions target s
| MentionsOneOf s l c :
    oneOf s = Some l -> In c l -> Mentions target c -> Mentions target s
| MentionsAnyOf s l c :
    anyOf s = Some l -> In c l -> Mentions target c -> Mentions target s
| MentionsItems s i :
    items s = Some i -> Mentions target i -> Mentions target s
| MentionsProperty s ps k v :
    properties s = Some ps -> In (k, v) ps -> Mentions target v ->
    Mentions target s
| MentionsAdditional s a :
    additionalProperties s = Some (inr a) -> Mentions target a ->
    Mentions target s.

(* ===================================================================== *)
(** * Properties *)
(* ===================================================================== *)

(** Structural induction over a schema node and all the nodes nested in it. *)
Section SchemaInduction.
Variable P : Schema -> Prop.
Hypothesis step : forall s,
  (forall ps, properties s = Some ps -> Forall (fun kv => P (snd kv)) ps) ->
  (forall i, items s = Some i -> P i) ->
  (forall l, allOf s = Some l -> Forall P l) ->
  (forall l, oneOf s = Some l -> Forall P l) ->
  (forall l, anyOf s = Some l -> Forall P l) ->
  (forall a, additionalProperties s = Some (inr a) -> P a) ->
  P s.

Fixpoint Schema_induction (s : Schema) : P s.
Proof.
  refine (step s _ _ _ _ _ _); destruct s; simpl.
  - intros ps E. destruct properties0 as [l|]; [|discriminate].
    injection E as <-.
    induction l as [|[k v] l IH]; constructor; [apply Schema_induction|exact IH].
  - intros i E. destruct items0 as [x|]; [|discriminate].
    injection E as <-. apply Schema_induction.
  - intros l E. destruct allOf0 as [x|]; [|discriminate].
    injection E as <-.
    induction x as [|v x IH]; constructor; [apply Schema_induction|exact IH].
  - intros l E. destruct oneOf0 as [x|]; [|discriminate].
    injection E as <-.
    induction x as [|v x IH]; constructor; [apply Schema_induction|exact IH].
  - intros l E. destruct anyOf0 as [x|]; [|discriminate].
    injection E as <-.
    induction x as [|v x IH]; constructor; [apply Schema_induction|exact IH].
  - intros a E. destruct additionalProperties0 as [[b|x]|]; try discriminate.
    injection E as <-. apply Schema_induction.
Qed.
End SchemaInduction.

(** ** The converter monad *)

Lemma bind_some {A B : Type} (m : Conv A) (k : A -> Conv B) d b d2 :
  bind m k d = Some (b, d2) <->
  exists a d1, m d = Some (a, d1) /\ k a d1 = Some (b, d2).
Proof.
  unfold bind. split.
  - destruct (m d) as [[a d1]|] eqn:E; [|discriminate].
    intros H. exists a, d1. split; [reflexivity|exact H].
  - intros (a & d1 & E & H). rewrite E. exact H.
Qed.

Lemma returns_ret {A : Type} (a : A) : returns (ret a).
Proof. intros d. exists a, d. reflexivity. Qed.

Lemma returns_bind {A B : Type} (m : Conv A) (k : A -> Conv B) :
  returns m -> (forall a, returns (k a)) -> returns (bind m k).
Proof.
  intros Hm Hk d. destruct (Hm d) as (a & d1 & E).
  destruct (Hk a d1) as (b & d2 & E2).
  exists b, d2. unfold bind. rewrite E. exact E2.
Qed.

Lemma returns_mapM {A B : Type} (f : A -> Conv B) (l : list A) :
  Forall (fun a => returns (f a)) l -> returns (mapM f l).
Proof.
  induction 1 as [|a l Ha _ IH]; simpl.
  - apply returns_ret.
  - apply returns_bind; [exact Ha|]. intros b.
    apply returns_bind; [exact IH|]. intros bs. apply returns_ret.
Qed.

Lemma returns_trackDependency schemaName refName :
  returns (trackDependency schemaName refName).
Proof.
  intros d. unfold trackDependency.
  destruct (get _ schemaName); eexists _, _; reflexivity.
Qed.

(** ** Members of a plain object *)

Lemma lookup_own {V : Type} (obj : list (string * V)) k v :
  lookup obj k = OwnMember v <-> get obj k = Some v.
Proof.
  unfold lookup. destruct (get obj k) as [v'|].
  - split; intros [= ->]; reflexivity.
  - destruct (arrIncludes objectPrototype k); split; discriminate.
Qed.

Lemma lookup_get {V : Type} (obj : list (string * V)) k v :
  get obj k = Some v -> lookup obj k = OwnMember v.
Proof. apply lookup_own. Qed.

Lemma present_has {V : Type} (obj : list (string * V)) k :
  has obj k = true -> present obj k = true.
Proof.
  unfold has, present, lookup. destruct (get obj k); [reflexivity|discriminate].
Qed.

Lemma present_spec {V : Type} (obj : list (string * V)) k :
  present obj k = has obj k || arrIncludes objectPrototype k.
Proof.
  unfold present, has, lookup. destruct (get obj k); [reflexivity|].
  destruct (arrIncludes objectPrototype k); reflexivity.
Qed.

Create HintDb conv.
#[local] Hint Resolve returns_ret returns_bind returns_mapM
  returns_trackDependency : conv.

(** ** Termination of [convertType] *)

Section Termination.

Variable schemas : list (string * Schema).

Lemma convertNode_unfold budget property currentPath schemaName isInline :
  convertNode schemas budget property currentPath schemaName isInline =
  convertTypeBody schemas
    (match budget with
     | S budget' => Some (convertNode schemas budget')
     | O => None
     end)
    (convertNode schemas budget) property currentPath schemaName isInline.
Proof. destruct budget; destruct property; reflexivity. Qed.

Lemma arrIncludes_app l x y :
  arrIncludes (l ++ [y]) x = arrIncludes l x || (x =? y).
Proof.
  unfold arrIncludes. rewrite existsb_app. simpl.
  rewrite orb_false_r. reflexivity.
Qed.

Lemma filter_length_mono {A : Type} (p q : A -> bool) (l : list A) :
  (forall a, p a = true -> q a = true) ->
  (length (filter p l) <= length (filter q l))%nat.
Proof.
  intros H. induction l as [|a l IH]; simpl; [lia|].
  destruct (p a) eqn:Ep.
  - rewrite (H a Ep). simpl. lia.
  - destruct (q a); simpl; lia.
Qed.

Lemma filter_length_strict {A : Type} (p q : A -> bool) (l : list A) x :
  (forall a, p a = true -> q a = true) ->
  In x l -> p x = false -> q x = true ->
  (length (filter p l) < length (filter q l))%nat.
Proof.
  intros H. induction l as [|a l IH]; simpl; [intros []|].
  intros [->|Hin] Hp Hq.
  - rewrite Hp, Hq. simpl.
    pose proof (filter_length_mono p q l H). lia.
  - specialize (IH Hin Hp Hq).
    destruct (p a) eqn:Ep.
    + rewrite (H a Ep). simpl. lia.
    + destruct (q a); simpl; lia.
Qed.

Lemma get_In {V : Type} (m : list (string * V)) k v :
  get m k = Some v -> In (k, v) m.
Proof.
  induction m as [|[k' v'] m IH]; simpl; [discriminate|].
  destruct (k =? k') eqn:E.
  - apply String.eqb_eq in E. subst. intros [= ->]. left. reflexivity.
  - intros H. right. apply IH, H.
Qed.

(** Entering a component that is not on the path leaves fewer to enter. *)
Lemma unexpanded_enter currentPath refName target :
  get schemas refName = Some target ->
  arrIncludes currentPath refName = false ->
  (unexpanded schemas (currentPath ++ [refName]) < unexpanded schemas currentPath)%nat.
Proof.
  intros Hget Hpath. unfold unexpanded.
  apply filter_length_strict with (x := (refName, target)).
  - intros [k v]. simpl. rewrite arrIncludes_app.
    destruct (arrIncludes currentPath k); simpl; [discriminate|reflexivity].
  - apply get_In, Hget.
  - simpl. rewrite arrIncludes_app, String.eqb_refl, orb_true_r. reflexivity.
  - simpl. rewrite Hpath. reflexivity.
Qed.

Lemma unexpanded_le currentPath : (unexpanded schemas currentPath <= length schemas)%nat.
Proof. unfold unexpanded. apply List.filter_length_le. Qed.

(** With a budget that covers the components still to enter,
    [convertType] returns. *)
Lemma convertNode_returns budget :
  forall property currentPath schemaName isInline,
    (unexpanded schemas currentPath <= budget)%nat ->
    returns (convertNode schemas budget property currentPath schemaName isInline).
Proof.
  induction budget as [budget IHbudget] using lt_wf_ind.
  induction property as [property IHprops IHitems IHallOf IHoneOf IHanyOf IHadd]
    using Schema_induction.
  intros currentPath schemaName isInline Hbudget.
  rewrite convertNode_unfold. unfold convertTypeBody.
  destruct (truthyStr (ref property)) as [r|].
  { apply returns_bind.
    - destruct (truthy schemaName && truthy (pop (split r "/")) && negb isInline);
        auto with conv.
    - intros _.
      destruct (arrIncludes currentPath (pop (split r "/"))) eqn:Hpath;
        [apply returns_ret|].
      destruct isInline; [|apply returns_ret].
      unfold lookup.
      destruct (get schemas (pop (split r "/"))) as [target|] eqn:Hget;
        [|destruct (arrIncludes objectPrototype _); apply returns_ret].
      pose proof (unexpanded_enter _ _ _ Hget Hpath) as Hlt.
      destruct budget as [|budget']; [lia|].
      apply IHbudget; lia. }
  destruct (allOf property) as [l|] eqn:EallOf.
  { apply returns_bind; [|intros; apply returns_ret].
    apply returns_mapM. specialize (IHallOf l eq_refl).
    eapply Forall_impl; [|exact IHallOf]. intros s Hs. apply Hs, Hbudget. }
  destruct (oneOf property) as [l|] eqn:EoneOf.
  { apply returns_bind; [|intros; apply returns_ret].
    apply returns_mapM. specialize (IHoneOf l eq_refl).
    eapply Forall_impl; [|exact IHoneOf]. intros s Hs. apply Hs, Hbudget. }
  destruct (anyOf property) as [l|] eqn:EanyOf.
  { apply returns_bind; [|intros; apply returns_ret].
    apply returns_mapM. specialize (IHanyOf l eq_refl).
    eapply Forall_impl; [|exact IHanyOf]. intros s Hs. apply Hs, Hbudget. }
  cbv zeta.
  destruct (typeIs (type property) "string"); [apply returns_ret|].
  destruct (typeIs (type property) "number" || typeIs (type property) "integer");
    [apply returns_ret|].
  destruct (typeIs (type property) "boolean"); [apply returns_ret|].
  destruct (typeIs (type property) "array").
  { unfold convertArray. apply returns_bind; [|intros; apply returns_ret].
    destruct (items property) as [i|] eqn:Eitems; [|apply returns_ret].
    apply (IHitems i eq_refl), Hbudget. }
  destruct (typeIs (type property) "object").
  { unfold convertObject.
    destruct (properties property) as [ps|] eqn:Eprops; [|apply returns_ret].
    apply returns_bind.
    - apply returns_mapM. specialize (IHprops ps eq_refl).
      eapply Forall_impl; [|exact IHprops]. intros [k v] Hv. simpl in *.
      apply returns_bind; [apply Hv, Hbudget|intros; apply returns_ret].
    - intros props.
      destruct (additionalProperties property) as [[[|]|a]|] eqn:Eadd;
        try apply returns_ret.
      apply returns_bind; [|intros; apply returns_ret].
      apply (IHadd a eq_refl), Hbudget. }
  destruct (typeIs (type property) "null"); apply returns_ret.
Qed.

(** [convertType] returns on every node, path, owner, mode and dependency
    map: the recursion of line 36 is well founded. *)
Lemma convertType_returns property currentPath schemaName isInline :
  returns (convertType schemas property currentPath schemaName isInline).
Proof.
  unfold convertType. destruct property as [s|]; [|apply returns_ret].
  apply convertNode_returns, unexpanded_le.
Qed.

End Termination.

(** ** Occurrences of a text in a string *)

Module StringFacts.

Lemma append_assoc (a b c : string) : (a ++ b) ++ c = a ++ (b ++ c).
Proof. induction a as [|x a IH]; simpl; [reflexivity|]. now rewrite IH. Qed.

Lemma append_nil_r (a : string) : a ++ "" = a.
Proof. induction a as [|x a IH]; simpl; [reflexivity|]. now rewrite IH. Qed.

Lemma startsWith_nil s : startsWith s "" = true.
Proof. destruct s; reflexivity. Qed.

Lemma startsWith_app p s : startsWith (p ++ s) p = true.
Proof.
  induction p as [|x p IH]; simpl; [apply startsWith_nil|].
  rewrite Ascii.eqb_refl. exact IH.
Qed.

Lemma startsWith_app_l s p b : startsWith s p = true -> startsWith (s ++ b) p = true.
Proof.
  revert p. induction s as [|x s IH]; intros [|y p]; simpl.
  - intros _. apply startsWith_nil.
  - discriminate.
  - reflexivity.
  - intros H. apply andb_true_iff in H as [-> H]. simpl. apply IH, H.
Qed.

Lemma includes_app_l a b sub : includes a sub = true -> includes (a ++ b) sub = true.
Proof.
  induction a as [|x a IH]; simpl.
  - rewrite orb_false_r. destruct sub; [|discriminate].
    intros _. destruct b; reflexivity.
  - intros H. apply orb_true_iff in H as [H|H].
    + apply (startsWith_app_l (String x a) sub b) in H. simpl in H.
      rewrite H. reflexivity.
    + rewrite (IH H). apply orb_true_r.
Qed.

Lemma includes_app_r a b sub : includes b sub = true -> includes (a ++ b) sub = true.
Proof.
  intros H. induction a as [|x a IH]; simpl; [exact H|].
  rewrite IH. apply orb_true_r.
Qed.

Lemma includes_prefix sub b : includes (sub ++ b) sub = true.
Proof.
  destruct sub as [|x sub]; simpl.
  - destruct b; reflexivity.
  - rewrite Ascii.eqb_refl, startsWith_app. reflexivity.
Qed.

(** The text [sub] occurs in [a ++ sub ++ b]. *)
Lemma includes_middle a sub b : includes (a ++ sub ++ b) sub = true.
Proof. apply includes_app_r, includes_prefix. Qed.

Lemma includes_suffix a sub : includes (a ++ sub) sub = true.
Proof. rewrite <- (append_nil_r sub) at 1. apply includes_middle. Qed.

Lemma startsWith_before a c b sub :
  occurs c sub = false ->
  startsWith (a ++ String c b) sub = startsWith a sub.
Proof.
  revert sub. induction a as [|x a IH]; intros [|y sub]; simpl; try reflexivity.
  - intros H. apply orb_false_iff in H as [H _].
    rewrite Ascii.eqb_sym, H. reflexivity.
  - intros H. apply orb_false_iff in H as [_ H]. rewrite (IH _ H). reflexivity.
Qed.

(** An occurrence of [sub] cannot straddle a character that [sub] has
    only, if at all, in first place. *)
Lemma includes_split a c b sub :
  occurs c (tail sub) = false ->
  includes (a ++ String c b) sub =
  includes a sub || includes (String c b) sub.
Proof.
  intros H. induction a as [|x a IH].
  - cbn [append]. destruct sub as [|y sub]; reflexivity.
  - cbn [append includes]. rewrite IH, orb_assoc. f_equal. f_equal.
    destruct sub as [|y sub]; [reflexivity|]. cbn [startsWith].
    simpl in H. rewrite (startsWith_before a c b sub H). reflexivity.
Qed.

(** No occurrence of [sub] without its first character. *)
Lemma includes_without_first s x sub :
  occurs x s = false -> includes s (String x sub) = false.
Proof.
  induction s as [|y s IH]; simpl; [reflexivity|].
  intros H. apply orb_false_iff in H as [H1 H2].
  rewrite H1, (IH H2). reflexivity.
Qed.

Lemma includes_concat_in sep l x :
  In x l -> includes (String.concat sep l) x = true.
Proof.
  induction l as [|y l IH]; [intros []|].
  intros [->|Hin].
  - destruct l; simpl; [|apply includes_prefix].
    rewrite <- (append_nil_r x) at 1. apply includes_prefix.
  - specialize (IH Hin). destruct l as [|z l]; [destruct Hin|].
    change (String.concat sep (y :: z :: l))
      with (y ++ sep ++ String.concat sep (z :: l)).
    apply includes_app_r, includes_app_r, IH.
Qed.

(** No occurrence of [sub] in a string that lacks one of its characters. *)
Lemma includes_lacking c s sub :
  occurs c s = false -> occurs c sub = true -> includes s sub = false.
Proof.
  intros Hs Hsub.
  assert (Hstart : forall t, occurs c t = false -> startsWith t sub = false).
  { clear Hs. revert Hsub. induction sub as [|x sub IH]; [discriminate|].
    intros Hsub [|y t] Ht; [reflexivity|]. cbn [startsWith].
    cbn in Hsub, Ht. apply orb_false_iff in Ht as [Hy Ht].
    destruct (Ascii.eqb_spec x y) as [->|Hxy]; [|reflexivity].
    rewrite Hy in Hsub. cbn [orb] in Hsub. cbn [andb]. apply IH; assumption. }
  induction s as [|y s IH]; cbn [includes].
  - rewrite Hstart by reflexivity. reflexivity.
  - rewrite (Hstart _ Hs). cbn in Hs. apply orb_false_iff in Hs as [_ Hs].
    apply IH, Hs.
Qed.

Lemma occurs_app c a b : occurs c (a ++ b) = occurs c a || occurs c b.
Proof.
  induction a as [|x a IH]; [reflexivity|].
  cbn. rewrite IH. apply orb_assoc.
Qed.

(** A character that no number is printed with does not occur in the text
    of a number. *)
Lemma occurs_numToString c n :
  isNumberChar c = false -> occurs c (numToString n) = false.
Proof.
  intros Hc. destruct n as [text Hok]. unfold numToString. cbn [numText].
  unfold isNumberText in Hok. apply andb_true_iff in Hok as [_ Hok].
  induction text as [|x text IH]; [reflexivity|].
  cbn [allChars] in Hok. apply andb_true_iff in Hok as [Hx Hok].
  cbn [occurs]. rewrite (IH Hok), orb_false_r.
  destruct (Ascii.eqb_spec c x) as [->|_]; [|reflexivity].
  rewrite Hx in Hc. discriminate.
Qed.

End StringFacts.

Import StringFacts.

(** ** The reference branch of [convertType] *)

Lemma convertNode_cycle schemas budget property r currentPath schemaName isInline d :
  truthyStr (ref property) = Some r ->
  arrIncludes currentPath (pop (split r "/")) = true ->
  convertNode schemas budget property currentPath schemaName isInline d =
  Some (str ("z.lazy(() => " ++ pop (split r "/") ++ ")"),
        recordedDependency schemaName (pop (split r "/")) isInline d).
Proof.
  intros Href Hpath. rewrite convertNode_unfold. unfold convertTypeBody.
  rewrite Href. unfold bind, recordedDependency.
  destruct (truthy schemaName && truthy (pop (split r "/")) && negb isInline).
  - destruct (returns_trackDependency schemaName (pop (split r "/")) d)
      as ([] & d' & E).
    rewrite E, Hpath. reflexivity.
  - cbn. rewrite Hpath. reflexivity.
Qed.

Lemma truthyStr_some o r : o = Some r -> truthy r = true -> truthyStr o = Some r.
Proof. intros -> H. unfold truthyStr. rewrite H. reflexivity. Qed.

(** C1.  A reference node whose target name is already on the path stack,
    at any position, is converted without any recursive call (a budget of no
    inline expansion at all is enough) to the deferred expression
    [z.lazy(() => target)]; and [convertType] returns on every input
    whatever, so no chain of references makes it recurse forever. *)
Theorem C1_cycle_yields_lazy schemas property r currentPath schemaName isInline :
  ref property = Some r ->
  truthy r = true ->
  In (pop (split r "/")) currentPath ->
  let target := pop (split r "/") in
  (forall d,
     convertType schemas (Some property) currentPath schemaName isInline d =
     Some (str ("z.lazy(() => " ++ target ++ ")"),
           recordedDependency schemaName target isInline d)) /\
  (forall d,
     convertNode schemas 0 property currentPath schemaName isInline d =
     Some (str ("z.lazy(() => " ++ target ++ ")"),
           recordedDependency schemaName target isInline d)) /\
  (forall node path owner mode,
     returns (convertType schemas node path owner mode)).
Proof.
  intros Href Htruthy Hin target.
  assert (Hpath : arrIncludes currentPath target = true).
  { unfold arrIncludes. apply existsb_exists. exists target.
    split; [exact Hin|apply String.eqb_refl]. }
  pose proof (truthyStr_some _ _ Href Htruthy) as Ht.
  split; [|split].
  - intros d. unfold convertType. apply convertNode_cycle; assumption.
  - intros d. apply convertNode_cycle; assumption.
  - intros. apply convertType_returns.
Qed.

(** A chain [A -> B -> C -> A] expanded inline from [A]: the reference that
    closes the cycle becomes the lazy token. *)
Example cycle_of_three_inline :
  let table :=
    [("A", objectNode [("b", refNode "#/components/schemas/B")] ["b"]);
     ("B", objectNode [("c", refNode "#/components/schemas/C")] ["c"]);
     ("C", objectNode [("a", refNode "#/components/schemas/A")] ["a"])] in
  option_map fst
    (convertType table (Some (refNode "#/components/schemas/A")) [] "" true []) =
  Some (str ("z.object({" ++ nl ++ "  b: z.object({" ++ nl ++
             "  c: z.object({" ++ nl ++ "  a: z.lazy(() => A)" ++ nl ++ "})" ++
             nl ++ "})" ++ nl ++ "})")).
Proof. vm_compute. reflexivity. Qed.

Lemma C1_cycle_yields_lazy_witness :
  convertType [] (Some (refNode "#/components/schemas/Shape"))
              ["Root"; "Shape"; "Leaf"] "Root" false [] =
  Some (str "z.lazy(() => Shape)", [("Root", ["Shape"])]).
Proof.
  exact (proj1 (C1_cycle_yields_lazy [] (refNode "#/components/schemas/Shape")
                  "#/components/schemas/Shape" ["Root"; "Shape"; "Leaf"] "Root"
                  false eq_refl eq_refl (or_intror (or_introl eq_refl))) []).
Defined.

(** ** The all-of branch *)

(** C3.  On the node [{ allOf: [] }] the all-of branch reads [schemas[0]]
    of an empty array: [convertType] returns [undefined], which is no string
    and not the validator [z.unknown()], and a template literal prints it as
    the text [undefined]. *)
Theorem C3_empty_allOf_is_undefined schemas currentPath schemaName isInline d :
  convertType schemas (Some (allOfNode [])) currentPath schemaName isInline d =
  Some (undefined, d) /\
  tpl undefined = "undefined".
Proof.
  split; [|reflexivity].
  unfold convertType. rewrite convertNode_unfold. reflexivity.
Qed.

(** The artifact of a component [{ allOf: [] }] binds its validator to
    [undefined]. *)
Example empty_allOf_component :
  exists files g,
    generateComponentSchemas [("Empty", allOfNode [])] (newComponentGenerator [])
    = Some (files, g) /\
    map (fun f => includes (content f) "export const Empty = undefined;") files
    = [true].
Proof. eexists _, _. split; [vm_compute; reflexivity|vm_compute; reflexivity]. Qed.

(** ** The one-of and any-of branches *)

(** C8.  Under the same path stack, owner and mode, and from the same
    dependency map, the one-of composition over a list of children and the
    any-of composition over the same list are converted to the same result;
    when the node is no reference and has no all-of list, that result is the
    union expression [z.union([...])] over the converted children, joined by
    a comma and a space. *)
Theorem C8_oneOf_anyOf_same_union schemas base l currentPath schemaName isInline d :
  convertType schemas (Some (oneOfNode base l)) currentPath schemaName isInline d =
  convertType schemas (Some (anyOfNode base l)) currentPath schemaName isInline d /\
  (truthyStr (ref base) = None -> allOf base = None ->
   convertType schemas (Some (oneOfNode base l)) currentPath schemaName isInline d =
   bind (mapM (fun s => convertType schemas (Some s) currentPath schemaName isInline) l)
        (fun children => ret (str ("z.union([" ++ join children ", " ++ "])"))) d).
Proof.
  unfold convertType. rewrite !convertNode_unfold. unfold convertTypeBody.
  destruct base; cbn [oneOfNode anyOfNode ref allOf oneOf anyOf type properties
    required items enum format pattern minLength maxLength minimum maximum
    minItems maxItems description additionalProperties].
  split.
  - destruct (truthyStr ref0); [reflexivity|].
    destruct allOf0; reflexivity.
  - intros -> ->. reflexivity.
Qed.

Lemma C8_oneOf_anyOf_same_union_witness :
  convertType [] (Some (oneOfNode emptySchema [typeNode "string"; typeNode "null"]))
              [] "" false [] =
  Some (str "z.union([z.string(), z.null()])", []).
Proof.
  rewrite (proj2 (C8_oneOf_anyOf_same_union [] emptySchema
                    [typeNode "string"; typeNode "null"] [] "" false [])
                 eq_refl eq_refl).
  reflexivity.
Defined.

(** ** String nodes with an enumerated literal set *)

Lemma convertNode_string schemas budget s currentPath schemaName isInline d :
  plainNode s -> typeIs (type s) "string" = true ->
  convertNode schemas budget s currentPath schemaName isInline d =
  Some (str (convertString s), d).
Proof.
  intros (Href & Hall & Hone & Hany) Htype.
  rewrite convertNode_unfold. unfold convertTypeBody.
  rewrite Href, Hall, Hone, Hany. cbv zeta. rewrite Htype. reflexivity.
Qed.

Lemma typeIs_inv t u : typeIs t u = true -> t = Some u.
Proof.
  destruct t as [v|]; simpl; [|discriminate].
  intros H. apply String.eqb_eq in H. now subst.
Qed.

Lemma convertNode_number schemas budget s currentPath schemaName isInline d :
  plainNode s ->
  typeIs (type s) "number" || typeIs (type s) "integer" = true ->
  convertNode schemas budget s currentPath schemaName isInline d =
  Some (str (convertNumber s (type s)), d).
Proof.
  intros (Href & Hall & Hone & Hany) Htype.
  rewrite convertNode_unfold. unfold convertTypeBody.
  rewrite Href, Hall, Hone, Hany. cbv zeta. rewrite Htype.
  destruct (typeIs (type s) "string") eqn:E; [|reflexivity].
  apply typeIs_inv in E. rewrite E in Htype. discriminate.
Qed.

Lemma convertNode_array schemas budget s currentPath schemaName isInline :
  plainNode s -> typeIs (type s) "array" = true ->
  convertNode schemas budget s currentPath schemaName isInline =
  convertArray
    (fun p cp sn il =>
       match p with
       | None => ret (str "z.unknown()")
       | Some s => convertNode schemas budget s cp sn il
       end)
    s currentPath schemaName isInline.
Proof.
  intros (Href & Hall & Hone & Hany) Htype.
  rewrite convertNode_unfold. unfold convertTypeBody.
  rewrite Href, Hall, Hone, Hany. cbv zeta.
  apply typeIs_inv in Htype. rewrite Htype. reflexivity.
Qed.

Lemma includes_quoted tok' x rest :
  occurs "034" tok' = false ->
  includes ((dq ++ x ++ dq) ++ rest) (String "." tok') =
  includes x (String "." tok') || includes rest (String "." tok').
Proof.
  intros H. rewrite append_assoc. change (dq ++ ?a) with (String "034" a).
  rewrite append_assoc. change (dq ++ rest) with (String "034" rest).
  cbn [includes startsWith]. change (Ascii.eqb "." "034") with false.
  rewrite includes_split by exact H.
  cbn [includes startsWith]. change (Ascii.eqb "." "034") with false.
  reflexivity.
Qed.

Lemma includes_enum_items tok' e :
  occurs "034" tok' = false ->
  (forall lit, In lit e -> includes lit (String "." tok') = false) ->
  includes (joinStr (map (fun e => dq ++ e ++ dq) e) ", " ++ "])") (String "." tok')
  = false.
Proof.
  intros Hq. unfold joinStr. induction e as [|x e IH]; intros Hlits.
  - reflexivity.
  - destruct e as [|y e].
    + cbn [map String.concat]. rewrite includes_quoted by exact Hq.
      rewrite (Hlits x (or_introl eq_refl)). reflexivity.
    + change (String.concat ", " (map (fun e => dq ++ e ++ dq) (x :: y :: e)))
        with ((dq ++ x ++ dq) ++ ", " ++
              String.concat ", " (map (fun e => dq ++ e ++ dq) (y :: e))).
      rewrite append_assoc, includes_quoted by exact Hq.
      rewrite (Hlits x (or_introl eq_refl)).
      cbn [append includes startsWith orb].
      change (Ascii.eqb "." ",") with false. change (Ascii.eqb "." " ") with false.
      cbn [andb orb]. apply IH. intros lit Hin. apply Hlits. right. exact Hin.
Qed.

(** C6, as the code has it.  A string node with an enumerated literal set
    is converted to exactly [z.enum(["l1", "l2", ...])] over its literals,
    whatever its format, pattern and length fields are; a format, pattern or
    length-constraint token occurs in that expression only if it occurs in
    the text of one of the literals, which are copied unescaped. *)
Theorem C6_enum_overrides_constraints
    schemas node e currentPath schemaName isInline d :
  plainNode node ->
  typeIs (type node) "string" = true ->
  enum node = Some e ->
  let out := "z.enum([" ++ joinStr (map (fun e => dq ++ e ++ dq) e) ", " ++ "])" in
  convertType schemas (Some node) currentPath schemaName isInline d =
    Some (str out, d) /\
  convertString node = convertString (stringNode (Some e) None None None None) /\
  (forall tok, In tok stringConstraintTokens ->
     (forall lit, In lit e -> includes lit tok = false) ->
     includes out tok = false).
Proof.
  intros Hplain Htype Henum out. split; [|split].
  - unfold convertType. rewrite convertNode_string by assumption.
    unfold convertString. rewrite Henum. reflexivity.
  - unfold convertString. rewrite Henum. reflexivity.
  - intros tok Htok Hlits. unfold out.
    unfold stringConstraintTokens in Htok. simpl in Htok.
    repeat (destruct Htok as [<-|Htok];
            [cbn [append includes startsWith]; cbn -[includes joinStr append];
             apply includes_enum_items; [reflexivity|exact Hlits]|]).
    destruct Htok.
Qed.

Lemma C6_enum_overrides_constraints_witness :
  convertType [] (Some (stringNode (Some ["on"; "off"]) (Some "email")
                                   (Some "^o") (Some (mkNumber "2" eq_refl)) (Some (mkNumber "3" eq_refl))))
              [] "" false [] =
  Some (str ("z.enum([" ++ dq ++ "on" ++ dq ++ ", " ++ dq ++ "off" ++ dq ++ "])"), []).
Proof.
  apply (C6_enum_overrides_constraints []
           (stringNode (Some ["on"; "off"]) (Some "email") (Some "^o")
                       (Some (mkNumber "2" eq_refl)) (Some (mkNumber "3" eq_refl)))
           ["on"; "off"] [] "" false []).
  - repeat split.
  - reflexivity.
  - reflexivity.
Defined.

(** C6 as stated fails: a literal that closes the quote carries a length
    constraint into the expression, next to the enum token. *)
Lemma C6_enum_literal_carries_constraint :
  let node :=
    stringNode (Some ["a" ++ dq ++ "]).min(1).or(z.enum([" ++ dq ++ "b"])
               None None None None in
  let out := "z.enum([" ++ dq ++ "a" ++ dq ++ "]).min(1).or(z.enum([" ++
             dq ++ "b" ++ dq ++ "])" in
  convertType [] (Some node) [] "" false [] = Some (str out, []) /\
  includes out "z.enum(" = true /\
  includes out ".min(" = true.
Proof. vm_compute. repeat split. Qed.

(** ** Constraints of string, number and array nodes *)

(** A chain of appended method calls: an occurrence of a token that starts
    with its only dot lies before the next call or in it. *)
Lemma includes_call (a b tok' : string) :
  occurs "." tok' = false ->
  includes (a ++ String "." b) (String "." tok') =
  includes a (String "." tok') || includes (String "." b) (String "." tok').
Proof. intros H. apply includes_split. exact H. Qed.

Lemma stringBase_cases property :
  In (stringBase property)
     ["z.string().datetime()"; "z.string().date()"; "z.string().email()";
      "z.string().uuid()"; "z.string().url()"; "z.string()"].
Proof.
  unfold stringBase.
  destruct (formatIs property "date-time"); [simpl; auto|].
  destruct (formatIs property "date"); [simpl; auto|].
  destruct (formatIs property "email"); [simpl; auto|].
  destruct (formatIs property "uuid"); [simpl; auto|].
  destruct (formatIs property "uri" || formatIs property "url"); simpl; auto 7.
Qed.

(** The expression of a string node without literals, as the chain of its
    parts. *)
Lemma convertString_chain property :
  enum property = None ->
  convertString property =
  stringBase property ++ optRegex (pattern property) ++
  optCall ".min(" (minLength property) ++ optCall ".max(" (maxLength property).
Proof.
  intros He. unfold convertString, optRegex, optCall. rewrite He.
  fold (stringBase property).
  destruct (truthyStr (pattern property)), (minLength property),
    (maxLength property);
    repeat first [rewrite append_assoc | rewrite append_nil_r | progress cbn [append]];
    reflexivity.
Qed.

Lemma convertNumber_chain property type :
  convertNumber property type =
  (if typeIs type "integer" then "z.number().int()" else "z.number()") ++
  optCall ".min(" (minimum property) ++ optCall ".max(" (maximum property).
Proof.
  unfold convertNumber, optCall.
  destruct (minimum property), (maximum property);
    repeat first [rewrite append_assoc | rewrite append_nil_r | progress cbn [append]];
    reflexivity.
Qed.

Lemma includes_refl s : includes s s = true.
Proof. rewrite <- (append_nil_r s) at 1. apply includes_prefix. Qed.

(** Appending a piece that is empty or a method call. *)
Lemma includes_piece a piece tok' :
  occurs "." tok' = false ->
  piece = "" \/ (exists b, piece = String "." b) ->
  includes (a ++ piece) (String "." tok') =
  includes a (String "." tok') || includes piece (String "." tok').
Proof.
  intros H [->|[b ->]].
  - rewrite append_nil_r. simpl. rewrite orb_false_r. reflexivity.
  - apply includes_call, H.
Qed.

Lemma optCall_piece head' o :
  optCall (String "." head') o = "" \/
  (exists b, optCall (String "." head') o = String "." b).
Proof. destruct o; simpl; eauto. Qed.

Lemma optRegex_piece p :
  optRegex p = "" \/ (exists b, optRegex p = String "." b).
Proof. unfold optRegex. destruct (truthyStr p); simpl; eauto. Qed.

(** Unfolds [includes] along the literal characters of its first argument. *)
Ltac peel :=
  cbn [append includes startsWith];
  cbn -[includes append startsWith numToString].

(** The text of a number and the parenthesis that closes its call hold no
    opening parenthesis, so no head of a call. *)
Lemma includes_number_tail n tok :
  occurs "(" tok = true ->
  includes (numToString n ++ ")") tok = false.
Proof.
  intros H. apply (includes_lacking "("); [|exact H].
  rewrite occurs_app, occurs_numToString by reflexivity. reflexivity.
Qed.

Lemma optCall_min_max o : includes (optCall ".min(" o) ".max(" = false.
Proof. destruct o; [|reflexivity]. simpl optCall. peel. now apply includes_number_tail. Qed.

Lemma optCall_max_min o : includes (optCall ".max(" o) ".min(" = false.
Proof. destruct o; [|reflexivity]. simpl optCall. peel. now apply includes_number_tail. Qed.

Lemma optCall_min_regex o : includes (optCall ".min(" o) ".regex(" = false.
Proof. destruct o; [|reflexivity]. simpl optCall. peel. now apply includes_number_tail. Qed.

Lemma optCall_max_regex o : includes (optCall ".max(" o) ".regex(" = false.
Proof. destruct o; [|reflexivity]. simpl optCall. peel. now apply includes_number_tail. Qed.

Lemma optRegex_min p :
  (forall t, In t (patternTexts p) -> includes t ".min(" = false) ->
  includes (optRegex (pattern p)) ".min(" = false.
Proof.
  unfold patternTexts, optRegex. destruct (truthyStr (pattern p)) as [r|];
    [|reflexivity].
  intros H. peel. rewrite includes_split by reflexivity.
  rewrite (H r (or_introl eq_refl)). reflexivity.
Qed.

Lemma optRegex_max p :
  (forall t, In t (patternTexts p) -> includes t ".max(" = false) ->
  includes (optRegex (pattern p)) ".max(" = false.
Proof.
  unfold patternTexts, optRegex. destruct (truthyStr (pattern p)) as [r|];
    [|reflexivity].
  intros H. peel. rewrite includes_split by reflexivity.
  rewrite (H r (or_introl eq_refl)). reflexivity.
Qed.

Lemma stringBase_tokens property tok :
  In tok [".min("; ".max("; ".regex("] ->
  includes (stringBase property) tok = false.
Proof.
  intros Htok. pose proof (stringBase_cases property) as Hb.
  simpl in Htok, Hb.
  repeat (destruct Htok as [<-|Htok];
          [repeat (destruct Hb as [<-|Hb]; [reflexivity|]); destruct Hb|]).
  destruct Htok.
Qed.

Lemma chain4 (a b c e : string) tok' :
  occurs "." tok' = false ->
  (b = "" \/ exists x, b = String "." x) ->
  (c = "" \/ exists x, c = String "." x) ->
  (e = "" \/ exists x, e = String "." x) ->
  includes (a ++ b ++ c ++ e) (String "." tok') =
  includes a (String "." tok') || includes b (String "." tok') ||
  includes c (String "." tok') || includes e (String "." tok').
Proof.
  intros H Hb Hc He.
  rewrite <- !append_assoc.
  rewrite (includes_piece _ e) by assumption.
  rewrite (includes_piece _ c) by assumption.
  rewrite (includes_piece _ b) by assumption.
  reflexivity.
Qed.

Lemma convertString_roundTrips property :
  enum property = None ->
  let out := convertString property in
  roundTrips out ".min(" (minLength property) (patternTexts property) /\
  roundTrips out ".max(" (maxLength property) (patternTexts property) /\
  patternRoundTrips out (pattern property).
Proof.
  intros He out. unfold out. rewrite (convertString_chain _ He).
  split; [|split].
  - unfold roundTrips. destruct (minLength property) as [n|] eqn:E.
    + apply includes_app_r, includes_app_r, includes_app_l, includes_refl.
    + intros Hp.
      rewrite chain4;
        [|reflexivity|apply optRegex_piece|apply optCall_piece|apply optCall_piece].
      rewrite stringBase_tokens by (simpl; auto).
      rewrite optRegex_min by exact Hp.
      rewrite optCall_max_min. reflexivity.
  - unfold roundTrips. destruct (maxLength property) as [n|] eqn:E.
    + apply includes_app_r, includes_app_r, includes_app_r, includes_refl.
    + intros Hp.
      rewrite chain4;
        [|reflexivity|apply optRegex_piece|apply optCall_piece|apply optCall_piece].
      rewrite stringBase_tokens by (simpl; auto).
      rewrite optRegex_max by exact Hp.
      rewrite optCall_min_max. reflexivity.
  - unfold patternRoundTrips.
    destruct (truthyStr (pattern property)) as [r|] eqn:E.
    + apply includes_app_r. unfold optRegex. rewrite E.
      apply includes_app_l, includes_refl.
    + rewrite chain4;
        [|reflexivity|apply optRegex_piece|apply optCall_piece|apply optCall_piece].
      rewrite stringBase_tokens by (simpl; auto).
      unfold optRegex at 1. rewrite E.
      rewrite optCall_min_regex, optCall_max_regex. reflexivity.
Qed.

Lemma chain3 (a c e : string) tok' :
  occurs "." tok' = false ->
  (c = "" \/ exists x, c = String "." x) ->
  (e = "" \/ exists x, e = String "." x) ->
  includes (a ++ c ++ e) (String "." tok') =
  includes a (String "." tok') || includes c (String "." tok') ||
  includes e (String "." tok').
Proof.
  intros H Hc He.
  rewrite <- !append_assoc.
  rewrite (includes_piece _ e) by assumption.
  rewrite (includes_piece _ c) by assumption.
  reflexivity.
Qed.

(** A base [a] followed by the optional calls [.min(lo)] and [.max(hi)]. *)
Lemma bounds_roundTrip (a : string) (lo hi : option number) (inner : list string) :
  ((forall t, In t inner -> includes t ".min(" = false) ->
   includes a ".min(" = false) ->
  ((forall t, In t inner -> includes t ".max(" = false) ->
   includes a ".max(" = false) ->
  let out := a ++ optCall ".min(" lo ++ optCall ".max(" hi in
  roundTrips out ".min(" lo inner /\ roundTrips out ".max(" hi inner.
Proof.
  intros Hmin Hmax out. unfold out, roundTrips. split.
  - destruct lo as [n|].
    + apply includes_app_r, includes_app_l, includes_refl.
    + intros Hin.
      rewrite chain3; [|reflexivity|apply optCall_piece|apply optCall_piece].
      rewrite (Hmin Hin), optCall_max_min. reflexivity.
  - destruct hi as [n|].
    + apply includes_app_r, includes_app_r, includes_refl.
    + intros Hin.
      rewrite chain3; [|reflexivity|apply optCall_piece|apply optCall_piece].
      rewrite (Hmax Hin), optCall_min_max. reflexivity.
Qed.

Lemma convertNumber_roundTrips property type :
  let out := convertNumber property type in
  roundTrips out ".min(" (minimum property) [] /\
  roundTrips out ".max(" (maximum property) [].
Proof.
  cbv zeta. rewrite convertNumber_chain.
  apply bounds_roundTrip; intros _; destruct (typeIs type "integer"); reflexivity.
Qed.

Lemma convertArray_chain (convertType : converter) property currentPath
    schemaName isInline d r d' :
  convertArray convertType property currentPath schemaName isInline d = Some (r, d') ->
  exists itemsExpr,
    convertType (items property) currentPath schemaName isInline d =
      Some (itemsExpr, d') /\
    r = str (("z.array(" ++ tpl itemsExpr ++ ")") ++
             optCall ".min(" (minItems property) ++
             optCall ".max(" (maxItems property)).
Proof.
  unfold convertArray. intros H. apply bind_some in H as (i & d1 & Hi & H).
  unfold ret in H. injection H as <- <-. exists i. split; [exact Hi|].
  f_equal. unfold optCall.
  destruct (minItems property), (maxItems property);
    repeat first [rewrite append_assoc | rewrite append_nil_r | progress cbn [append]];
    reflexivity.
Qed.

Lemma arrayBase_token itemsExpr tok :
  In tok [".min("; ".max("] ->
  includes itemsExpr tok = false ->
  includes ("z.array(" ++ itemsExpr ++ ")") tok = false.
Proof.
  intros [<-|[<-|[]]] H; peel; rewrite includes_split by reflexivity;
    rewrite H; reflexivity.
Qed.

(** C7, as the code has it.  On a node that is no reference and no
    composition: a string node without literals carries [.min(n)] for its
    [minLength], [.max(n)] for its [maxLength] and [.regex(/p/)] for a
    pattern that is not empty; a number or integer node carries [.min(n)]
    and [.max(n)] for [minimum] and [maximum]; an array node carries them
    for [minItems] and [maxItems]; the bound [n] is any number, an integer
    or not, as a template literal prints it.  When the constraint is absent
    (for the pattern: absent or empty) the head of its call does not occur
    in the expression, except where the text of the pattern, or the
    expression of the items, brings it in. *)
Theorem C7_constraints_round_trip
    schemas node currentPath schemaName isInline d :
  plainNode node ->
  (typeIs (type node) "string" = true -> enum node = None ->
   exists out,
     convertType schemas (Some node) currentPath schemaName isInline d =
       Some (str out, d) /\
     roundTrips out ".min(" (minLength node) (patternTexts node) /\
     roundTrips out ".max(" (maxLength node) (patternTexts node) /\
     patternRoundTrips out (pattern node)) /\
  (typeIs (type node) "number" || typeIs (type node) "integer" = true ->
   exists out,
     convertType schemas (Some node) currentPath schemaName isInline d =
       Some (str out, d) /\
     roundTrips out ".min(" (minimum node) [] /\
     roundTrips out ".max(" (maximum node) []) /\
  (typeIs (type node) "array" = true ->
   exists itemsExpr d' out,
     convertType schemas (items node) currentPath schemaName isInline d =
       Some (itemsExpr, d') /\
     convertType schemas (Some node) currentPath schemaName isInline d =
       Some (str out, d') /\
     roundTrips out ".min(" (minItems node) [tpl itemsExpr] /\
     roundTrips out ".max(" (maxItems node) [tpl itemsExpr]).
Proof.
  intros Hplain. split; [|split].
  - intros Htype He. exists (convertString node). split.
    + unfold convertType. apply convertNode_string; assumption.
    + apply convertString_roundTrips, He.
  - intros Htype. exists (convertNumber node (type node)). split.
    + unfold convertType. apply convertNode_number; assumption.
    + apply convertNumber_roundTrips.
  - intros Htype.
    destruct (convertType_returns schemas (Some node) currentPath schemaName
                isInline d) as (r & d' & Hr).
    pose proof Hr as Hr'. unfold convertType in Hr'.
    rewrite convertNode_array in Hr' by assumption.
    apply convertArray_chain in Hr' as (itemsExpr & Hitems & ->).
    exists itemsExpr, d'. eexists. split; [|split; [exact Hr|]].
    + unfold convertType. exact Hitems.
    + apply bounds_roundTrip; intros Hin; apply arrayBase_token;
        simpl; auto; apply Hin; left; reflexivity.
Qed.

Lemma C7_constraints_round_trip_witness :
  (exists out,
     convertType [] (Some (stringNode None (Some "uuid") (Some "^a")
                             (Some (mkNumber "3" eq_refl)) None))
                 [] "" false [] = Some (str out, []) /\
     includes out ".min(3)" = true /\
     includes out ".max(" = false /\
     includes out ".regex(/^a/)" = true) /\
  (let node :=
     mkSchema (Some "number") None None None None None None None None None
              None None None (Some (mkNumber "0.5" eq_refl)) None None None
              None None in
   exists out,
     convertType [] (Some node) [] "" false [] = Some (str out, []) /\
     includes out ".min(0.5)" = true /\
     includes out ".max(" = false).
Proof.
  split.
  - destruct (proj1 (C7_constraints_round_trip []
                       (stringNode None (Some "uuid") (Some "^a")
                          (Some (mkNumber "3" eq_refl)) None)
                       [] "" false []
                       (conj eq_refl (conj eq_refl (conj eq_refl eq_refl))))
                    eq_refl eq_refl) as (out & Hout & Hmin & Hmax & Hpat).
    exists out. split; [exact Hout|]. split; [exact Hmin|]. split; [|exact Hpat].
    apply Hmax. intros t [<-|[]]. reflexivity.
  - intros node.
    destruct (proj1 (proj2 (C7_constraints_round_trip [] node [] "" false []
                              (conj eq_refl (conj eq_refl (conj eq_refl eq_refl)))))
                    eq_refl) as (out & Hout & Hmin & Hmax).
    exists out. split; [exact Hout|]. split; [exact Hmin|].
    apply Hmax. intros t [].
Defined.

(** C7 as stated fails in both directions: an empty pattern is present in
    the input and leaves no [.regex(] in the expression; an array without
    [minItems] carries the [.min(] of its items; a string without
    [maxLength] carries the [.max(] written in its pattern. *)
Lemma C7_round_trip_fails :
  (let node := stringNode None None (Some "") None None in
   pattern node = Some "" /\ enum node = None /\
   convertType [] (Some node) [] "" false [] = Some (str "z.string()", []) /\
   includes "z.string()" ".regex(" = false) /\
  (let node := arrayNode (stringNode None None None (Some (mkNumber "1" eq_refl)) None) in
   minItems node = None /\
   convertType [] (Some node) [] "" false [] =
     Some (str "z.array(z.string().min(1))", []) /\
   includes "z.array(z.string().min(1))" ".min(" = true) /\
  (let node := stringNode None None (Some "x/).max(1).regex(/y") None None in
   maxLength node = None /\ enum node = None /\
   convertType [] (Some node) [] "" false [] =
     Some (str "z.string().regex(/x/).max(1).regex(/y/)", []) /\
   includes "z.string().regex(/x/).max(1).regex(/y/)" ".max(" = true).
Proof. vm_compute. repeat split. Qed.

(** ** The dependency map *)

Lemma get_mapSet_same {V : Type} (m : list (string * V)) k v :
  get (mapSet m k v) k = Some v.
Proof.
  induction m as [|[k' v'] m IH]; simpl.
  - rewrite String.eqb_refl. reflexivity.
  - destruct (k =? k') eqn:E; simpl.
    + rewrite String.eqb_refl. reflexivity.
    + rewrite E. exact IH.
Qed.

Lemma get_mapSet_other {V : Type} (m : list (string * V)) k v k' :
  k' <> k -> get (mapSet m k v) k' = get m k'.
Proof.
  intros Hne. induction m as [|[k0 v0] m IH]; simpl.
  - destruct (k' =? k) eqn:E; [apply String.eqb_eq in E; contradiction|reflexivity].
  - destruct (k =? k0) eqn:E; simpl.
    + apply String.eqb_eq in E. subst k0.
      destruct (k' =? k) eqn:E'; [apply String.eqb_eq in E'; contradiction|].
      reflexivity.
    + destruct (k' =? k0); [reflexivity|exact IH].
Qed.

Lemma setAdd_In s x : In x (setAdd s x).
Proof.
  unfold setAdd. destruct (arrIncludes s x) eqn:E.
  - unfold arrIncludes in E. apply existsb_exists in E as (y & Hy & Heq).
    apply String.eqb_eq in Heq. now subst.
  - apply in_or_app. right. left. reflexivity.
Qed.

Lemma setAdd_keeps s x y : In y s -> In y (setAdd s x).
Proof.
  unfold setAdd. destruct (arrIncludes s x); [auto|].
  intros H. apply in_or_app. left. exact H.
Qed.

Lemma depsLe_refl d : depsLe d d.
Proof. intros key x H. exact H. Qed.

Lemma depsLe_trans d1 d2 d3 : depsLe d1 d2 -> depsLe d2 d3 -> depsLe d1 d3.
Proof. intros H12 H23 key x H. apply H23, H12, H. Qed.

(** What lines 23-26 leave in the map. *)
Lemma trackDependency_spec schemaName refName d :
  exists d',
    trackDependency schemaName refName d = Some (tt, d') /\
    getDependencies d' schemaName =
      setAdd (getDependencies d schemaName) refName /\
    (forall key, key <> schemaName ->
                 getDependencies d' key = getDependencies d key).
Proof.
  unfold trackDependency, has, getDependencies.
  destruct (get d schemaName) as [s|] eqn:E.
  - rewrite E. eexists. split; [reflexivity|]. split.
    + rewrite get_mapSet_same. reflexivity.
    + intros key Hne. rewrite get_mapSet_other by exact Hne. reflexivity.
  - rewrite get_mapSet_same. eexists. split; [reflexivity|]. split.
    + rewrite get_mapSet_same. reflexivity.
    + intros key Hne. rewrite !get_mapSet_other by exact Hne. reflexivity.
Qed.

Lemma trackDependency_grows schemaName refName d u d' :
  trackDependency schemaName refName d = Some (u, d') ->
  depsLe d d' /\ In refName (getDependencies d' schemaName).
Proof.
  destruct (trackDependency_spec schemaName refName d) as (d0 & E & Hsame & Hother).
  rewrite E. intros [= _ <-]. split.
  - intros key x Hx. destruct (String.eqb_spec key schemaName) as [->|Hne].
    + rewrite Hsame. apply setAdd_keeps, Hx.
    + rewrite (Hother key Hne). exact Hx.
  - rewrite Hsame. apply setAdd_In.
Qed.

Lemma mapM_grows {A B : Type} (f : A -> Conv B) (l : list A) :
  Forall (fun a => forall d b d', f a d = Some (b, d') -> depsLe d d') l ->
  forall d bs d', mapM f l d = Some (bs, d') -> depsLe d d'.
Proof.
  induction 1 as [|a l Ha _ IH]; simpl; intros d bs d' H.
  - injection H as _ <-. apply depsLe_refl.
  - apply bind_some in H as (b & d1 & Hb & H).
    apply bind_some in H as (bs' & d2 & Hbs & H).
    injection H as _ <-.
    eapply depsLe_trans; [eapply Ha, Hb|eapply IH, Hbs].
Qed.

(** The element [a] of [l] is processed between two maps of the run of
    [mapM f l]. *)
Lemma mapM_element {A B : Type} (f : A -> Conv B) (l : list A) a :
  Forall (fun a => forall d b d', f a d = Some (b, d') -> depsLe d d') l ->
  In a l ->
  forall d bs d', mapM f l d = Some (bs, d') ->
  exists d1 b d2, f a d1 = Some (b, d2) /\ depsLe d2 d'.
Proof.
  induction 1 as [|a0 l Ha Hl IH]; simpl; [intros []|].
  intros Hin d bs d' H.
  apply bind_some in H as (b & d1 & Hb & H).
  apply bind_some in H as (bs' & d2 & Hbs & H).
  injection H as _ <-.
  destruct Hin as [->|Hin].
  - exists d, b, d1. split; [exact Hb|]. eapply mapM_grows; eassumption.
  - eapply IH; eassumption.
Qed.

Section DependencyTracking.

Variable schemas : list (string * Schema).

(** [convertType] only adds to the dependency map. *)
Lemma convertNode_grows budget :
  forall property currentPath schemaName isInline d r d',
    convertNode schemas budget property currentPath schemaName isInline d =
      Some (r, d') ->
    depsLe d d'.
Proof.
  induction budget as [budget IHbudget] using lt_wf_ind.
  induction property as [property IHprops IHitems IHallOf IHoneOf IHanyOf IHadd]
    using Schema_induction.
  intros currentPath schemaName isInline d r d'.
  rewrite convertNode_unfold. unfold convertTypeBody.
  destruct (truthyStr (ref property)) as [rf|].
  { intros H. apply bind_some in H as ([] & d1 & Htrack & H).
    assert (Hd1 : depsLe d d1).
    { destruct (truthy schemaName && truthy (pop (split rf "/")) && negb isInline).
      - eapply trackDependency_grows, Htrack.
      - injection Htrack as <-. apply depsLe_refl. }
    apply (depsLe_trans _ _ _ Hd1).
    destruct (arrIncludes currentPath (pop (split rf "/")));
      [injection H as _ <-; apply depsLe_refl|].
    destruct isInline; [|injection H as _ <-; apply depsLe_refl].
    destruct (lookup schemas (pop (split rf "/"))) as [target| |];
      [|injection H as _ <-; apply depsLe_refl
       |injection H as _ <-; apply depsLe_refl].
    destruct budget as [|budget']; [discriminate|].
    eapply (IHbudget budget'); [lia|exact H]. }
  destruct (allOf property) as [l|] eqn:EallOf.
  { intros H. apply bind_some in H as (ss & d1 & Hss & H). injection H as _ <-.
    eapply mapM_grows; [|exact Hss]. specialize (IHallOf l eq_refl).
    eapply Forall_impl; [|exact IHallOf]. intros s Hs ? ? ?. apply Hs. }
  destruct (oneOf property) as [l|] eqn:EoneOf.
  { intros H. apply bind_some in H as (ss & d1 & Hss & H). injection H as _ <-.
    eapply mapM_grows; [|exact Hss]. specialize (IHoneOf l eq_refl).
    eapply Forall_impl; [|exact IHoneOf]. intros s Hs ? ? ?. apply Hs. }
  destruct (anyOf property) as [l|] eqn:EanyOf.
  { intros H. apply bind_some in H as (ss & d1 & Hss & H). injection H as _ <-.
    eapply mapM_grows; [|exact Hss]. specialize (IHanyOf l eq_refl).
    eapply Forall_impl; [|exact IHanyOf]. intros s Hs ? ? ?. apply Hs. }
  cbv zeta.
  destruct (typeIs (type property) "string");
    [intros [= _ <-]; apply depsLe_refl|].
  destruct (typeIs (type property) "number" || typeIs (type property) "integer");
    [intros [= _ <-]; apply depsLe_refl|].
  destruct (typeIs (type property) "boolean");
    [intros [= _ <-]; apply depsLe_refl|].
  destruct (typeIs (type property) "array").
  { intros H. apply convertArray_chain in H as (i & Hi & _).
    destruct (items property) as [it|] eqn:Eitems.
    - eapply (IHitems it eq_refl), Hi.
    - injection Hi as _ <-. apply depsLe_refl. }
  destruct (typeIs (type property) "object").
  { unfold convertObject.
    destruct (properties property) as [ps|] eqn:Eprops;
      [|intros [= _ <-]; apply depsLe_refl].
    intros H. apply bind_some in H as (props & d1 & Hprops & H).
    assert (Hd1 : depsLe d d1).
    { eapply mapM_grows; [|exact Hprops]. specialize (IHprops ps eq_refl).
      eapply Forall_impl; [|exact IHprops]. intros [k v] Hv d0 b d0' Hb.
      apply bind_some in Hb as (z & d2 & Hz & Hb). injection Hb as _ <-.
      eapply Hv, Hz. }
    apply (depsLe_trans _ _ _ Hd1).
    destruct (additionalProperties property) as [[[|]|a]|] eqn:Eadd;
      try (injection H as _ <-; apply depsLe_refl).
    apply bind_some in H as (z & d2 & Hz & H). injection H as _ <-.
    eapply (IHadd a eq_refl), Hz. }
  destruct (typeIs (type property) "null"); intros [= _ <-]; apply depsLe_refl.
Qed.

End DependencyTracking.

(** ** References met by the conversion of a component *)

Section Recording.

Variable schemas : list (string * Schema).

Lemma grows_all budget currentPath schemaName isInline (l : list Schema) :
  Forall (fun a => forall d b d',
            convertNode schemas budget a currentPath schemaName isInline d =
              Some (b, d') -> depsLe d d') l.
Proof.
  apply Forall_forall. intros a _ d b d'. apply convertNode_grows.
Qed.

(** Outside inline mode, every reference met is recorded under the owner. *)
Lemma convertNode_records target schemaName s :
  Visits target s ->
  truthy schemaName = true -> truthy target = true ->
  forall budget currentPath d r d',
    convertNode schemas budget s currentPath schemaName false d = Some (r, d') ->
    In target (getDependencies d' schemaName).
Proof.
  intros HV Hname Htarget.
  induction HV as
    [s rf Href Hpop
    |s l c Href Hall Hin HV IH
    |s l c Href Hall Hone Hin HV IH
    |s l c Href Hall Hone Hany Hin HV IH
    |s i (Href & Hall & Hone & Hany) Htype Hitems HV IH
    |s ps k v (Href & Hall & Hone & Hany) Htype Hprops Hin HV IH
    |s ps a (Href & Hall & Hone & Hany) Htype Hprops Hadd HV IH];
    intros budget currentPath d r d';
    rewrite convertNode_unfold; unfold convertTypeBody; rewrite Href.
  - rewrite Hpop, Hname, Htarget. cbn [andb negb].
    intros H. apply bind_some in H as ([] & d1 & Htrack & H).
    apply trackDependency_grows in Htrack as [_ Hrec].
    destruct (arrIncludes currentPath target); injection H as _ <-; exact Hrec.
  - rewrite Hall. intros H.
    apply bind_some in H as (ss & d1 & Hss & H). injection H as _ <-.
    eapply mapM_element in Hss as (d0 & b & d2 & Hc & Hle);
      [|apply grows_all|exact Hin].
    apply Hle. eapply IH, Hc.
  - rewrite Hall, Hone. intros H.
    apply bind_some in H as (ss & d1 & Hss & H). injection H as _ <-.
    eapply mapM_element in Hss as (d0 & b & d2 & Hc & Hle);
      [|apply grows_all|exact Hin].
    apply Hle. eapply IH, Hc.
  - rewrite Hall, Hone, Hany. intros H.
    apply bind_some in H as (ss & d1 & Hss & H). injection H as _ <-.
    eapply mapM_element in Hss as (d0 & b & d2 & Hc & Hle);
      [|apply grows_all|exact Hin].
    apply Hle. eapply IH, Hc.
  - rewrite Hall, Hone, Hany, Htype. cbn -[convertArray].
    intros H. apply convertArray_chain in H as (ie & Hi & _).
    rewrite Hitems in Hi. eapply IH, Hi.
  - rewrite Hall, Hone, Hany, Htype. cbn -[convertObject].
    unfold convertObject. rewrite Hprops. intros H.
    apply bind_some in H as (props & d1 & Hprops' & H).
    assert (Hle : depsLe d1 d').
    { destruct (additionalProperties s) as [[[|]|a]|];
        try (injection H as _ <-; apply depsLe_refl).
      apply bind_some in H as (z & d2 & Hz & H). injection H as _ <-.
      eapply convertNode_grows, Hz. }
    apply Hle.
    eapply mapM_element in Hprops' as (d0 & b & d2 & Hc & Hle2);
      [| |exact Hin].
    + apply Hle2. cbn [fst snd] in Hc.
      apply bind_some in Hc as (z & d3 & Hz & Hc). injection Hc as _ <-.
      eapply IH, Hz.
    + apply Forall_forall. intros [k0 v0] _ d0 b d2 Hb. cbn [fst snd] in Hb.
      apply bind_some in Hb as (z & d3 & Hz & Hb). injection Hb as _ <-.
      eapply convertNode_grows, Hz.
  - rewrite Hall, Hone, Hany, Htype. cbn -[convertObject].
    unfold convertObject. rewrite Hprops, Hadd. intros H.
    apply bind_some in H as (props & d1 & Hprops' & H).
    apply bind_some in H as (z & d2 & Hz & H). injection H as _ <-.
    eapply IH, Hz.
Qed.

End Recording.

(** ** The component emitter *)

Lemma setDelete_setAdd s x :
  arrIncludes s x = false -> setDelete (setAdd s x) x = s.
Proof.
  intros H. unfold setAdd. rewrite H. unfold setDelete.
  rewrite filter_app. simpl. rewrite String.eqb_refl. simpl.
  rewrite app_nil_r. unfold arrIncludes in H.
  induction s as [|y s IH]; simpl in *; [reflexivity|].
  apply orb_false_iff in H as [Hy Hs].
  rewrite String.eqb_sym, Hy. simpl. rewrite (IH Hs). reflexivity.
Qed.

Section Emitter.

Variable schemas : list (string * Schema).

(** The three ways [generateSchemaFile] ends on a name of the table. *)
Lemma generateSchemaFile_cached name g f :
  get (generatedSchemas g) name = Some f ->
  generateSchemaFile schemas name g = Some (Some f, g).
Proof. intros H. unfold generateSchemaFile. rewrite H. reflexivity. Qed.

Lemma generateSchemaFile_midGeneration name g :
  midGeneration g name = true ->
  generateSchemaFile schemas name g = Some (None, consoleLog g (diagnostic name)).
Proof.
  unfold midGeneration, has, generateSchemaFile. intros H.
  apply andb_true_iff in H as [Hstack Hcache].
  destruct (get (generatedSchemas g) name); [discriminate|].
  rewrite Hstack. reflexivity.
Qed.

Lemma generateSchemaFile_member name g schema :
  get (generatedSchemas g) name = None ->
  arrIncludes (processingStack g) name = false ->
  memberSchema (lookup schemas name) = Some schema ->
  exists zodSchema deps,
    convertType schemas (Some schema) [name] name false (dependencies g) =
      Some (zodSchema, deps) /\
    let result :=
      mkFile None (name ++ ".ts") (componentContent schemas name schema zodSchema deps) in
    generateSchemaFile schemas name g =
      Some (Some result,
            mkComponentGenerator deps (mapSet (generatedSchemas g) name result)
                                 (processingStack g) (console g)).
Proof.
  intros Hcache Hstack Hschema.
  destruct (convertType_returns schemas (Some schema) [name] name false
              (dependencies g)) as (zodSchema & deps & Hconv).
  exists zodSchema, deps. split; [exact Hconv|].
  unfold generateSchemaFile.
  rewrite Hcache, Hstack, Hschema, Hconv, (setDelete_setAdd _ _ Hstack).
  reflexivity.
Qed.

Lemma generateSchemaFile_fresh name g schema :
  get (generatedSchemas g) name = None ->
  arrIncludes (processingStack g) name = false ->
  get schemas name = Some schema ->
  exists zodSchema deps,
    convertType schemas (Some schema) [name] name false (dependencies g) =
      Some (zodSchema, deps) /\
    let result :=
      mkFile None (name ++ ".ts") (componentContent schemas name schema zodSchema deps) in
    generateSchemaFile schemas name g =
      Some (Some result,
            mkComponentGenerator deps (mapSet (generatedSchemas g) name result)
                                 (processingStack g) (console g)).
Proof.
  intros Hcache Hstack Hschema. apply generateSchemaFile_member; try assumption.
  rewrite (lookup_get _ _ _ Hschema). reflexivity.
Qed.

(** A name that the table does not have, own or inherited, gets no file. *)
Lemma generateSchemaFile_absent name g :
  get (generatedSchemas g) name = None ->
  arrIncludes (processingStack g) name = false ->
  present schemas name = false ->
  generateSchemaFile schemas name g = Some (None, g).
Proof.
  intros Hcache Hstack Habs. unfold generateSchemaFile.
  rewrite Hcache, Hstack. unfold present in Habs.
  destruct (lookup schemas name); try discriminate. reflexivity.
Qed.

Lemma memberSchema_present name :
  memberSchema (lookup schemas name) = None -> present schemas name = false.
Proof. unfold present. destruct (lookup schemas name); try discriminate; reflexivity. Qed.

(** A property [Q name file] that holds of every file generated afresh holds
    of every file of a run that starts from a cache where it holds. *)
Section Run.

Variable Q : string -> GeneratedFile -> Prop.

Hypothesis fresh_ok : forall name g f g',
  get (generatedSchemas g) name = None ->
  generateSchemaFile schemas name g = Some (Some f, g') ->
  Q name f.

Lemma generateEach_run names :
  forall files g,
    cacheOk Q g ->
    (forall name, In name names -> has schemas name = true) ->
    exists files' g',
      generateEach schemas names files g = Some ((files ++ files')%list, g') /\
      Forall2 (fun name f => exists f0, Q name f0 /\ f = asComponent f0)
              (filter (fun name => negb (midGeneration g name)) names) files' /\
      cacheOk Q g' /\
      processingStack g' = processingStack g /\
      (forall name, midGeneration g' name = midGeneration g name) /\
      console g' =
        (console g ++ map diagnostic (filter (midGeneration g) names))%list.
Proof.
  induction names as [|name names IH]; intros files g Hcache Hnames.
  - exists [], g. simpl. rewrite !app_nil_r. repeat split; auto.
  - assert (Hrest : forall n, In n names -> has schemas n = true)
      by (intros n Hn; apply Hnames; right; exact Hn).
    cbn [generateEach filter].
    destruct (midGeneration g name) eqn:Hmid.
    + (* skipped with a diagnostic *)
      rewrite (generateSchemaFile_midGeneration _ _ Hmid).
      destruct (IH files (consoleLog g (diagnostic name)) Hcache Hrest)
        as (files' & g' & Hrun & Hall & Hcache' & Hstack & Hmid' & Hlog).
      exists files', g'. cbn [negb]. split; [exact Hrun|].
      split; [exact Hall|]. split; [exact Hcache'|]. split; [exact Hstack|].
      split; [exact Hmid'|]. rewrite Hlog. cbn [map consoleLog console].
      rewrite <- app_assoc. reflexivity.
    + destruct (get (generatedSchemas g) name) as [f|] eqn:Hget.
      * (* served from the cache *)
        rewrite (generateSchemaFile_cached _ _ _ Hget).
        change (mkFile (Some "_components") (fileName f) (content f))
          with (asComponent f).
        destruct (IH (files ++ [asComponent f])%list g Hcache Hrest)
          as (files' & g' & Hrun & Hall & Hcache' & Hstack & Hmid' & Hlog).
        exists (asComponent f :: files'), g'. cbn [negb].
        split; [rewrite Hrun, <- app_assoc; reflexivity|].
        split; [constructor; [exists f; split; [apply Hcache, Hget|reflexivity]
                             |exact Hall]|].
        auto.
      * (* generated afresh *)
        assert (Hstack0 : arrIncludes (processingStack g) name = false).
        { unfold midGeneration, has in Hmid. rewrite Hget in Hmid.
          rewrite andb_true_r in Hmid. exact Hmid. }
        specialize (Hnames name (or_introl eq_refl)). unfold has in Hnames.
        destruct (get schemas name) as [schema|] eqn:Hschema; [|discriminate].
        destruct (generateSchemaFile_fresh name g schema Hget Hstack0 Hschema)
          as (zod & deps & _ & Hgen).
        cbv zeta in Hgen. rewrite Hgen.
        set (result := mkFile None (name ++ ".ts") _) in *.
        set (g1 := mkComponentGenerator deps _ _ _) in *.
        change (mkFile (Some "_components") (fileName result) (content result))
          with (asComponent result).
        assert (Hq : Q name result) by (eapply fresh_ok; eassumption).
        assert (Hcache1 : cacheOk Q g1).
        { intros n f Hn. unfold g1 in Hn. cbn [generatedSchemas] in Hn.
          destruct (String.eqb_spec n name) as [->|Hne].
          - rewrite get_mapSet_same in Hn. injection Hn as <-. exact Hq.
          - rewrite get_mapSet_other in Hn by exact Hne. apply Hcache, Hn. }
        assert (Hmid1 : forall n, In n names \/ True ->
                  midGeneration g1 n = midGeneration g n).
        { intros n _. unfold midGeneration, has, g1.
          cbn [processingStack generatedSchemas].
          destruct (String.eqb_spec n name) as [->|Hne].
          - rewrite get_mapSet_same, Hget, Hstack0. reflexivity.
          - rewrite get_mapSet_other by exact Hne. reflexivity. }
        destruct (IH (files ++ [asComponent result])%list g1 Hcache1 Hrest)
          as (files' & g' & Hrun & Hall & Hcache' & Hstack & Hmid' & Hlog).
        exists (asComponent result :: files'), g'. cbn [negb].
        split; [rewrite Hrun, <- app_assoc; reflexivity|].
        split.
        { constructor; [exists result; split; [exact Hq|reflexivity]|].
          erewrite filter_ext; [exact Hall|].
          intros n. cbv beta. rewrite Hmid1 by auto. reflexivity. }
        split; [exact Hcache'|]. split; [exact Hstack|].
        split; [intros n; rewrite Hmid', Hmid1 by auto; reflexivity|].
        rewrite Hlog. unfold g1 at 1. cbn [console]. f_equal. f_equal.
        apply filter_ext. intros n. apply Hmid1. auto.
Qed.

End Run.

End Emitter.

(** ** Files of a run of the component emitter *)

Lemma length_append (a b : string) :
  String.length (a ++ b) = (String.length a + String.length b)%nat.
Proof. induction a as [|x a IH]; simpl; [reflexivity|]. now rewrite IH. Qed.

Lemma append_inj_l (a b c : string) : a ++ c = b ++ c -> a = b.
Proof.
  revert b. induction a as [|x a IH]; intros [|y b]; simpl; intros H.
  - reflexivity.
  - exfalso. apply (f_equal String.length) in H. simpl in H.
    rewrite length_append in H. lia.
  - exfalso. apply (f_equal String.length) in H. simpl in H.
    rewrite length_append in H. lia.
  - injection H as -> H. f_equal. apply IH, H.
Qed.

Lemma Forall2_In_l {A B : Type} (R : A -> B -> Prop) l l' a :
  Forall2 R l l' -> In a l -> exists b, In b l' /\ R a b.
Proof.
  induction 1 as [|x y l l' Hxy _ IH]; [intros []|].
  intros [->|Hin].
  - exists y. split; [left; reflexivity|exact Hxy].
  - destruct (IH Hin) as (b & Hb & HR). exists b. split; [right; exact Hb|exact HR].
Qed.

Lemma Forall2_In_r {A B : Type} (R : A -> B -> Prop) l l' b :
  Forall2 R l l' -> In b l' -> exists a, In a l /\ R a b.
Proof.
  induction 1 as [|x y l l' Hxy _ IH]; [intros []|].
  intros [->|Hin].
  - exists x. split; [left; reflexivity|exact Hxy].
  - destruct (IH Hin) as (a & Ha & HR). exists a. split; [right; exact Ha|exact HR].
Qed.

Lemma artifactsOf_names (Q : string -> GeneratedFile -> Prop) names files name :
  (forall n f, Q n f -> fileName f = n ++ ".ts") ->
  Forall2 (fun n f => exists f0, Q n f0 /\ f = asComponent f0) names files ->
  artifactsOf name files = length (filter (fun n => n =? name) names).
Proof.
  intros HQ. unfold artifactsOf.
  induction 1 as [|n f names files (f0 & Hq & ->) _ IH]; [reflexivity|].
  cbn [filter asComponent fileName]. rewrite (HQ _ _ Hq).
  destruct (String.eqb_spec n name) as [->|Hne].
  - rewrite String.eqb_refl. simpl. rewrite IH. reflexivity.
  - destruct (String.eqb_spec (n ++ ".ts") (name ++ ".ts")) as [E|_];
      [apply append_inj_l in E; contradiction|exact IH].
Qed.

Lemma count_NoDup (names : list string) name :
  NoDup names -> In name names ->
  length (filter (fun n => n =? name) names) = 1%nat.
Proof.
  induction 1 as [|n names Hn _ IH]; [intros []|].
  intros Hin. cbn [filter]. destruct (String.eqb_spec n name) as [->|Hne].
  - simpl. f_equal. clear IH Hin.
    induction names as [|m names IH]; [reflexivity|]. cbn [filter].
    destruct (String.eqb_spec m name) as [->|_].
    + exfalso. apply Hn. left. reflexivity.
    + apply IH. intros H. apply Hn. right. exact H.
  - destruct Hin as [->|Hin]; [contradiction|]. apply IH, Hin.
Qed.

Lemma get_has_key {V : Type} (m : list (string * V)) k :
  In k (map fst m) -> has m k = true.
Proof.
  unfold has. induction m as [|[k' v] m IH]; simpl; [intros []|].
  destruct (String.eqb_spec k k') as [->|Hne]; [reflexivity|].
  intros [E|Hin]; [symmetry in E; contradiction|apply IH, Hin].
Qed.

Lemma get_key {V : Type} (m : list (string * V)) k v :
  get m k = Some v -> In k (map fst m).
Proof.
  intros H. apply get_In in H. apply (in_map fst) in H. exact H.
Qed.

Section EmitterFacts.

Variable schemas : list (string * Schema).

Lemma componentImports_In deps dep :
  In dep deps -> present schemas dep = true ->
  In (importOf dep) (componentImports schemas deps).
Proof.
  intros Hin Hhas. unfold componentImports. right.
  apply in_flat_map. exists dep. split; [exact Hin|].
  rewrite Hhas. left. reflexivity.
Qed.

Lemma generateSchemaFile_fileOk name g f g' :
  get (generatedSchemas g) name = None ->
  generateSchemaFile schemas name g = Some (Some f, g') ->
  fileOk schemas name f /\
  (forall schema,
     truthy name = true -> get schemas name = Some schema ->
     Visits name schema ->
     In name (getDependencies (dependencies g') name)).
Proof.
  intros Hcache Hgen.
  destruct (arrIncludes (processingStack g) name) eqn:Hstack.
  { unfold generateSchemaFile in Hgen. rewrite Hcache, Hstack in Hgen.
    discriminate. }
  destruct (memberSchema (lookup schemas name)) as [schema|] eqn:Hschema.
  2:{ unfold generateSchemaFile in Hgen.
      rewrite Hcache, Hstack, Hschema in Hgen. discriminate. }
  destruct (generateSchemaFile_member schemas name g schema Hcache Hstack Hschema)
    as (zod & deps & Hconv & Hfresh).
  cbv zeta in Hfresh. rewrite Hfresh in Hgen. injection Hgen as <- <-.
  assert (Hrec : forall schema0, truthy name = true ->
            get schemas name = Some schema0 -> Visits name schema0 ->
            In name (getDependencies deps name)).
  { intros schema0 Hname Hget HV.
    rewrite (lookup_get _ _ _ Hget) in Hschema. injection Hschema as <-.
    unfold convertType in Hconv.
    eapply convertNode_records; eassumption. }
  split; [split; [reflexivity|]|exact Hrec].
  intros schema0 Hname Hs HV. cbn [content]. unfold componentContent, joinStr.
  apply includes_concat_in. apply in_or_app. left.
  apply componentImports_In; [apply (Hrec schema0 Hname Hs HV)|].
  apply present_has. unfold has. rewrite Hs. reflexivity.
Qed.

Lemma fresh_fileOk name g f g' :
  get (generatedSchemas g) name = None ->
  generateSchemaFile schemas name g = Some (Some f, g') ->
  fileOk schemas name f.
Proof. intros H1 H2. eapply generateSchemaFile_fileOk; eassumption. Qed.

(** A run of [generateComponentSchemas] from a generator whose cached files
    are the ones it generated itself. *)
Lemma generateComponentSchemas_run g :
  cacheOk (fileOk schemas) g ->
  exists files g',
    generateComponentSchemas schemas g = Some (files, g') /\
    Forall2 (fun name f => exists f0, fileOk schemas name f0 /\ f = asComponent f0)
            (filter (fun name => negb (midGeneration g name)) (map fst schemas))
            files /\
    console g' =
      (console g ++
       map diagnostic (filter (midGeneration g) (map fst schemas)))%list.
Proof.
  intros Hcache.
  destruct (generateEach_run schemas (fileOk schemas) fresh_fileOk (map fst schemas) [] g
              Hcache (get_has_key schemas))
    as (files & g' & Hrun & Hall & _ & _ & _ & Hlog).
  exists files, g'. split; [exact Hrun|]. split; [exact Hall|exact Hlog].
Qed.

Lemma cacheOk_new out : cacheOk (fileOk schemas) (newComponentGenerator out).
Proof. intros name f H. discriminate. Qed.

End EmitterFacts.

Lemma filter_true {A : Type} (p : A -> bool) (l : list A) :
  (forall a, p a = true) -> filter p l = l.
Proof.
  intros H. induction l as [|a l IH]; simpl; [reflexivity|].
  rewrite H, IH. reflexivity.
Qed.

Lemma filter_false {A : Type} (p : A -> bool) (l : list A) :
  (forall a, p a = false) -> filter p l = [].
Proof.
  intros H. induction l as [|a l IH]; simpl; [reflexivity|].
  rewrite H, IH. reflexivity.
Qed.

Lemma filter_both {A : Type} (p q : A -> bool) (l : list A) :
  filter p (filter q l) = filter (fun a => p a && q a) l.
Proof.
  induction l as [|a l IH]; simpl; [reflexivity|].
  destruct (q a); simpl; rewrite ?andb_true_r, ?andb_false_r.
  - destruct (p a); rewrite IH; reflexivity.
  - exact IH.
Qed.

Lemma fileOk_name schemas n f : fileOk schemas n f -> fileName f = n ++ ".ts".
Proof. intros [H _]. exact H. Qed.

(** C4.  In a component table (its names distinct, as the keys of an object
    are) where the conversion of [A] reaches a reference to [B] and the
    conversion of [B] reaches a reference to [A], a run of the component
    emitter returns exactly one file named [A.ts] and exactly one named
    [B.ts]; it returns one file per component and reports no cycle. *)
Theorem C4_mutual_references_one_artifact_each schemas A B sa sb out :
  NoDup (map fst schemas) ->
  A <> B ->
  get schemas A = Some sa -> get schemas B = Some sb ->
  Visits B sa -> Visits A sb ->
  exists files g,
    generateComponentSchemas schemas (newComponentGenerator out) = Some (files, g) /\
    artifactsOf A files = 1%nat /\
    artifactsOf B files = 1%nat /\
    map fileName files = map (fun name => name ++ ".ts") (map fst schemas) /\
    console g = out.
Proof.
  intros Hnodup _ HA HB _ _.
  destruct (generateComponentSchemas_run schemas (newComponentGenerator out)
              (cacheOk_new schemas out)) as (files & g & Hrun & Hall & Hlog).
  rewrite filter_true in Hall by reflexivity.
  rewrite filter_false in Hlog by reflexivity.
  exists files, g. split; [exact Hrun|].
  pose proof (artifactsOf_names (fileOk schemas) _ _ A (fileOk_name schemas) Hall)
    as HcA.
  pose proof (artifactsOf_names (fileOk schemas) _ _ B (fileOk_name schemas) Hall)
    as HcB.
  rewrite count_NoDup in HcA by (auto; eapply get_key; eassumption).
  rewrite count_NoDup in HcB by (auto; eapply get_key; eassumption).
  split; [exact HcA|]. split; [exact HcB|]. split.
  - clear -Hall. induction Hall as [|n f names files (f0 & [Hn _] & ->) _ IH];
      [reflexivity|].
    cbn [map asComponent fileName]. rewrite Hn, IH. reflexivity.
  - rewrite Hlog. cbn. apply app_nil_r.
Qed.

Lemma C4_mutual_references_one_artifact_each_witness :
  let table :=
    [("A", objectNode [("b", refNode "#/components/schemas/B")] ["b"]);
     ("B", objectNode [("a", refNode "#/components/schemas/A")] [])] in
  exists files g,
    generateComponentSchemas table (newComponentGenerator []) = Some (files, g) /\
    artifactsOf "A" files = 1%nat /\
    artifactsOf "B" files = 1%nat /\
    map fileName files = ["A.ts"; "B.ts"] /\
    console g = [].
Proof.
  intros table.
  refine (C4_mutual_references_one_artifact_each table "A" "B" _ _ []
            _ _ eq_refl eq_refl _ _).
  - repeat constructor; simpl; intuition discriminate.
  - discriminate.
  - eapply VisitsProperty;
      [repeat split|reflexivity|reflexivity|left; reflexivity|].
    eapply VisitsRef; reflexivity.
  - eapply VisitsProperty;
      [repeat split|reflexivity|reflexivity|left; reflexivity|].
    eapply VisitsRef; reflexivity.
Defined.

Lemma count_present (names : list string) name :
  In name names -> (1 <= length (filter (fun n => String.eqb n name) names))%nat.
Proof.
  induction names as [|n names IH]; [intros []|].
  intros [->|Hin]; cbn [filter].
  - rewrite String.eqb_refl. simpl. lia.
  - specialize (IH Hin). destruct (n =? name); simpl; lia.
Qed.

(** C9.  From any state of the emitter whose cache holds files it
    generated: a request for a name that is mid-generation (in the
    processing set and not yet in the cache) writes the diagnostic to the
    console, returns no file and changes nothing else; and the run over the
    whole table goes on: it returns no file for that name, a file for every
    component that is not mid-generation, and its console holds the
    diagnostic. *)
Theorem C9_midGeneration_request_skipped schemas g name :
  cacheOk (fileOk schemas) g ->
  In name (processingStack g) ->
  get (generatedSchemas g) name = None ->
  generateSchemaFile schemas name g = Some (None, consoleLog g (diagnostic name)) /\
  exists files g',
    generateComponentSchemas schemas g = Some (files, g') /\
    artifactsOf name files = 0%nat /\
    (forall other,
       In other (map fst schemas) -> midGeneration g other = false ->
       (1 <= artifactsOf other files)%nat) /\
    (In name (map fst schemas) -> In (diagnostic name) (console g')).
Proof.
  intros Hcache Hstack Hnone.
  assert (Hmid : midGeneration g name = true).
  { unfold midGeneration, has. rewrite Hnone, andb_true_r.
    unfold arrIncludes. apply existsb_exists. exists name.
    split; [exact Hstack|apply String.eqb_refl]. }
  split; [apply generateSchemaFile_midGeneration, Hmid|].
  destruct (generateComponentSchemas_run schemas g Hcache)
    as (files & g' & Hrun & Hall & Hlog).
  exists files, g'. split; [exact Hrun|].
  pose proof (fun n => artifactsOf_names (fileOk schemas) _ _ n
                         (fileOk_name schemas) Hall) as Hcount.
  split; [|split].
  - rewrite Hcount, filter_both, filter_false; [reflexivity|].
    intros n. destruct (String.eqb_spec n name) as [->|_]; [|reflexivity].
    rewrite Hmid. reflexivity.
  - intros other Hin Hother. rewrite Hcount. apply count_present.
    apply filter_In. split; [exact Hin|]. rewrite Hother. reflexivity.
  - intros Hin. rewrite Hlog. apply in_or_app. right.
    apply in_map, filter_In. split; [exact Hin|exact Hmid].
Qed.

Lemma C9_midGeneration_request_skipped_witness :
  let table := [("A", typeNode "string"); ("B", typeNode "number")] in
  let g := mkComponentGenerator [] [] ["B"] [] in
  generateSchemaFile table "B" g =
    Some (None, consoleLog g "Detected circular reference for schema: B") /\
  exists files g',
    generateComponentSchemas table g = Some (files, g') /\
    artifactsOf "B" files = 0%nat /\
    (forall other,
       In other (map fst table) -> midGeneration g other = false ->
       (1 <= artifactsOf other files)%nat) /\
    (In "B" (map fst table) -> In (diagnostic "B") (console g')).
Proof.
  intros table g.
  apply (C9_midGeneration_request_skipped table g "B").
  - intros name f H. discriminate.
  - left. reflexivity.
  - reflexivity.
Defined.

(** The run of the example above: the file of [A] alone, and the
    diagnostic. *)
Example midGeneration_run :
  option_map (fun r => (map fileName (fst r), console (snd r)))
    (generateComponentSchemas
       [("A", typeNode "string"); ("B", typeNode "number")]
       (mkComponentGenerator [] [] ["B"] [])) =
  Some (["A.ts"], ["Detected circular reference for schema: B"]).
Proof. vm_compute. reflexivity. Qed.

(** C10, as the code has it.  For a component with a name (not the empty
    one) whose conversion reaches a reference to that same name, that is, a
    reference that no [$ref], composition list or type of an enclosing node
    hides: such a reference node
    is converted, under the path [[name]] and outside inline mode, to the
    lazy token, and the map it leaves records the name as a dependency of
    itself; the file generated for the component on a fresh request
    therefore holds the line [import { name } from './name.js';], and so does
    the file of the component in a run of the emitter on the table. *)
Theorem C10_self_reference_imports_itself schemas name schema :
  truthy name = true ->
  get schemas name = Some schema ->
  Visits name schema ->
  (forall node r d,
     truthyStr (ref node) = Some r -> pop (split r "/") = name ->
     exists d',
       convertType schemas (Some node) [name] name false d =
         Some (str ("z.lazy(() => " ++ name ++ ")"), d') /\
       In name (getDependencies d' name)) /\
  (forall g,
     get (generatedSchemas g) name = None ->
     arrIncludes (processingStack g) name = false ->
     exists f g',
       generateSchemaFile schemas name g = Some (Some f, g') /\
       In name (getDependencies (dependencies g') name) /\
       includes (content f) (importOf name) = true) /\
  (forall out,
     exists files g',
       generateComponentSchemas schemas (newComponentGenerator out) =
         Some (files, g') /\
       exists f, In f files /\ fileName f = name ++ ".ts" /\
                 includes (content f) (importOf name) = true).
Proof.
  intros Hname Hschema HV. split; [|split].
  - intros node r d Href Hpop. subst name. eexists. split.
    + unfold convertType. apply convertNode_cycle; [exact Href|].
      cbn. rewrite String.eqb_refl. reflexivity.
    + unfold recordedDependency. rewrite Hname. cbn [andb negb].
      destruct (trackDependency_spec (pop (split r "/")) (pop (split r "/")) d)
        as (d' & E & Hsame & _).
      rewrite E, Hsame. apply setAdd_In.
  - intros g Hcache Hstack.
    destruct (generateSchemaFile_fresh schemas name g schema Hcache Hstack Hschema)
      as (zod & deps & _ & Hgen).
    cbv zeta in Hgen. eexists _, _. split; [exact Hgen|].
    destruct (generateSchemaFile_fileOk schemas name g _ _ Hcache Hgen)
      as [[_ Himport] Hrec].
    split; [eapply Hrec; eassumption|eapply Himport; eassumption].
  - intros out.
    destruct (generateComponentSchemas_run schemas (newComponentGenerator out)
                (cacheOk_new schemas out)) as (files & g & Hrun & Hall & _).
    rewrite filter_true in Hall by reflexivity.
    exists files, g. split; [exact Hrun|].
    destruct (Forall2_In_l _ _ _ name Hall (get_key _ _ _ Hschema))
      as (f & Hin & f0 & [Hfile Himport] & ->).
    exists (asComponent f0). split; [exact Hin|]. split; [exact Hfile|].
    cbn [asComponent content]. eapply Himport; eassumption.
Qed.

Lemma C10_self_reference_imports_itself_witness :
  let node :=
    objectNode [("value", typeNode "string");
                ("next", refNode "#/components/schemas/Shape")] ["value"] in
  exists f g',
    generateSchemaFile [("Shape", node)] "Shape" (newComponentGenerator []) =
      Some (Some f, g') /\
    In "Shape" (getDependencies (dependencies g') "Shape") /\
    includes (content f) "import { Shape } from './Shape.js';" = true.
Proof.
  intros node.
  refine (proj1 (proj2 (C10_self_reference_imports_itself
                         [("Shape", node)] "Shape" node eq_refl eq_refl _))
                (newComponentGenerator []) eq_refl eq_refl).
  eapply VisitsProperty;
    [repeat split|reflexivity|reflexivity|right; left; reflexivity|].
  eapply VisitsRef; reflexivity.
Defined.

(** The file of the example above. *)
Example self_reference_file :
  option_map (fun r => option_map content (fst r))
    (generateSchemaFile
       [("Shape", objectNode [("next", refNode "#/components/schemas/Shape")] [])]
       "Shape" (newComponentGenerator [])) =
  Some (Some
    ("import { z } from 'zod';" ++ nl ++
     "import { Shape } from './Shape.js';" ++ nl ++ nl ++
     "/**" ++ nl ++ " * Shape" ++ nl ++ " *" ++ nl ++
     " * @property {Shape} next? - next" ++ nl ++ " */" ++ nl ++
     "export const Shape = z.object({" ++ nl ++
     "  next: z.lazy(() => Shape).optional()" ++ nl ++ "});" ++ nl ++
     "export type ShapeType = z.infer<typeof Shape>;" ++ nl)).
Proof. vm_compute. reflexivity. Qed.

(** ** The operation assembler: merging by [operationId] *)








Lemma map_fst_mapSet_present {V : Type} (m : list (string * V)) k v :
  has m k = true -> map fst (mapSet m k v) = map fst m.
Proof.
  unfold has. induction m as [|[k' v'] m IH]; simpl; [discriminate|].
  destruct (String.eqb_spec k k') as [->|Hne]; [reflexivity|].
  intros H. simpl. rewrite IH by exact H. reflexivity.
Qed.




(** ** Runs of the whole generator *)

Lemma mapM_Forall2 {A B : Type} (f : A -> Conv B) (l : list A) :
  forall d bs d',
    mapM f l d = Some (bs, d') ->
    Forall2 (fun a b => exists d1 d2, f a d1 = Some (b, d2)) l bs.
Proof.
  induction l as [|a l IH]; simpl; intros d bs d' H.
  - injection H as <- _. constructor.
  - apply bind_some in H as (b & d1 & Hb & H).
    apply bind_some in H as (bs' & d2 & Hbs & H).
    injection H as <- _. constructor; [eauto|eapply IH, Hbs].
Qed.

Section OperationFacts.

Variable schemas : list (string * Schema).

Lemma returns_convertResponseSchema schema componentRefs :
  returns (convertResponseSchema schemas schema componentRefs).
Proof.
  unfold convertResponseSchema.
  destruct (isComponentSchema (Some schema)); [apply returns_ret|].
  destruct (if typeIs (type schema) "object" then properties schema else None)
    as [ps|].
  - apply returns_bind; [|intros; apply returns_ret].
    revert componentRefs. induction ps as [|kv ps IH]; intros componentRefs.
    + apply returns_ret.
    + apply returns_bind.
      * destruct (isComponentSchema (Some (snd kv))); [apply returns_ret|].
        apply returns_bind; [apply convertType_returns|intros; apply returns_ret].
      * intros r. apply returns_bind; [apply IH|intros; apply returns_ret].
  - apply returns_bind; [apply convertType_returns|intros; apply returns_ret].
Qed.

Lemma returns_requestLines opSchema : returns (requestLines schemas opSchema).
Proof.
  unfold requestLines. destruct (OperationSchema.request opSchema) as [request|];
    [|apply returns_ret].
  apply returns_bind; [|intros; apply returns_ret].
  destruct (isComponentSchema (Some request)); [apply returns_ret|].
  apply returns_bind; [apply convertType_returns|intros; apply returns_ret].
Qed.

Lemma returns_responseLines responses :
  forall componentRefs, returns (responseLines schemas responses componentRefs).
Proof.
  induction responses as [|[statusCode response] responses IH];
    intros componentRefs; cbn [responseLines]; [apply returns_ret|].
  apply returns_bind; [apply returns_convertResponseSchema|]. intros r.
  apply returns_bind; [apply IH|intros; apply returns_ret].
Qed.

Lemma returns_operationFile dirName opSchema :
  returns (operationFile schemas dirName opSchema).
Proof.
  unfold operationFile. apply returns_bind; [apply returns_requestLines|].
  intros req. apply returns_bind; [apply returns_responseLines|].
  intros; apply returns_ret.
Qed.

Lemma operationFile_key dirName opSchema d f d' :
  operationFile schemas dirName opSchema d = Some (f, d') ->
  fileKey f = (Some dirName, "schema.ts").
Proof.
  unfold operationFile. intros H.
  apply bind_some in H as (req & d1 & _ & H).
  apply bind_some in H as (resps & d2 & _ & H).
  injection H as <- _. reflexivity.
Qed.

(** The operation files follow the records of the pass over the paths. *)
Lemma generateOperationSchemas_run paths :
  forall d, exists files d',
    generateOperationSchemas schemas paths d = Some (files, d') /\
    map fileKey files =
      map (fun entry : string * OperationSchema.t => (Some (fst entry), "schema.ts"))
          (collectOperations paths).
Proof.
  intros d. unfold generateOperationSchemas.
  destruct (returns_mapM
              (fun entry : string * OperationSchema.t =>
                 operationFile schemas (fst entry) (snd entry))
              (collectOperations paths)) with (d := d) as (files & d' & Hrun).
  { apply Forall_forall. intros entry _. apply returns_operationFile. }
  exists files, d'. split; [exact Hrun|].
  apply mapM_Forall2 in Hrun.
  induction Hrun as [|entry f entries files (d1 & d2 & Hf) _ IH]; [reflexivity|].
  cbn [map]. rewrite (operationFile_key _ _ _ _ _ Hf), IH. reflexivity.
Qed.

End OperationFacts.

Lemma has_arrIncludes {V : Type} (m : list (string * V)) k :
  has m k = arrIncludes (map fst m) k.
Proof.
  unfold has, arrIncludes. induction m as [|[k' v] m IH]; simpl; [reflexivity|].
  destruct (k =? k'); [reflexivity|exact IH].
Qed.

Lemma map_fst_mapSet {V : Type} (m : list (string * V)) k v :
  map fst (mapSet m k v) = setAdd (map fst m) k.
Proof.
  unfold setAdd. rewrite <- has_arrIncludes.
  destruct (has m k) eqn:E; [apply map_fst_mapSet_present, E|].
  unfold has in E. induction m as [|[k' v'] m IH]; simpl in *; [reflexivity|].
  destruct (k =? k'); [discriminate|]. simpl. rewrite (IH E). reflexivity.
Qed.

Lemma setAdd_present s x : arrIncludes s x = true -> setAdd s x = s.
Proof. intros H. unfold setAdd. rewrite H. reflexivity. Qed.

Lemma arrIncludes_setAdd s x : arrIncludes (setAdd s x) x = true.
Proof.
  unfold arrIncludes. apply existsb_exists. exists x.
  split; [apply setAdd_In|apply String.eqb_refl].
Qed.

(** One record is kept per operationId, in the order of first occurrence. *)
Lemma recordOperation_keys pathName method value ops :
  map fst (recordOperation pathName method value ops) =
  fold_left setAdd
    (match value with
     | OperationValue operation =>
         match truthyStr (Operation.operationId operation) with
         | Some operationId => [operationId]
         | None => []
         end
     | OtherValue => []
     end)
    (map fst ops).
Proof.
  unfold recordOperation. destruct value as [|operation]; [reflexivity|].
  destruct (truthyStr (Operation.operationId operation)) as [id|]; [|reflexivity].
  cbn [fold_left].
  destruct (has ops id) eqn:Ehas.
  - unfold has in Ehas. destruct (get ops id) as [opSchema|] eqn:Eget;
      [|discriminate].
    rewrite map_fst_mapSet. reflexivity.
  - rewrite get_mapSet_same, map_fst_mapSet, map_fst_mapSet.
    apply setAdd_present, arrIncludes_setAdd.
Qed.

Lemma collectOperations_keys_from paths :
  forall acc : list (string * OperationSchema.t),
    map fst
      (fold_left
         (fun acc (entry : string * PathItem) =>
            fold_left
              (fun acc (member : string * PathItemValue) =>
                 recordOperation (fst entry) (fst member) (snd member) acc)
              (snd entry) acc)
         paths acc) =
    fold_left setAdd (operationIds paths) (map fst acc).
Proof.
  unfold operationIds.
  induction paths as [|[pathName item] paths IH]; intros acc; [reflexivity|].
  cbn [fold_left flat_map fst snd]. rewrite fold_left_app, IH. f_equal.
  clear IH. revert acc.
  induction item as [|[method value] item IH]; intros acc; [reflexivity|].
  cbn [fold_left flat_map fst snd]. rewrite fold_left_app, IH. f_equal.
  apply recordOperation_keys.
Qed.

Lemma collectOperations_keys paths :
  map fst (collectOperations paths) = firstOccurrences (operationIds paths).
Proof. apply collectOperations_keys_from. Qed.

Section ConsoleIndependence.

Variable schemas : list (string * Schema).

Lemma generateSchemaFile_console name g1 g2 :
  sameButConsole g1 g2 ->
  sameOutcome (generateSchemaFile schemas name g1)
              (generateSchemaFile schemas name g2).
Proof.
  destruct g1 as [d1 c1 s1 o1], g2 as [d2 c2 s2 o2].
  unfold sameButConsole. cbn. intros (<- & <- & <-).
  unfold generateSchemaFile.
  cbn [dependencies generatedSchemas processingStack console].
  destruct (get c1 name); [cbn; repeat split|].
  destruct (arrIncludes s1 name); [cbn; repeat split|].
  destruct (memberSchema (lookup schemas name)) as [schema|];
    [|cbn; repeat split].
  destruct (convertType schemas (Some schema) [name] name false d1)
    as [[zod deps]|]; cbn; repeat split.
Qed.

Lemma generateEach_console names :
  forall files g1 g2,
    sameButConsole g1 g2 ->
    sameOutcome (generateEach schemas names files g1)
                (generateEach schemas names files g2).
Proof.
  induction names as [|name names IH]; intros files g1 g2 Hsame.
  - cbn. split; [reflexivity|exact Hsame].
  - cbn [generateEach].
    pose proof (generateSchemaFile_console name g1 g2 Hsame) as H.
    unfold sameOutcome in H.
    destruct (generateSchemaFile schemas name g1) as [[r1 g1']|],
             (generateSchemaFile schemas name g2) as [[r2 g2']|];
      try contradiction; [|exact I].
    destruct H as [<- Hsame']. destruct r1; apply IH, Hsame'.
Qed.

(** A run from a new generator: one file per component, in the order of
    the table, the same under every console, which it leaves as it is. *)
Lemma generateComponentSchemas_new (out : list string) :
  exists files g,
    generateComponentSchemas schemas (newComponentGenerator out) = Some (files, g) /\
    console g = out /\
    map fileKey files =
      map (fun name => (Some "_components", name ++ ".ts")) (map fst schemas) /\
    (forall out', exists g',
       generateComponentSchemas schemas (newComponentGenerator out') =
         Some (files, g')).
Proof.
  destruct (generateComponentSchemas_run schemas (newComponentGenerator out)
              (cacheOk_new schemas out)) as (files & g & Hrun & Hall & Hlog).
  rewrite filter_true in Hall by reflexivity.
  rewrite filter_false in Hlog by reflexivity.
  exists files, g. split; [exact Hrun|]. split; [|split].
  - rewrite Hlog. cbn. apply app_nil_r.
  - clear -Hall. induction Hall as [|n f names files (f0 & [Hn _] & ->) _ IH];
      [reflexivity|].
    cbn [map]. rewrite IH. unfold fileKey at 1.
    cbn [asComponent fileName dirName]. rewrite Hn. reflexivity.
  - intros out'.
    pose proof (generateEach_console (map fst schemas) []
                  (newComponentGenerator out) (newComponentGenerator out')
                  (conj eq_refl (conj eq_refl eq_refl))) as H.
    unfold generateComponentSchemas in *. rewrite Hrun in H.
    unfold sameOutcome in H.
    destruct (generateEach schemas (map fst schemas) []
                (newComponentGenerator out')) as [[files' g']|]; [|contradiction].
    destruct H as [<- _]. exists g'. reflexivity.
Qed.

End ConsoleIndependence.

(** Every run on a document returns the same files, whatever the console
    holds, and leaves the console as it is. *)
Lemma generate_deterministic doc :
  exists files,
    (forall out, generate doc out = Some (files, out)) /\
    map fileKey files = declaredArtifacts doc.
Proof.
  destruct (generateComponentSchemas_new (documentSchemas doc) [])
    as (componentFiles & g & Hrun & Hlog & Hkeys & Hany).
  destruct (generateOperationSchemas_run (documentSchemas doc) (paths doc) [])
    as (operationFiles & d' & Hops & Hopkeys).
  exists (componentFiles ++ operationFiles)%list. split.
  - intros out. unfold generate.
    destruct (generateComponentSchemas_new (documentSchemas doc) out)
      as (files' & g' & Hrun' & Hlog' & _ & _).
    destruct (Hany out) as (g'' & Hrun'').
    rewrite Hrun'' in Hrun'. injection Hrun' as <- <-.
    rewrite Hrun'', Hops, Hlog'. reflexivity.
  - unfold declaredArtifacts. cbv zeta. rewrite map_app, Hkeys, Hopkeys.
    rewrite <- collectOperations_keys. f_equal. symmetry. apply map_map.
Qed.

(** ** Declaration order inside an artifact *)

Section DeclarationOrder.

Variable schemas : list (string * Schema).


End DeclarationOrder.

Lemma recordAll_app schemaName refs1 refs2 d :
  recordAll schemaName (refs1 ++ refs2) d =
  recordAll schemaName refs2 (recordAll schemaName refs1 d).
Proof. apply fold_left_app. Qed.

Lemma mapM_recordAll {A B : Type} (f : A -> Conv B) (refs : A -> list string)
    schemaName (l : list A) :
  Forall (fun a => forall d b d',
            f a d = Some (b, d') -> d' = recordAll schemaName (refs a) d) l ->
  forall d bs d',
    mapM f l d = Some (bs, d') ->
    d' = recordAll schemaName (flat_map refs l) d.
Proof.
  induction 1 as [|a l Ha _ IH]; simpl; intros d bs d' H.
  - injection H as _ <-. reflexivity.
  - apply bind_some in H as (b & d1 & Hb & H).
    apply bind_some in H as (bs' & d2 & Hbs & H).
    injection H as _ <-.
    rewrite recordAll_app, <- (Ha _ _ _ Hb). eapply IH, Hbs.
Qed.

Section DependencyOrder.

Variable schemas : list (string * Schema).

(** Outside inline mode the conversion records in the map exactly the
    references it meets, in the order of the node. *)
Lemma convertNode_recordAll budget schemaName :
  forall property currentPath d r d',
    convertNode schemas budget property currentPath schemaName false d =
      Some (r, d') ->
    d' = recordAll schemaName (referencesOf property) d.
Proof.
  induction property as [property IHprops IHitems IHallOf IHoneOf IHanyOf IHadd]
    using Schema_induction.
  intros currentPath d r d'.
  rewrite convertNode_unfold. unfold convertTypeBody.
  destruct property as [ty props req its rf all one any en fmt pat mn mx mi ma
                         mni mxi desc addl].
  cbn [ref allOf oneOf anyOf type items properties additionalProperties] in *.
  cbn [referencesOf ref allOf oneOf anyOf type items properties
       additionalProperties].
  destruct (truthyStr rf) as [r0|].
  { intros H. apply bind_some in H as ([] & d1 & Htrack & H).
    assert (Hd1 : d1 = recordedDependency schemaName (pop (split r0 "/")) false d).
    { unfold recordedDependency. rewrite andb_true_r in *.
      destruct (truthy schemaName && truthy (pop (split r0 "/"))).
      - rewrite Htrack. reflexivity.
      - injection Htrack as <-. reflexivity. }
    cbn [recordAll fold_left]. rewrite <- Hd1.
    destruct (arrIncludes currentPath (pop (split r0 "/")));
      injection H as _ <-; reflexivity. }
  destruct all as [l|].
  { intros H. apply bind_some in H as (ss & d1 & Hss & H). injection H as _ <-.
    eapply mapM_recordAll; [|exact Hss]. specialize (IHallOf l eq_refl).
    eapply Forall_impl; [|exact IHallOf]. intros s Hs ? ? ?. apply Hs. }
  destruct one as [l|].
  { intros H. apply bind_some in H as (ss & d1 & Hss & H). injection H as _ <-.
    eapply mapM_recordAll; [|exact Hss]. specialize (IHoneOf l eq_refl).
    eapply Forall_impl; [|exact IHoneOf]. intros s Hs ? ? ?. apply Hs. }
  destruct any as [l|].
  { intros H. apply bind_some in H as (ss & d1 & Hss & H). injection H as _ <-.
    eapply mapM_recordAll; [|exact Hss]. specialize (IHanyOf l eq_refl).
    eapply Forall_impl; [|exact IHanyOf]. intros s Hs ? ? ?. apply Hs. }
  cbv zeta.
  destruct (typeIs ty "array") eqn:Earray.
  { apply typeIs_inv in Earray. subst ty. cbn -[convertArray].
    intros H. apply convertArray_chain in H as (ie & Hi & _).
    cbn [items] in Hi. destruct its as [i|].
    - eapply (IHitems i eq_refl), Hi.
    - injection Hi as _ <-. reflexivity. }
  destruct (typeIs ty "object") eqn:Eobject.
  { apply typeIs_inv in Eobject. subst ty. cbn -[convertObject].
    unfold convertObject. cbn [properties required additionalProperties].
    destruct props as [ps|]; [|intros [= _ <-]; reflexivity].
    intros H. apply bind_some in H as (lines & d1 & Hlines & H).
    rewrite recordAll_app.
    assert (Hd1 : d1 = recordAll schemaName
                         (flat_map (fun kv : string * Schema => referencesOf (snd kv)) ps) d).
    { eapply mapM_recordAll; [|exact Hlines]. specialize (IHprops ps eq_refl).
      eapply Forall_impl; [|exact IHprops]. intros [k v] Hv d0 b d0' Hb.
      cbn [fst snd] in *.
      apply bind_some in Hb as (z & d2 & Hz & Hb). injection Hb as _ <-.
      eapply Hv, Hz. }
    rewrite <- Hd1.
    destruct addl as [[[|]|a]|]; try (injection H as _ <-; reflexivity).
    apply bind_some in H as (z & d2 & Hz & H). injection H as _ <-.
    eapply (IHadd a eq_refl), Hz. }
  destruct (typeIs ty "string"); [intros [= _ <-]; reflexivity|].
  destruct (typeIs ty "number" || typeIs ty "integer");
    [intros [= _ <-]; reflexivity|].
  destruct (typeIs ty "boolean"); [intros [= _ <-]; reflexivity|].
  destruct (typeIs ty "null"); intros [= _ <-]; reflexivity.
Qed.

End DependencyOrder.

Lemma getDependencies_recordAll schemaName refs :
  truthy schemaName = true ->
  forall d,
    getDependencies (recordAll schemaName refs d) schemaName =
    fold_left setAdd (filter truthy refs) (getDependencies d schemaName).
Proof.
  intros Hname. induction refs as [|r refs IH]; intros d; [reflexivity|].
  change (recordAll schemaName (r :: refs) d)
    with (recordAll schemaName refs (recordedDependency schemaName r false d)).
  rewrite IH. unfold recordedDependency. rewrite Hname. cbn [andb negb filter].
  rewrite andb_true_r.
  destruct (truthy r); [|reflexivity].
  destruct (trackDependency_spec schemaName r d) as (d' & E & Hsame & _).
  rewrite E, Hsame. reflexivity.
Qed.

Lemma componentImports_filter schemas deps :
  componentImports schemas deps =
  "import { z } from 'zod';" :: map importOf (filter (present schemas) deps).
Proof.
  unfold componentImports. f_equal.
  induction deps as [|dep deps IH]; [reflexivity|].
  cbn [flat_map filter].
  destruct (present schemas dep); cbn [map app]; rewrite <- IH; reflexivity.
Qed.

(** The file of a component imports its dependencies in the order in which
    its node first refers to them. *)
Lemma generateSchemaFile_imports schemas name schema g :
  truthy name = true ->
  get schemas name = Some schema ->
  get (generatedSchemas g) name = None ->
  arrIncludes (processingStack g) name = false ->
  getDependencies (dependencies g) name = [] ->
  let deps := firstOccurrences (filter truthy (referencesOf schema)) in
  exists f g' rest,
    generateSchemaFile schemas name g = Some (Some f, g') /\
    getDependencies (dependencies g') name = deps /\
    content f =
      joinStr
        (("import { z } from 'zod';" ::
          map importOf (filter (present schemas) deps)) ++ rest)
        nl.
Proof.
  intros Hname Hschema Hcache Hstack Hdeps deps.
  destruct (generateSchemaFile_fresh schemas name g schema Hcache Hstack Hschema)
    as (zod & deps' & Hconv & Hgen).
  cbv zeta in Hgen.
  assert (Hrec : getDependencies deps' name = deps).
  { unfold convertType in Hconv. apply convertNode_recordAll in Hconv.
    rewrite Hconv, getDependencies_recordAll, Hdeps by exact Hname.
    reflexivity. }
  eexists _, _, _. split; [exact Hgen|]. split; [exact Hrec|].
  cbn [content]. unfold componentContent.
  rewrite componentImports_filter, Hrec. reflexivity.
Qed.

(** ** The budget of [convertNode] is immaterial *)

Lemma mapM_more {A B : Type} (f g : A -> Conv B) (l : list A) :
  Forall (fun a => forall d x, f a d = Some x -> g a d = Some x) l ->
  forall d x, mapM f l d = Some x -> mapM g l d = Some x.
Proof.
  induction 1 as [|a l Ha _ IH]; simpl; intros d [bs d'] H; [exact H|].
  apply bind_some in H as (b & d1 & Hb & H).
  apply bind_some in H as (bs' & d2 & Hbs & H).
  apply bind_some. exists b, d1. split; [apply Ha, Hb|].
  apply bind_some. exists bs', d2. split; [apply IH, Hbs|exact H].
Qed.

Lemma bind_more {A B : Type} (m m' : Conv A) (k k' : A -> Conv B) d x :
  (forall y, m d = Some y -> m' d = Some y) ->
  (forall a d1 y, k a d1 = Some y -> k' a d1 = Some y) ->
  bind m k d = Some x -> bind m' k' d = Some x.
Proof.
  intros Hm Hk H. destruct x as [b d2].
  apply bind_some in H as (a & d1 & Ha & H).
  apply bind_some. exists a, d1. split; [apply Hm, Ha|apply Hk, H].
Qed.

Section Budget.

Variable schemas : list (string * Schema).

(** A result obtained within a budget is the result under any larger one. *)
Lemma convertNode_more budget :
  forall property currentPath schemaName isInline d x,
    convertNode schemas budget property currentPath schemaName isInline d = Some x ->
    convertNode schemas (S budget) property currentPath schemaName isInline d =
      Some x.
Proof.
  induction budget as [budget IHbudget] using lt_wf_ind.
  induction property as [property IHprops IHitems IHallOf IHoneOf IHanyOf IHadd]
    using Schema_induction.
  intros currentPath schemaName isInline d x.
  rewrite (convertNode_unfold schemas budget), (convertNode_unfold schemas (S budget)).
  unfold convertTypeBody.
  destruct (truthyStr (ref property)) as [r|].
  { apply bind_more; [auto|]. intros [] d1 y.
    destruct (arrIncludes currentPath (pop (split r "/"))); [auto|].
    destruct (if isInline then lookup schemas (pop (split r "/")) else NoMember)
      as [target| |]; [|auto|auto].
    destruct budget as [|budget']; [discriminate|].
    apply IHbudget. lia. }
  destruct (allOf property) as [l|] eqn:EallOf.
  { apply bind_more; [|auto]. intros y. apply mapM_more.
    specialize (IHallOf l eq_refl).
    eapply Forall_impl; [|exact IHallOf]. intros s Hs ? ?. apply Hs. }
  destruct (oneOf property) as [l|] eqn:EoneOf.
  { apply bind_more; [|auto]. intros y. apply mapM_more.
    specialize (IHoneOf l eq_refl).
    eapply Forall_impl; [|exact IHoneOf]. intros s Hs ? ?. apply Hs. }
  destruct (anyOf property) as [l|] eqn:EanyOf.
  { apply bind_more; [|auto]. intros y. apply mapM_more.
    specialize (IHanyOf l eq_refl).
    eapply Forall_impl; [|exact IHanyOf]. intros s Hs ? ?. apply Hs. }
  cbv zeta.
  destruct (typeIs (type property) "string"); [auto|].
  destruct (typeIs (type property) "number" || typeIs (type property) "integer");
    [auto|].
  destruct (typeIs (type property) "boolean"); [auto|].
  destruct (typeIs (type property) "array").
  { unfold convertArray. apply bind_more; [|auto].
    destruct (items property) as [i|] eqn:Eitems; [|auto].
    intros y. apply (IHitems i eq_refl). }
  destruct (typeIs (type property) "object").
  { unfold convertObject.
    destruct (properties property) as [ps|] eqn:Eprops; [|auto].
    apply bind_more.
    - intros y. apply mapM_more. specialize (IHprops ps eq_refl).
      eapply Forall_impl; [|exact IHprops]. intros [k v] Hv d0 y0.
      cbn [fst snd] in *. apply bind_more; [|auto]. intros y1. apply Hv.
    - intros props d1 y.
      destruct (additionalProperties property) as [[[|]|a]|] eqn:Eadd; auto.
      apply bind_more; [|auto]. intros y1. apply (IHadd a eq_refl). }
  auto.
Qed.

Lemma convertNode_more_le budget budget' property currentPath schemaName isInline d x :
  (budget <= budget')%nat ->
  convertNode schemas budget property currentPath schemaName isInline d = Some x ->
  convertNode schemas budget' property currentPath schemaName isInline d = Some x.
Proof.
  induction 1 as [|budget' _ IH]; [auto|].
  intros H. apply convertNode_more, IH, H.
Qed.

(** Every budget that covers the components still to enter gives the
    result of [convertType]. *)
Lemma convertNode_enough budget property currentPath schemaName isInline d :
  (unexpanded schemas currentPath <= budget)%nat ->
  convertNode schemas budget property currentPath schemaName isInline d =
  convertType schemas (Some property) currentPath schemaName isInline d.
Proof.
  intros Hbudget. unfold convertType.
  destruct (convertNode_returns schemas budget property currentPath schemaName
              isInline Hbudget d) as (a & d1 & E1).
  destruct (convertNode_returns schemas (length schemas) property currentPath
              schemaName isInline (unexpanded_le schemas currentPath) d)
    as (b & d2 & E2).
  pose proof (convertNode_more_le _ _ _ _ _ _ _ _
                (Nat.le_max_l budget (length schemas)) E1) as M1.
  pose proof (convertNode_more_le _ _ _ _ _ _ _ _
                (Nat.le_max_r budget (length schemas)) E2) as M2.
  rewrite E1, E2. rewrite M1 in M2. exact M2.
Qed.

End Budget.

(* ===================================================================== *)
(** * Further properties of the converter *)
(* ===================================================================== *)

(** ** Inline mode and the dependency map *)

Lemma mapM_pure {A B : Type} (f : A -> Conv B) (l : list A) :
  Forall (fun a => forall d b d', f a d = Some (b, d') -> d' = d) l ->
  forall d bs d', mapM f l d = Some (bs, d') -> d' = d.
Proof.
  induction 1 as [|a l Ha _ IH]; simpl; intros d bs d' H.
  - injection H as _ <-. reflexivity.
  - apply bind_some in H as (b & d1 & Hb & H).
    apply bind_some in H as (bs' & d2 & Hbs & H).
    injection H as _ <-.
    apply Ha in Hb. subst d1. eapply IH, Hbs.
Qed.

Section InlineMode.

Variable schemas : list (string * Schema).

Lemma convertNode_inline_pure budget :
  forall property currentPath schemaName d r d',
    convertNode schemas budget property currentPath schemaName true d =
      Some (r, d') ->
    d' = d.
Proof.
  induction budget as [budget IHbudget] using lt_wf_ind.
  induction property as [property IHprops IHitems IHallOf IHoneOf IHanyOf IHadd]
    using Schema_induction.
  intros currentPath schemaName d r d'.
  rewrite convertNode_unfold. unfold convertTypeBody.
  destruct (truthyStr (ref property)) as [rf|].
  { rewrite andb_false_r. intros H.
    apply bind_some in H as ([] & d1 & Htrack & H).
    injection Htrack as <-.
    destruct (arrIncludes currentPath (pop (split rf "/")));
      [injection H as _ <-; reflexivity|].
    destruct (lookup schemas (pop (split rf "/"))) as [target| |];
      [|injection H as _ <-; reflexivity|injection H as _ <-; reflexivity].
    destruct budget as [|budget']; [discriminate|].
    eapply (IHbudget budget'); [lia|exact H]. }
  destruct (allOf property) as [l|] eqn:EallOf.
  { intros H. apply bind_some in H as (ss & d1 & Hss & H). injection H as _ <-.
    eapply mapM_pure; [|exact Hss]. specialize (IHallOf l eq_refl).
    eapply Forall_impl; [|exact IHallOf]. intros s Hs ? ? ?. apply Hs. }
  destruct (oneOf property) as [l|] eqn:EoneOf.
  { intros H. apply bind_some in H as (ss & d1 & Hss & H). injection H as _ <-.
    eapply mapM_pure; [|exact Hss]. specialize (IHoneOf l eq_refl).
    eapply Forall_impl; [|exact IHoneOf]. intros s Hs ? ? ?. apply Hs. }
  destruct (anyOf property) as [l|] eqn:EanyOf.
  { intros H. apply bind_some in H as (ss & d1 & Hss & H). injection H as _ <-.
    eapply mapM_pure; [|exact Hss]. specialize (IHanyOf l eq_refl).
    eapply Forall_impl; [|exact IHanyOf]. intros s Hs ? ? ?. apply Hs. }
  cbv zeta.
  destruct (typeIs (type property) "string"); [intros [= _ <-]; reflexivity|].
  destruct (typeIs (type property) "number" || typeIs (type property) "integer");
    [intros [= _ <-]; reflexivity|].
  destruct (typeIs (type property) "boolean"); [intros [= _ <-]; reflexivity|].
  destruct (typeIs (type property) "array").
  { intros H. apply convertArray_chain in H as (i & Hi & _).
    destruct (items property) as [it|] eqn:Eitems.
    - eapply (IHitems it eq_refl), Hi.
    - injection Hi as _ <-. reflexivity. }
  destruct (typeIs (type property) "object").
  { unfold convertObject.
    destruct (properties property) as [ps|] eqn:Eprops;
      [|intros [= _ <-]; reflexivity].
    intros H. apply bind_some in H as (props & d1 & Hprops & H).
    assert (Hd1 : d1 = d).
    { eapply mapM_pure; [|exact Hprops]. specialize (IHprops ps eq_refl).
      eapply Forall_impl; [|exact IHprops]. intros [k v] Hv d0 b d0' Hb.
      apply bind_some in Hb as (z & d2 & Hz & Hb). injection Hb as _ <-.
      eapply Hv, Hz. }
    subst d1.
    destruct (additionalProperties property) as [[[|]|a]|] eqn:Eadd;
      try (injection H as _ <-; reflexivity).
    apply bind_some in H as (z & d2 & Hz & H). injection H as _ <-.
    eapply (IHadd a eq_refl), Hz. }
  destruct (typeIs (type property) "null"); intros [= _ <-]; reflexivity.
Qed.

Lemma convertType_inline_pure property currentPath schemaName d r d' :
  convertType schemas property currentPath schemaName true d = Some (r, d') ->
  d' = d.
Proof.
  unfold convertType. destruct property as [s|].
  - apply convertNode_inline_pure.
  - intros [= _ <-]. reflexivity.
Qed.

Lemma convertResponseSchema_pure schema componentRefs d r d' :
  convertResponseSchema schemas schema componentRefs d = Some (r, d') -> d' = d.
Proof.
  unfold convertResponseSchema.
  destruct (isComponentSchema (Some schema)); [intros [= _ <-]; reflexivity|].
  destruct (if typeIs (type schema) "object" then properties schema else None)
    as [ps|].
  - intros H. apply bind_some in H as (x & d1 & Hx & H). injection H as _ <-.
    revert componentRefs d x d1 Hx.
    induction ps as [|kv ps IH]; intros componentRefs d x d1 Hx.
    + injection Hx as _ <-. reflexivity.
    + apply bind_some in Hx as (y & d2 & Hy & Hx).
      apply bind_some in Hx as (rest & d3 & Hrest & Hx). injection Hx as _ <-.
      apply IH in Hrest. subst d3.
      destruct (isComponentSchema (Some (snd kv))).
      * injection Hy as _ <-. reflexivity.
      * apply bind_some in Hy as (z & d4 & Hz & Hy). injection Hy as _ <-.
        eapply convertType_inline_pure, Hz.
  - intros H. apply bind_some in H as (z & d1 & Hz & H). injection H as _ <-.
    eapply convertType_inline_pure, Hz.
Qed.

Lemma requestLines_pure opSchema d r d' :
  requestLines schemas opSchema d = Some (r, d') -> d' = d.
Proof.
  unfold requestLines. destruct (OperationSchema.request opSchema) as [request|];
    [|intros [= _ <-]; reflexivity].
  intros H. apply bind_some in H as (decl & d1 & Hdecl & H). injection H as _ <-.
  destruct (isComponentSchema (Some request)).
  - injection Hdecl as _ <-. reflexivity.
  - apply bind_some in Hdecl as (z & d2 & Hz & Hdecl). injection Hdecl as _ <-.
    eapply convertType_inline_pure, Hz.
Qed.

Lemma responseLines_pure responses :
  forall componentRefs d r d',
    responseLines schemas responses componentRefs d = Some (r, d') -> d' = d.
Proof.
  induction responses as [|[statusCode response] responses IH];
    intros componentRefs d r d'; cbn [responseLines].
  - intros [= _ <-]. reflexivity.
  - intros H. apply bind_some in H as (x & d1 & Hx & H).
    apply bind_some in H as (rest & d2 & Hrest & H). injection H as _ <-.
    apply convertResponseSchema_pure in Hx. subst d1. eapply IH, Hrest.
Qed.

Lemma operationFile_pure dirName opSchema d f d' :
  operationFile schemas dirName opSchema d = Some (f, d') -> d' = d.
Proof.
  unfold operationFile. intros H.
  apply bind_some in H as (req & d1 & Hreq & H).
  apply bind_some in H as (resps & d2 & Hresps & H). injection H as _ <-.
  apply requestLines_pure in Hreq. subst d1. eapply responseLines_pure, Hresps.
Qed.

(** X1.  In inline mode [convertType] leaves the dependency map as it
    found it, however many components it expands; so the converter of the
    operation assembler, which is only ever called in inline mode, never
    records a dependency. *)
Theorem X1_inline_mode_records_nothing :
  (forall property currentPath schemaName d r d',
     convertType schemas property currentPath schemaName true d = Some (r, d') ->
     d' = d) /\
  (forall paths d files d',
     generateOperationSchemas schemas paths d = Some (files, d') -> d' = d).
Proof.
  split; [apply convertType_inline_pure|].
  intros paths d files d' H. unfold generateOperationSchemas in H.
  eapply mapM_pure; [|exact H].
  apply Forall_forall. intros entry _ d0 b d0'. apply operationFile_pure.
Qed.

End InlineMode.

Lemma X1_inline_mode_records_nothing_witness :
  convertType [("Node", objectNode [("next", refNode "#/components/schemas/Node")] [])]
              (Some (refNode "#/components/schemas/Node")) [] "Request" true
              [("Owner", ["Dep"])] =
  Some (str ("z.object({" ++ nl ++ "  next: z.lazy(() => Node).optional()" ++ nl ++ "})"),
        [("Owner", ["Dep"])]).
Proof.
  pose proof (proj1 (X1_inline_mode_records_nothing
                       [("Node", objectNode [("next", refNode "#/components/schemas/Node")] [])])
                    (Some (refNode "#/components/schemas/Node")) [] "Request"
                    [("Owner", ["Dep"])]) as H.
  destruct (convertType _ _ _ _ _ _) as [[r d']|] eqn:E in H |- *.
  - rewrite (H r d' eq_refl). vm_compute in E. injection E as <- _. reflexivity.
  - vm_compute in E. discriminate.
Defined.

(** ** Outside inline mode *)

Lemma mapM_ext {A B : Type} (f g : A -> Conv B) (l : list A) :
  Forall (fun a => forall d, f a d = g a d) l ->
  forall d, mapM f l d = mapM g l d.
Proof.
  induction 1 as [|a l Ha _ IH]; simpl; intros d; [reflexivity|].
  unfold bind. rewrite Ha. destruct (g a d) as [[b d1]|]; [|reflexivity].
  rewrite IH. reflexivity.
Qed.

Lemma bind_ext {A B : Type} (m m' : Conv A) (k k' : A -> Conv B) d :
  m d = m' d -> (forall a d1, k a d1 = k' a d1) -> bind m k d = bind m' k' d.
Proof.
  intros Hm Hk. unfold bind. rewrite Hm.
  destruct (m' d) as [[a d1]|]; [apply Hk|reflexivity].
Qed.

Lemma convertNode_table_free schemas1 schemas2 budget1 budget2 schemaName :
  forall property currentPath d,
    convertNode schemas1 budget1 property currentPath schemaName false d =
    convertNode schemas2 budget2 property currentPath schemaName false d.
Proof.
  induction property as [property IHprops IHitems IHallOf IHoneOf IHanyOf IHadd]
    using Schema_induction.
  intros currentPath d.
  rewrite (convertNode_unfold schemas1), (convertNode_unfold schemas2).
  unfold convertTypeBody.
  destruct (truthyStr (ref property)) as [rf|]; [reflexivity|].
  destruct (allOf property) as [l|] eqn:EallOf.
  { apply bind_ext; [|reflexivity]. apply mapM_ext.
    specialize (IHallOf l eq_refl).
    eapply Forall_impl; [|exact IHallOf]. intros s Hs ?. apply Hs. }
  destruct (oneOf property) as [l|] eqn:EoneOf.
  { apply bind_ext; [|reflexivity]. apply mapM_ext.
    specialize (IHoneOf l eq_refl).
    eapply Forall_impl; [|exact IHoneOf]. intros s Hs ?. apply Hs. }
  destruct (anyOf property) as [l|] eqn:EanyOf.
  { apply bind_ext; [|reflexivity]. apply mapM_ext.
    specialize (IHanyOf l eq_refl).
    eapply Forall_impl; [|exact IHanyOf]. intros s Hs ?. apply Hs. }
  cbv zeta.
  destruct (typeIs (type property) "string"); [reflexivity|].
  destruct (typeIs (type property) "number" || typeIs (type property) "integer");
    [reflexivity|].
  destruct (typeIs (type property) "boolean"); [reflexivity|].
  destruct (typeIs (type property) "array").
  { unfold convertArray. apply bind_ext; [|reflexivity].
    destruct (items property) as [i|] eqn:Eitems; [|reflexivity].
    apply (IHitems i eq_refl). }
  destruct (typeIs (type property) "object"); [|reflexivity].
  unfold convertObject.
  destruct (properties property) as [ps|] eqn:Eprops; [|reflexivity].
  apply bind_ext.
  - apply mapM_ext. specialize (IHprops ps eq_refl).
    eapply Forall_impl; [|exact IHprops]. intros [k v] Hv d0. cbn [fst snd] in *.
    apply bind_ext; [apply Hv|reflexivity].
  - intros props d1.
    destruct (additionalProperties property) as [[[|]|a]|] eqn:Eadd;
      try reflexivity.
    apply bind_ext; [apply (IHadd a eq_refl)|reflexivity].
Qed.

(** X2.  Outside inline mode [convertType] never reads the component table:
    its result and the dependency map it leaves are the same under any two
    tables.  In particular a reference to a shape that is missing from the
    table is converted like any other, to the bare name (or to the lazy
    token when the name is on the path). *)
Theorem X2_table_not_read_outside_inline_mode
    schemas1 schemas2 property currentPath schemaName d :
  convertType schemas1 property currentPath schemaName false d =
  convertType schemas2 property currentPath schemaName false d.
Proof.
  unfold convertType. destruct property as [s|]; [|reflexivity].
  apply convertNode_table_free.
Qed.

(** ** The frame of a conversion *)

Lemma recordedDependency_other schemaName refName isInline d key :
  key <> schemaName ->
  getDependencies (recordedDependency schemaName refName isInline d) key =
  getDependencies d key.
Proof.
  intros Hne. unfold recordedDependency.
  destruct (truthy schemaName && truthy refName && negb isInline); [|reflexivity].
  destruct (trackDependency_spec schemaName refName d) as (d' & E & _ & Hother).
  rewrite E. apply Hother, Hne.
Qed.

Lemma recordAll_other schemaName refs key :
  key <> schemaName ->
  forall d, getDependencies (recordAll schemaName refs d) key = getDependencies d key.
Proof.
  intros Hne. induction refs as [|r refs IH]; intros d; [reflexivity|].
  change (recordAll schemaName (r :: refs) d)
    with (recordAll schemaName refs (recordedDependency schemaName r false d)).
  rewrite IH. apply recordedDependency_other, Hne.
Qed.

Lemma recordAll_no_owner refs d : recordAll "" refs d = d.
Proof. induction refs as [|r refs IH]; [reflexivity|exact IH]. Qed.

(** X3.  Outside inline mode a conversion under the owner [schemaName]
    changes the dependency set of no other name; under the empty owner name
    it changes nothing; and under a non-empty owner it adds to the owner's set
    the non-empty target names of the references it meets, each once, in the
    order of the node. *)
Theorem X3_conversion_touches_owner_only
    schemas node currentPath schemaName d r d' :
  convertType schemas (Some node) currentPath schemaName false d = Some (r, d') ->
  (forall key, key <> schemaName ->
     getDependencies d' key = getDependencies d key) /\
  (schemaName = "" -> d' = d) /\
  (truthy schemaName = true ->
   getDependencies d' schemaName =
   fold_left setAdd (filter truthy (referencesOf node))
             (getDependencies d schemaName)).
Proof.
  unfold convertType. intros H. apply convertNode_recordAll in H. subst d'.
  split; [|split].
  - intros key Hne. apply recordAll_other, Hne.
  - intros ->. apply recordAll_no_owner.
  - intros Hname. apply getDependencies_recordAll, Hname.
Qed.

Lemma X3_conversion_touches_owner_only_witness :
  let node :=
    objectNode [("a", refNode "#/components/schemas/B");
                ("b", refNode "#/components/schemas/C");
                ("c", refNode "#/components/schemas/B")] [] in
  exists r d',
    convertType [] (Some node) ["A"] "A" false [("Z", ["Y"]); ("A", ["C"])] =
      Some (r, d') /\
    getDependencies d' "Z" = ["Y"] /\ getDependencies d' "A" = ["C"; "B"].
Proof.
  intros node.
  destruct (convertType [] (Some node) ["A"] "A" false [("Z", ["Y"]); ("A", ["C"])])
    as [[r d']|] eqn:E; [|vm_compute in E; discriminate].
  exists r, d'. split; [reflexivity|].
  destruct (X3_conversion_touches_owner_only [] node ["A"] "A" _ r d' E)
    as (Hother & _ & Hown).
  split.
  - rewrite (Hother "Z"); [reflexivity|discriminate].
  - rewrite (Hown eq_refl). reflexivity.
Defined.

(** ** Tidy dependency sets *)

Lemma setAdd_NoDup s x : NoDup s -> NoDup (setAdd s x).
Proof.
  intros H. unfold setAdd. destruct (arrIncludes s x) eqn:E; [exact H|].
  apply NoDup_app; [exact H|repeat constructor; intros []|].
  intros y Hy [Heq|[]]. subst y. unfold arrIncludes in E.
  assert (existsb (String.eqb x) s = true); [|congruence].
  apply existsb_exists. exists x. split; [exact Hy|apply String.eqb_refl].
Qed.

Lemma setAdd_inv s x y : In y (setAdd s x) -> In y s \/ y = x.
Proof.
  unfold setAdd. destruct (arrIncludes s x); [auto|].
  intros H. apply in_app_or in H as [H|[<-|[]]]; auto.
Qed.

Lemma fold_setAdd_NoDup l : forall s, NoDup s -> NoDup (fold_left setAdd l s).
Proof.
  induction l as [|x l IH]; intros s H; [exact H|].
  cbn. apply IH, setAdd_NoDup, H.
Qed.

Lemma fold_setAdd_inv l : forall s y,
  In y (fold_left setAdd l s) -> In y s \/ In y l.
Proof.
  induction l as [|x l IH]; intros s y H; [auto|].
  cbn in H. apply IH in H as [H|H]; [|right; right; exact H].
  apply setAdd_inv in H as [H| ->]; [left; exact H|right; left; reflexivity].
Qed.

Lemma recordAll_tidy schemaName refs d :
  depsTidy d -> depsTidy (recordAll schemaName refs d).
Proof.
  intros Htidy key.
  destruct (String.eqb_spec key schemaName) as [->|Hne].
  2:{ rewrite recordAll_other by exact Hne. apply Htidy. }
  destruct (truthy schemaName) eqn:Hname.
  - rewrite getDependencies_recordAll by exact Hname. split.
    + apply fold_setAdd_NoDup, Htidy.
    + intros H. apply fold_setAdd_inv in H as [H|H]; [apply (Htidy schemaName), H|].
      apply filter_In in H as [_ H]. discriminate.
  - assert (schemaName = "") as ->.
    { unfold truthy in Hname. apply negb_false_iff, String.eqb_eq in Hname.
      exact Hname. }
    rewrite recordAll_no_owner. apply Htidy.
Qed.

Lemma importOf_not_zod dep : importOf dep <> "import { z } from 'zod';".
Proof.
  intros H.
  assert (Hinc : includes (importOf dep) "'./" = true).
  { unfold importOf.
    change ("import { " ++ dep ++ " } from './" ++ dep ++ ".js';")
      with ("import { " ++ dep ++ " } from " ++ "'./" ++ dep ++ ".js';").
    apply includes_app_r, includes_app_r, includes_app_r, includes_prefix. }
  rewrite H in Hinc. discriminate.
Qed.

Lemma append_same_length (a b x y : string) :
  String.length a = String.length b -> a ++ x = b ++ y -> a = b.
Proof.
  revert b. induction a as [|c a IH]; intros [|c' b]; simpl; try discriminate.
  - reflexivity.
  - intros Hlen H. injection Hlen as Hlen. injection H as -> H.
    f_equal. apply (IH b Hlen H).
Qed.

Lemma importOf_inj a b : importOf a = importOf b -> a = b.
Proof.
  unfold importOf. intros H.
  change ("import { " ++ ?x) with (String "i" (String "m" (String "p" (String "o"
    (String "r" (String "t" (String " " (String "{" (String " " x))))))))) in H.
  injection H as H.
  apply append_same_length in H; [exact H|].
  apply (f_equal String.length) in H. rewrite !length_append in H.
  simpl in H. rewrite !length_append in H. simpl in H. lia.
Qed.

Lemma NoDup_map_inj {A B : Type} (f : A -> B) (l : list A) :
  (forall a b, f a = f b -> a = b) -> NoDup l -> NoDup (map f l).
Proof.
  intros Hinj. induction 1 as [|a l Ha _ IH]; cbn [map]; constructor; [|exact IH].
  intros Hin. apply in_map_iff in Hin as (b & Hb & Hin).
  apply Hinj in Hb. subst b. contradiction.
Qed.

Lemma componentImports_NoDup schemas deps :
  NoDup deps -> NoDup (componentImports schemas deps).
Proof.
  intros H. rewrite componentImports_filter. constructor.
  - intros Hin. apply in_map_iff in Hin as (dep & Hdep & _).
    apply (importOf_not_zod dep Hdep).
  - apply NoDup_map_inj; [apply importOf_inj|].
    apply NoDup_filter, H.
Qed.

(** X4.  The dependency sets stay tidy: when no set of the converter's map
    holds a name twice or the empty name, the same is true after any number of
    conversions.  So the file that [generateSchemaFile] generates for a
    component holds no import line twice: each dependency is imported once,
    and the zod import differs from them all. *)
Theorem X4_no_duplicate_imports schemas name schema g f g' :
  depsTidy (dependencies g) ->
  get (generatedSchemas g) name = None ->
  get schemas name = Some schema ->
  generateSchemaFile schemas name g = Some (Some f, g') ->
  depsTidy (dependencies g') /\
  NoDup (componentImports schemas (getDependencies (dependencies g') name)) /\
  exists zodSchema,
    content f = componentContent schemas name schema zodSchema (dependencies g').
Proof.
  intros Htidy Hcache Hschema Hgen.
  destruct (arrIncludes (processingStack g) name) eqn:Hstack.
  { unfold generateSchemaFile in Hgen. rewrite Hcache, Hstack in Hgen.
    discriminate. }
  destruct (generateSchemaFile_fresh schemas name g schema Hcache Hstack Hschema)
    as (zod & deps & Hconv & Hfresh).
  cbv zeta in Hfresh. rewrite Hfresh in Hgen. injection Hgen as <- <-.
  cbn [dependencies content].
  assert (Ht : depsTidy deps).
  { unfold convertType in Hconv. apply convertNode_recordAll in Hconv.
    subst deps. apply recordAll_tidy, Htidy. }
  split; [exact Ht|]. split; [apply componentImports_NoDup, Ht|].
  exists zod. reflexivity.
Qed.

Lemma X4_no_duplicate_imports_witness :
  let node :=
    objectNode [("a", refNode "#/components/schemas/B");
                ("b", refNode "#/components/schemas/B")] [] in
  let table := [("A", node); ("B", typeNode "string")] in
  exists f g',
    generateSchemaFile table "A" (newComponentGenerator []) = Some (Some f, g') /\
    componentImports table (getDependencies (dependencies g') "A") =
      ["import { z } from 'zod';"; "import { B } from './B.js';"] /\
    NoDup (componentImports table (getDependencies (dependencies g') "A")).
Proof.
  intros node table.
  destruct (generateSchemaFile table "A" (newComponentGenerator []))
    as [[[f|] g']|] eqn:E; try (vm_compute in E; discriminate).
  exists f, g'. split; [reflexivity|]. split.
  - vm_compute in E. injection E as _ <-. reflexivity.
  - refine (proj1 (proj2 (X4_no_duplicate_imports table "A" node
                            (newComponentGenerator []) f g' _ eq_refl eq_refl E))).
    intros key. split; [constructor|intros []].
Defined.

(** ** Compositions *)

Lemma mapM_length {A B : Type} (f : A -> Conv B) (l : list A) :
  forall d bs d', mapM f l d = Some (bs, d') -> length bs = length l.
Proof.
  induction l as [|a l IH]; simpl; intros d bs d' H.
  - injection H as <- _. reflexivity.
  - apply bind_some in H as (b & d1 & _ & H).
    apply bind_some in H as (bs' & d2 & Hbs & H).
    injection H as <- _. simpl. f_equal. eapply IH, Hbs.
Qed.

(** X5.  An all-of composition with exactly one child is a no-op: the node
    is converted exactly as its child is, to the same expression and with the
    same effect on the dependency map.  With two or more children it is
    converted to [z.intersection(...)] over all the children's expressions
    joined by a comma and a space. *)
Theorem X5_allOf_single_child_is_child schemas node currentPath schemaName isInline :
  truthyStr (ref node) = None ->
  (forall child d,
     allOf node = Some [child] ->
     convertType schemas (Some node) currentPath schemaName isInline d =
     convertType schemas (Some child) currentPath schemaName isInline d) /\
  (forall children d r d',
     allOf node = Some children -> (2 <= length children)%nat ->
     convertType schemas (Some node) currentPath schemaName isInline d =
       Some (r, d') ->
     exists exprs,
       mapM (fun s => convertType schemas (Some s) currentPath schemaName isInline)
            children d = Some (exprs, d') /\
       r = str ("z.intersection(" ++ join exprs ", " ++ ")")).
Proof.
  intros Href. split.
  - intros child d Hall. unfold convertType.
    rewrite (convertNode_unfold schemas (length schemas) node).
    unfold convertTypeBody. rewrite Href, Hall. cbn [mapM]. unfold bind, ret.
    destruct (convertNode schemas (length schemas) child currentPath schemaName
                isInline d) as [[b d1]|]; reflexivity.
  - intros children d r d' Hall Hlen. unfold convertType.
    rewrite convertNode_unfold. unfold convertTypeBody. rewrite Href, Hall.
    intros H. apply bind_some in H as (exprs & d1 & Hexprs & H).
    exists exprs. pose proof (mapM_length _ _ _ _ _ Hexprs) as Hl.
    destruct (Nat.ltb_spec 1 (length exprs)) as [_|Hlt]; [|lia].
    injection H as <- <-. split; [exact Hexprs|reflexivity].
Qed.

Lemma X5_allOf_single_child_is_child_witness :
  convertType [] (Some (allOfNode [refNode "#/components/schemas/Base"]))
              ["Derived"] "Derived" false [] =
  Some (str "Base", [("Derived", ["Base"])]).
Proof.
  rewrite (proj1 (X5_allOf_single_child_is_child []
                    (allOfNode [refNode "#/components/schemas/Base"])
                    ["Derived"] "Derived" false eq_refl)
                 (refNode "#/components/schemas/Base") [] eq_refl).
  reflexivity.
Defined.

(** ** Missing parts *)

Lemma typeIs_or_false type :
  unknownType type ->
  typeIs type "string" = false /\ typeIs type "number" = false /\
  typeIs type "integer" = false /\ typeIs type "boolean" = false /\
  typeIs type "array" = false /\ typeIs type "object" = false /\
  typeIs type "null" = false.
Proof. intros H. repeat split; apply H; simpl; auto 10. Qed.

(** X6.  Where type information is missing the converter degrades without
    touching the dependency map: an absent node and a node whose type token is
    absent or unknown give [z.unknown()]; an array without items gives an
    array of [z.unknown()], still with its item-count bounds; an object
    without a property map gives [z.record(z.unknown())], whatever its
    required list and its additional-properties policy say. *)
Theorem X6_missing_parts_degrade schemas currentPath schemaName isInline d :
  convertType schemas None currentPath schemaName isInline d =
    Some (str "z.unknown()", d) /\
  (forall node,
     plainNode node -> unknownType (type node) ->
     convertType schemas (Some node) currentPath schemaName isInline d =
       Some (str "z.unknown()", d)) /\
  (forall node,
     plainNode node -> type node = Some "array" -> items node = None ->
     convertType schemas (Some node) currentPath schemaName isInline d =
       Some (str ("z.array(z.unknown())" ++ optCall ".min(" (minItems node) ++
                  optCall ".max(" (maxItems node)), d)) /\
  (forall node,
     plainNode node -> type node = Some "object" -> properties node = None ->
     convertType schemas (Some node) currentPath schemaName isInline d =
       Some (str "z.record(z.unknown())", d)).
Proof.
  split; [reflexivity|]. split; [|split].
  - intros node (Href & Hall & Hone & Hany) Htype.
    destruct (typeIs_or_false _ Htype) as (H1 & H2 & H3 & H4 & H5 & H6 & H7).
    unfold convertType. rewrite convertNode_unfold. unfold convertTypeBody.
    rewrite Href, Hall, Hone, Hany. cbv zeta.
    rewrite H1, H2, H3, H4, H5, H6, H7. reflexivity.
  - intros node Hplain Htype Hitems.
    destruct (convertType_returns schemas (Some node) currentPath schemaName
                isInline d) as (r & d' & Hr).
    rewrite Hr. unfold convertType in Hr.
    rewrite convertNode_array in Hr by (try assumption; rewrite Htype; reflexivity).
    apply convertArray_chain in Hr as (i & Hi & ->).
    rewrite Hitems in Hi. injection Hi as <- <-. reflexivity.
  - intros node (Href & Hall & Hone & Hany) Htype Hprops.
    unfold convertType. rewrite convertNode_unfold. unfold convertTypeBody.
    rewrite Href, Hall, Hone, Hany, Htype. cbn -[convertObject].
    unfold convertObject. rewrite Hprops. reflexivity.
Qed.

Lemma X6_missing_parts_degrade_witness :
  convertType [] (Some (mkSchema (Some "object") None (Some ["id"]) None None
                          None None None None None None None None None None
                          None None None (Some (inr (typeNode "string")))))
              [] "" false [] =
  Some (str "z.record(z.unknown())", []).
Proof.
  apply (proj2 (proj2 (proj2 (X6_missing_parts_degrade [] [] "" false [])))).
  - repeat split.
  - reflexivity.
  - reflexivity.
Defined.

(** ** The additional-properties policy *)

(** X7.  An object node with a property map is converted to its
    [z.object({...})] expression followed by the modifier of its
    additional-properties policy and by nothing else: [.strict()] for
    [false], [.catchall(z.unknown())] for [true], [.catchall(e)] for a schema
    whose expression is [e] (converted last, after the properties), and no
    modifier when the policy is absent. *)
Theorem X7_additional_properties_policy
    schemas node ps currentPath schemaName isInline d r d' :
  plainNode node -> type node = Some "object" -> properties node = Some ps ->
  convertType schemas (Some node) currentPath schemaName isInline d = Some (r, d') ->
  exists lines d1 additionalSchema,
    length lines = length ps /\
    convertType schemas
      (match additionalProperties node with
       | Some (inr a) => Some a
       | _ => None
       end) currentPath schemaName isInline d1 = Some (additionalSchema, d') /\
    r = str (("z.object({" ++ nl ++ joinStr lines ("," ++ nl) ++ nl ++ "})") ++
             policySuffix (additionalProperties node) additionalSchema).
Proof.
  intros (Href & Hall & Hone & Hany) Htype Hprops.
  unfold convertType at 1. rewrite convertNode_unfold. unfold convertTypeBody.
  rewrite Href, Hall, Hone, Hany, Htype. cbn -[convertObject].
  unfold convertObject. rewrite Hprops. intros H.
  apply bind_some in H as (lines & d1 & Hlines & H).
  exists lines, d1. pose proof (mapM_length _ _ _ _ _ Hlines) as Hlen.
  destruct (additionalProperties node) as [[[|]|a]|]; cbn [policySuffix].
  - injection H as <- <-. exists (str "z.unknown()").
    split; [exact Hlen|]. split; [reflexivity|]. unfold nl. rewrite !append_assoc. reflexivity.
  - injection H as <- <-. exists (str "z.unknown()").
    split; [exact Hlen|]. split; [reflexivity|]. unfold nl. rewrite !append_assoc. reflexivity.
  - apply bind_some in H as (z & d2 & Hz & H). injection H as <- <-.
    exists z. split; [exact Hlen|]. split; [exact Hz|].
    unfold nl. rewrite !append_assoc. reflexivity.
  - injection H as <- <-. exists (str "z.unknown()").
    split; [exact Hlen|]. split; [reflexivity|].
    unfold nl. rewrite !append_assoc, append_nil_r. reflexivity.
Qed.

Lemma X7_additional_properties_policy_witness :
  exists lines,
    Some (str ("z.object({" ++ nl ++ "  id: z.string()" ++ nl ++
               "}).catchall(z.number())")) =
    Some (str (("z.object({" ++ nl ++ joinStr lines ("," ++ nl) ++ nl ++ "})") ++
               ".catchall(z.number())")) /\
    length lines = 1%nat.
Proof.
  destruct (X7_additional_properties_policy []
              (mkSchema (Some "object") (Some [("id", typeNode "string")])
                 (Some ["id"]) None None None None None None None None None None
                 None None None None None (Some (inr (typeNode "number"))))
              [("id", typeNode "string")] [] "" false []
              (str ("z.object({" ++ nl ++ "  id: z.string()" ++ nl ++
                    "}).catchall(z.number())")) []
              (conj eq_refl (conj eq_refl (conj eq_refl eq_refl)))
              eq_refl eq_refl eq_refl)
    as (lines & d1 & a & Hlen & Ha & Hr).
  exists lines. split; [|exact Hlen].
  vm_compute in Ha. injection Ha as <- _. f_equal. exact Hr.
Defined.

(** ** Precedence of the fields of a node *)

(** X8.  A reference hides every other field of its node, and an all-of list
    hides the one-of and any-of lists and the type: a node with a non-empty
    [$ref] is converted exactly as the bare reference [{ $ref }] is, and a node
    without one but with an all-of list exactly as [{ allOf }] is. *)
Theorem X8_reference_then_allOf_take_precedence
    schemas node currentPath schemaName isInline d :
  (forall r,
     truthyStr (ref node) = Some r ->
     convertType schemas (Some node) currentPath schemaName isInline d =
     convertType schemas (Some (refNode r)) currentPath schemaName isInline d) /\
  (forall l,
     truthyStr (ref node) = None -> allOf node = Some l ->
     convertType schemas (Some node) currentPath schemaName isInline d =
     convertType schemas (Some (allOfNode l)) currentPath schemaName isInline d).
Proof.
  split.
  - intros r Href. unfold convertType. rewrite !convertNode_unfold.
    unfold convertTypeBody. rewrite Href. cbn [refNode ref].
    assert (truthyStr (Some r) = Some r) as ->; [|reflexivity].
    unfold truthyStr in *. destruct (ref node) as [r0|]; [|discriminate].
    destruct (truthy r0) eqn:E; [|discriminate]. injection Href as ->.
    rewrite E. reflexivity.
  - intros l Href Hall. unfold convertType. rewrite !convertNode_unfold.
    unfold convertTypeBody. rewrite Href, Hall. reflexivity.
Qed.

Lemma X8_reference_then_allOf_take_precedence_witness :
  convertType [] (Some (mkSchema (Some "string") None None None
                          (Some "#/components/schemas/Name") None None None
                          (Some ["a"]) None None (Some (mkNumber "1" eq_refl)) None None None
                          None None None None))
              [] "" false [] =
  Some (str "Name", []).
Proof.
  rewrite (proj1 (X8_reference_then_allOf_take_precedence []
                    (mkSchema (Some "string") None None None
                       (Some "#/components/schemas/Name") None None None
                       (Some ["a"]) None None (Some (mkNumber "1" eq_refl)) None None None
                       None None None None)
                    [] "" false [])
                 "#/components/schemas/Name" eq_refl).
  reflexivity.
Defined.

(* ===================================================================== *)
(** * Further properties of the helpers *)
(* ===================================================================== *)

(** ** Sets built with [add] *)

Lemma arrIncludes_In s x : arrIncludes s x = true <-> In x s.
Proof.
  unfold arrIncludes. split.
  - intros H. apply existsb_exists in H as (y & Hy & E).
    apply String.eqb_eq in E. now subst.
  - intros H. apply existsb_exists. exists x. split; [exact H|apply String.eqb_refl].
Qed.

Lemma fold_setAdd_prefix l : forall s, exists added, fold_left setAdd l s = (s ++ added)%list.
Proof.
  induction l as [|x l IH]; intros s.
  - exists []. cbn. symmetry. apply app_nil_r.
  - cbn. destruct (IH (setAdd s x)) as (added & E). rewrite E.
    unfold setAdd. destruct (arrIncludes s x).
    + exists added. reflexivity.
    + exists (x :: added). rewrite <- app_assoc. reflexivity.
Qed.

Lemma fold_setAdd_keeps l : forall s y, In y s -> In y (fold_left setAdd l s).
Proof.
  induction l as [|x l IH]; intros s y H; [exact H|].
  cbn. apply IH, setAdd_keeps, H.
Qed.

Lemma fold_setAdd_In l : forall s y, In y l -> In y (fold_left setAdd l s).
Proof.
  induction l as [|x l IH]; intros s y; [intros []|].
  intros [->|H]; cbn.
  - apply fold_setAdd_keeps, setAdd_In.
  - apply IH, H.
Qed.

Lemma fold_setAdd_absorb l : forall s,
  (forall x, In x l -> In x s) -> fold_left setAdd l s = s.
Proof.
  induction l as [|x l IH]; intros s H; [reflexivity|].
  cbn. rewrite setAdd_present by (apply arrIncludes_In, H; left; reflexivity).
  apply IH. intros y Hy. apply H. right. exact Hy.
Qed.

(** ** [findComponentReferences] *)

Lemma findComponentReferences_fold :
  forall schema references,
    findComponentReferences schema references =
    fold_left setAdd (componentRefsOf schema) references.
Proof.
  intros schema.
  induction schema as [schema IHprops IHitems IHallOf IHoneOf IHanyOf IHadd]
    using Schema_induction.
  clear IHadd. intros references.
  destruct schema as [ty props req its rf all one any en fmt pat mn mx mi ma
                       mni mxi desc addl].
  cbn [findComponentReferences componentRefsOf allOf oneOf anyOf properties items].
  cbn [allOf oneOf anyOf properties items] in *.
  destruct (isComponentSchema _); [reflexivity|].
  assert (Heach : forall l, Forall (fun s => forall refs,
                      findComponentReferences s refs =
                      fold_left setAdd (componentRefsOf s) refs) l ->
            forall refs,
              (fix each (l : list Schema) (references : list string) : list string :=
                 match l with
                 | [] => references
                 | s :: l' => each l' (findComponentReferences s references)
                 end) l refs =
              fold_left setAdd (flat_map componentRefsOf l) refs).
  { induction 1 as [|s l Hs _ IH]; intros refs; [reflexivity|].
    cbn [flat_map]. rewrite fold_left_app, <- Hs. apply IH. }
  assert (HeachProp : forall l : list (string * Schema),
            Forall (fun kv => forall refs,
                      findComponentReferences (snd kv) refs =
                      fold_left setAdd (componentRefsOf (snd kv)) refs) l ->
            forall refs,
              (fix eachProp (l : list (string * Schema)) (references : list string)
                 : list string :=
                 match l with
                 | [] => references
                 | kv :: l' => eachProp l' (findComponentReferences (snd kv) references)
                 end) l refs =
              fold_left setAdd
                (flat_map (fun kv : string * Schema => componentRefsOf (snd kv)) l)
                refs).
  { induction 1 as [|kv l Hs _ IH]; intros refs; [reflexivity|].
    cbn [flat_map]. rewrite fold_left_app, <- Hs. apply IH. }
  rewrite !fold_left_app.
  destruct all as [l|]; [rewrite (Heach l (IHallOf l eq_refl))|]; cbn [fold_left];
  (destruct one as [l1|]; [rewrite (Heach l1 (IHoneOf l1 eq_refl))|]; cbn [fold_left]);
  (destruct any as [l2|]; [rewrite (Heach l2 (IHanyOf l2 eq_refl))|]; cbn [fold_left]);
  (destruct props as [ps|]; [rewrite (HeachProp ps (IHprops ps eq_refl))|];
     cbn [fold_left]);
  (destruct its as [i|]; [apply (IHitems i eq_refl)|reflexivity]).
Qed.

(** X9.  [findComponentReferences] only appends to the set it is given: the
    references found before stay in place, a set without duplicates stays
    without duplicates, and a second walk over the same node adds nothing.  On
    a component reference it adds that one name and does not look at the other
    fields of the node. *)
Theorem X9_findComponentReferences_appends schema references :
  (exists added,
     findComponentReferences schema references = (references ++ added)%list) /\
  (NoDup references -> NoDup (findComponentReferences schema references)) /\
  findComponentReferences schema (findComponentReferences schema references) =
    findComponentReferences schema references /\
  (isComponentSchema (Some schema) = true ->
   findComponentReferences schema references =
     setAdd references (refNameOf schema)).
Proof.
  rewrite !findComponentReferences_fold. split; [|split; [|split]].
  - apply fold_setAdd_prefix.
  - apply fold_setAdd_NoDup.
  - apply fold_setAdd_absorb. intros x Hx. apply fold_setAdd_In, Hx.
  - intros H. destruct schema. cbn [componentRefsOf]. rewrite H. reflexivity.
Qed.

Lemma X9_findComponentReferences_appends_witness :
  findComponentReferences
    (mkSchema None (Some [("x", typeNode "string")]) None None
       (Some "#/components/schemas/User") None None None None None None None
       None None None None None None None)
    ["Team"] = ["Team"; "User"].
Proof.
  rewrite (proj2 (proj2 (proj2 (X9_findComponentReferences_appends
                                  (mkSchema None (Some [("x", typeNode "string")])
                                     None None (Some "#/components/schemas/User")
                                     None None None None None None None None None
                                     None None None None None)
                                  ["Team"]))) eq_refl).
  reflexivity.
Defined.

(** ** Hoisted references are imported *)

Lemma operationComponentRefs_covers opSchema statusCode response :
  In (statusCode, response) (OperationSchema.responses opSchema) ->
  forall x, In x (componentRefsOf (ResponseSchema.schema response)) ->
            In x (operationComponentRefs opSchema).
Proof.
  unfold operationComponentRefs.
  generalize (match OperationSchema.request opSchema with
              | Some request =>
                  if isComponentSchema (Some request)
                  then setAdd [] (refNameOf request) else []
              | None => []
              end) as start.
  induction (OperationSchema.responses opSchema) as [|entry responses IH]
    using rev_ind; intros start; [intros []|].
  intros Hin x Hx. rewrite fold_left_app. cbn [fold_left].
  rewrite findComponentReferences_fold.
  apply in_app_or in Hin as [Hin|[->|[]]].
  - apply fold_setAdd_keeps. eapply IH; eassumption.
  - apply fold_setAdd_In. exact Hx.
Qed.

Section Hoisting.

Variable schemas : list (string * Schema).

Lemma convertResponseSchema_refs schema componentRefs d r d' :
  (forall x, In x (componentRefsOf schema) -> In x componentRefs) ->
  convertResponseSchema schemas schema componentRefs d = Some (r, d') ->
  snd r = componentRefs.
Proof.
  intros Hcov. unfold convertResponseSchema.
  destruct (isComponentSchema (Some schema)) eqn:Ecomp;
    [intros [= <- _]; reflexivity|].
  destruct (typeIs (type schema) "object");
    [|intros H; apply bind_some in H as (z & d1 & _ & H);
      injection H as <- _; reflexivity].
  destruct (properties schema) as [ps|] eqn:Eprops;
    [|intros H; apply bind_some in H as (z & d1 & _ & H);
      injection H as <- _; reflexivity].
  assert (Hps : forall kv x, In kv ps -> In x (componentRefsOf (snd kv)) ->
                             In x componentRefs).
  { intros kv x Hkv Hx. apply Hcov. destruct schema.
    cbn [componentRefsOf]. rewrite Ecomp. cbn [properties] in Eprops.
    rewrite Eprops. apply in_or_app. right. apply in_or_app. right.
    apply in_or_app. right. apply in_or_app. left.
    apply in_flat_map. exists kv. split; assumption. }
  intros H. apply bind_some in H as (x & d1 & Hx & H). injection H as <- _.
  cbn [snd]. clear Hcov Eprops. revert d x d1 Hx.
  induction ps as [|kv ps IH]; intros d x d1 Hx.
  - injection Hx as <- _. reflexivity.
  - apply bind_some in Hx as (y & d2 & Hy & Hx).
    apply bind_some in Hx as (rest & d3 & Hrest & Hx). injection Hx as <- _.
    cbn [snd].
    assert (Hy' : snd y = componentRefs).
    { destruct (isComponentSchema (Some (snd kv))) eqn:Ekv.
      - injection Hy as <- _. cbn [snd]. apply setAdd_present, arrIncludes_In.
        apply (Hps kv); [left; reflexivity|].
        destruct (snd kv). cbn [componentRefsOf]. rewrite Ekv. left. reflexivity.
      - apply bind_some in Hy as (z & d4 & _ & Hy). injection Hy as <- _.
        reflexivity. }
    rewrite Hy' in Hrest. eapply IH; [|exact Hrest].
    intros kv' x0 Hkv'. apply Hps. right. exact Hkv'.
Qed.

(** X10.  The set of component references that an operation file computes
    before it converts its responses already holds every name that the
    conversion of a response hoists: [convertResponseSchema] returns that set
    unchanged for each stored response, so the import list, which is built
    from the set beforehand, misses none of the hoisted names. *)
Theorem X10_hoisted_references_already_collected
    opSchema statusCode response d r d' :
  In (statusCode, response) (OperationSchema.responses opSchema) ->
  convertResponseSchema schemas (ResponseSchema.schema response)
    (operationComponentRefs opSchema) d = Some (r, d') ->
  snd r = operationComponentRefs opSchema.
Proof.
  intros Hin. apply convertResponseSchema_refs.
  apply (operationComponentRefs_covers _ _ _ Hin).
Qed.

End Hoisting.

Lemma X10_hoisted_references_already_collected_witness :
  let response :=
    ResponseSchema.mk "ok"
      (objectNode [("data", refNode "#/components/schemas/User")] []) in
  let opSchema :=
    OperationSchema.mk "user.get" "Get" "GET" "/users" None [("200", response)] in
  exists r d',
    convertResponseSchema [] (ResponseSchema.schema response)
      (operationComponentRefs opSchema) [] = Some (r, d') /\
    snd r = ["User"].
Proof.
  intros response opSchema.
  destruct (convertResponseSchema [] (ResponseSchema.schema response)
              (operationComponentRefs opSchema) []) as [[r d']|] eqn:E;
    [|vm_compute in E; discriminate].
  exists r, d'. split; [reflexivity|].
  rewrite (X10_hoisted_references_already_collected [] opSchema "200" response
             [] r d' (or_introl eq_refl) E).
  reflexivity.
Defined.

(** ** The imports of an operation file *)

Lemma operationImports_fold schemas componentRefs :
  operationImports schemas componentRefs =
  fold_left setAdd
    (map operationImportOf (filter (present schemas) componentRefs))
    ["import { z } from 'zod';"].
Proof.
  unfold operationImports.
  change (setAdd [] "import { z } from 'zod';") with ["import { z } from 'zod';"].
  generalize ["import { z } from 'zod';"] as imports.
  induction componentRefs as [|name componentRefs IH]; intros imports;
    [reflexivity|].
  cbn [fold_left filter]. rewrite IH.
  destruct (present schemas name); reflexivity.
Qed.

(** X11.  The import list of an operation file starts with the import of
    zod, holds no line twice, and besides the zod import holds exactly one
    line for each collected reference under whose name the table has a
    member, be it an entry of the table or a member that the table inherits
    from [Object.prototype]: a reference to [toString] is imported though no
    component has that name, and a reference to a name that is neither an
    entry nor such a member is not imported. *)
Theorem X11_operation_imports schemas componentRefs :
  (exists rest,
     operationImports schemas componentRefs =
       "import { z } from 'zod';" :: rest) /\
  NoDup (operationImports schemas componentRefs) /\
  (forall line,
     In line (operationImports schemas componentRefs) <->
     line = "import { z } from 'zod';" \/
     exists schemaName,
       In schemaName componentRefs /\ present schemas schemaName = true /\
       line = operationImportOf schemaName).
Proof.
  rewrite operationImports_fold. split; [|split].
  - destruct (fold_setAdd_prefix
                (map operationImportOf (filter (present schemas) componentRefs))
                ["import { z } from 'zod';"]) as (added & E).
    exists added. exact E.
  - apply fold_setAdd_NoDup. constructor; [intros []|constructor].
  - intros line. split.
    + intros H. apply fold_setAdd_inv in H as [[<-|[]]|H]; [left; reflexivity|].
      right. apply in_map_iff in H as (schemaName & <- & H).
      apply filter_In in H as [Hin Hhas]. exists schemaName. auto.
    + intros [->|(schemaName & Hin & Hhas & ->)].
      * apply fold_setAdd_keeps. left. reflexivity.
      * apply fold_setAdd_In, in_map, filter_In. auto.
Qed.

(** ** Descriptions made from a name *)

Lemma allChars_append p s t :
  allChars p (s ++ t) = allChars p s && allChars p t.
Proof.
  induction s as [|c s IH]; [reflexivity|].
  cbn. rewrite IH. apply andb_assoc.
Qed.

Lemma allChars_impl (p q : ascii -> bool) s :
  (forall c, p c = true -> q c = true) ->
  allChars p s = true -> allChars q s = true.
Proof.
  intros Hpq. induction s as [|c s IH]; [reflexivity|].
  cbn. intros H. apply andb_true_iff in H as [Hc Hs].
  rewrite (Hpq c Hc), (IH Hs). reflexivity.
Qed.

Lemma isWord_single c : isLetter c = true -> isWord (String c "").
Proof.
  intros H. split; [discriminate|]. cbn. rewrite H. reflexivity.
Qed.

Lemma isWord_snoc w c : isWord w -> isLetter c = true -> isWord (w ++ String c "").
Proof.
  intros [Hne Hw] Hc. split.
  - destruct w; [contradiction|discriminate].
  - rewrite allChars_append, Hw. cbn. rewrite Hc. reflexivity.
Qed.

Lemma matchWords_words s : forall st, scanOk st s -> Forall isWord (matchWords st s).
Proof.
  induction s as [|c rest IH]; intros st Hst.
  - destruct st as [|w|w]; cbn in *.
    + constructor.
    + constructor; [exact Hst|constructor].
    + constructor; [apply Hst|constructor].
  - cbn [matchWords].
    assert (Hstart :
      Forall isWord
        (if isUpper c then
           if nextIs isLower rest then matchWords (InLower (String c "")) rest
           else if nextIs isUpper rest then matchWords (InUpper (String c "")) rest
           else matchWords Idle rest
         else if isLower c then matchWords (InLower (String c "")) rest
         else matchWords Idle rest)).
    { destruct (isUpper c) eqn:Eu.
      - destruct (nextIs isLower rest).
        + apply IH, isWord_single. unfold isLetter. rewrite Eu. reflexivity.
        + destruct (nextIs isUpper rest) eqn:En.
          * apply IH. split; [|exact En].
            apply isWord_single. unfold isLetter. rewrite Eu. reflexivity.
          * apply IH. exact I.
      - destruct (isLower c) eqn:El.
        + apply IH, isWord_single. unfold isLetter. rewrite El.
          apply orb_true_r.
        + apply IH. exact I. }
    destruct st as [|w|w]; [exact Hstart| |].
    + destruct (isLower c) eqn:El.
      * apply IH. apply isWord_snoc; [exact Hst|].
        unfold isLetter. rewrite El. apply orb_true_r.
      * constructor; [exact Hst|exact Hstart].
    + destruct Hst as [Hw Hc]. cbn in Hc.
      destruct (nextIs isUpper rest) eqn:En.
      * apply IH. split; [|exact En]. apply isWord_snoc; [exact Hw|].
        unfold isLetter. rewrite Hc. reflexivity.
      * constructor; [exact Hw|exact Hstart].
Qed.

Lemma matchWords_no_letters s :
  allChars (fun c => negb (isLetter c)) s = true -> matchWords Idle s = [].
Proof.
  induction s as [|c rest IH]; [reflexivity|].
  cbn [allChars matchWords]. intros H. apply andb_true_iff in H as [Hc Hrest].
  unfold isLetter in Hc. apply negb_true_iff, orb_false_iff in Hc as [Eu El].
  rewrite Eu, El. apply IH, Hrest.
Qed.

Lemma joinStr_letters words :
  Forall isWord words ->
  allChars (fun c => isLetter c || Ascii.eqb c " ") (joinStr words " ") = true.
Proof.
  unfold joinStr. induction 1 as [|w words [_ Hw] Hwords IH]; [reflexivity|].
  assert (Hw' : allChars (fun c => isLetter c || Ascii.eqb c " ") w = true).
  { revert Hw. apply allChars_impl. intros c ->. reflexivity. }
  cbn [String.concat]. destruct words as [|w' words]; [exact Hw'|].
  rewrite !allChars_append, Hw', IH. reflexivity.
Qed.

Lemma lowerChar_lower c :
  isLetter c || Ascii.eqb c " " = true -> lowerOrSpace (lowerChar c) = true.
Proof.
  destruct c as [[] [] [] [] [] [] [] []]; vm_compute; intros H;
    first [reflexivity|discriminate H].
Qed.

Lemma upperChar_lowerChar_upper c :
  isLetter c = true -> isUpper (upperChar (lowerChar c)) = true.
Proof.
  destruct c as [[] [] [] [] [] [] [] []]; vm_compute; intros H;
    first [reflexivity|discriminate H].
Qed.

Lemma toLowerCase_lower s :
  allChars (fun c => isLetter c || Ascii.eqb c " ") s = true ->
  allChars lowerOrSpace (toLowerCase s) = true.
Proof.
  induction s as [|c s IH]; [reflexivity|].
  cbn. intros H. apply andb_true_iff in H as [Hc Hs].
  rewrite (lowerChar_lower c Hc), (IH Hs). reflexivity.
Qed.

(** X12.  A generated description is empty, which is the case exactly when
    the name has no match, or it is one upper-case letter followed by
    lower-case letters and spaces only: digits, underscores and every other
    character of the name are dropped.  A name without letters has the empty
    description. *)
Theorem X12_description_shape name :
  (generateDescription name = "" /\ matchWords Idle name = [] \/
   exists c rest,
     matchWords Idle name <> [] /\
     generateDescription name = String c rest /\
     isUpper c = true /\ allChars lowerOrSpace rest = true) /\
  (allChars (fun c => negb (isLetter c)) name = true ->
   generateDescription name = "").
Proof.
  split.
  - unfold generateDescription.
    pose proof (matchWords_words name Idle I) as Hwords.
    pose proof (joinStr_letters _ Hwords) as Hjoin.
    destruct (matchWords Idle name) as [|w words] eqn:E; [left; auto|].
    right. apply toLowerCase_lower in Hjoin.
    apply Forall_inv in Hwords as [Hne Hw].
    destruct w as [|c w]; [contradiction|].
    cbn in Hw. apply andb_true_iff in Hw as [Hc _].
    assert (Hhead : exists tail,
               joinStr (String c w :: words) " " = String c tail).
    { unfold joinStr. cbn [String.concat]. destruct words; eexists; reflexivity. }
    destruct Hhead as (tail & Etail). rewrite Etail in *.
    cbn in Hjoin |- *. apply andb_true_iff in Hjoin as [_ Htail].
    exists (upperChar (lowerChar c)), (mapChars lowerChar tail).
    split; [discriminate|]. split; [reflexivity|].
    split; [apply upperChar_lowerChar_upper, Hc|exact Htail].
  - intros H. unfold generateDescription.
    rewrite (matchWords_no_letters name H). reflexivity.
Qed.

Lemma X12_description_shape_witness :
  allChars (fun c => negb (isLetter c)) "2024_01" = true /\
  generateDescription "2024_01" = "".
Proof.
  split; [reflexivity|].
  apply (proj2 (X12_description_shape "2024_01")). reflexivity.
Defined.

(* ===================================================================== *)
(** * Further properties of the component emitter *)
(* ===================================================================== *)

Section Requests.

Variable schemas : list (string * Schema).

(** What one request leaves behind. *)
Lemma generateSchemaFile_request name g :
  exists r g',
    generateSchemaFile schemas name g = Some (r, g') /\
    processingStack g' = processingStack g /\
    depsLe (dependencies g) (dependencies g') /\
    (forall n f, get (generatedSchemas g) n = Some f ->
                 get (generatedSchemas g') n = Some f) /\
    match r with
    | Some f =>
        get (generatedSchemas g') name = Some f /\
        console g' = console g /\
        generateSchemaFile schemas name g' = Some (Some f, g')
    | None =>
        dependencies g' = dependencies g /\
        generatedSchemas g' = generatedSchemas g /\
        (present schemas name = false \/ midGeneration g name = true)
    end.
Proof.
  destruct (get (generatedSchemas g) name) as [cached|] eqn:Hcache.
  { exists (Some cached), g.
    rewrite (generateSchemaFile_cached schemas name g cached Hcache).
    split; [reflexivity|]. split; [reflexivity|].
    split; [apply depsLe_refl|]. split; [auto|]. auto. }
  destruct (arrIncludes (processingStack g) name) eqn:Hstack.
  { assert (Hmid : midGeneration g name = true).
    { unfold midGeneration, has. rewrite Hstack, Hcache. reflexivity. }
    exists None, (consoleLog g (diagnostic name)).
    rewrite (generateSchemaFile_midGeneration schemas name g Hmid).
    split; [reflexivity|]. split; [reflexivity|].
    split; [apply depsLe_refl|]. split; [auto|]. auto. }
  destruct (memberSchema (lookup schemas name)) as [schema|] eqn:Hschema.
  2:{ exists None, g. apply memberSchema_present in Hschema.
      rewrite (generateSchemaFile_absent schemas name g Hcache Hstack Hschema).
      split; [reflexivity|]. split; [reflexivity|].
      split; [apply depsLe_refl|]. split; [auto|].
      split; [reflexivity|]. split; [reflexivity|].
      left. exact Hschema. }
  destruct (generateSchemaFile_member schemas name g schema Hcache Hstack Hschema)
    as (zod & deps & Hconv & Hgen).
  cbv zeta in Hgen. eexists _, _. split; [exact Hgen|].
  cbn [processingStack dependencies generatedSchemas console].
  split; [reflexivity|]. split.
  { unfold convertType in Hconv. eapply convertNode_grows, Hconv. }
  split.
  { intros n f Hn. rewrite get_mapSet_other; [exact Hn|].
    intros ->. rewrite Hcache in Hn. discriminate. }
  split; [apply get_mapSet_same|]. split; [reflexivity|].
  apply generateSchemaFile_cached. cbn [generatedSchemas].
  apply get_mapSet_same.
Qed.

(** X13.  A request for the file of a name always returns, leaves the
    processing stack as it found it, never removes a dependency and never
    removes or replaces a cached file.  When it returns a file, the file is in
    the cache, nothing was written to the console, and the same request
    repeated returns the same file and changes nothing.  It returns [null]
    only for a name that the table does not have, as an entry or as a member
    inherited from [Object.prototype], or that is on the processing stack
    without a cached file, and then it changes nothing but the console. *)
Theorem X13_request_is_memoized name g :
  exists r g',
    generateSchemaFile schemas name g = Some (r, g') /\
    processingStack g' = processingStack g /\
    depsLe (dependencies g) (dependencies g') /\
    (forall n f, get (generatedSchemas g) n = Some f ->
                 get (generatedSchemas g') n = Some f) /\
    match r with
    | Some f =>
        get (generatedSchemas g') name = Some f /\
        console g' = console g /\
        generateSchemaFile schemas name g' = Some (Some f, g')
    | None =>
        dependencies g' = dependencies g /\
        generatedSchemas g' = generatedSchemas g /\
        (present schemas name = false \/ midGeneration g name = true)
    end.
Proof. apply generateSchemaFile_request. Qed.

(** A pass over names of the table, from an empty processing stack, ends
    with the file of every name in the cache. *)
Lemma generateEach_trace names :
  forall files g out g',
    (forall n, In n names -> has schemas n = true) ->
    processingStack g = [] ->
    generateEach schemas names files g = Some (out, g') ->
    exists new,
      out = (files ++ new)%list /\
      processingStack g' = [] /\
      (forall n f, get (generatedSchemas g) n = Some f ->
                   get (generatedSchemas g') n = Some f) /\
      Forall2 (fun n f => exists f0,
                 get (generatedSchemas g') n = Some f0 /\ f = asComponent f0)
              names new.
Proof.
  induction names as [|name names IH]; intros files g out g' Hnames Hstack Hrun.
  - injection Hrun as <- <-. exists []. rewrite app_nil_r. auto.
  - cbn [generateEach] in Hrun.
    destruct (generateSchemaFile_request name g)
      as (r & g1 & Hgen & Hstack1 & _ & Hgrow1 & Hr).
    rewrite Hgen in Hrun. destruct r as [f|].
    + destruct Hr as (Hget & _ & _).
      change (mkFile (Some "_components") (fileName f) (content f))
        with (asComponent f) in Hrun.
      apply IH in Hrun as (new & -> & Hstack' & Hgrow' & Hall).
      * exists (asComponent f :: new). rewrite <- app_assoc.
        split; [reflexivity|]. split; [exact Hstack'|].
        split; [intros n f1 Hn; apply Hgrow', Hgrow1, Hn|].
        constructor; [|exact Hall]. exists f. split; [apply Hgrow', Hget|reflexivity].
      * intros n Hn. apply Hnames. right. exact Hn.
      * rewrite Hstack1. exact Hstack.
    + exfalso. destruct Hr as (_ & _ & [Hhas|Hmid]).
      * rewrite (present_has _ _ (Hnames name (or_introl eq_refl))) in Hhas.
        discriminate.
      * unfold midGeneration in Hmid. rewrite Hstack in Hmid. discriminate.
Qed.

(** A pass over names whose files are cached returns the cached files. *)
Lemma generateEach_cached names new g :
  Forall2 (fun n f => exists f0,
             get (generatedSchemas g) n = Some f0 /\ f = asComponent f0)
          names new ->
  forall files,
    generateEach schemas names files g = Some ((files ++ new)%list, g).
Proof.
  induction 1 as [|name f names new (f0 & Hget & ->) _ IH]; intros files.
  - rewrite app_nil_r. reflexivity.
  - cbn [generateEach].
    rewrite (generateSchemaFile_cached schemas name g f0 Hget).
    change (mkFile (Some "_components") (fileName f0) (content f0))
      with (asComponent f0).
    rewrite IH, <- app_assoc. reflexivity.
Qed.

(** X14.  A second run of [generateComponentSchemas] on the same generator
    returns the files of the first run and leaves the generator, its
    dependency map and console included, as the first run left it. *)
Theorem X14_second_run_repeats_first g files g' :
  processingStack g = [] ->
  generateComponentSchemas schemas g = Some (files, g') ->
  generateComponentSchemas schemas g' = Some (files, g').
Proof.
  unfold generateComponentSchemas. intros Hstack Hrun.
  apply generateEach_trace in Hrun as (new & -> & _ & _ & Hall);
    [|apply get_has_key|exact Hstack].
  apply (generateEach_cached _ _ _ Hall []).
Qed.

End Requests.

Lemma X14_second_run_repeats_first_witness :
  let schemas :=
    [("User", objectNode [("team", refNode "#/components/schemas/Team")] []);
     ("Team", objectNode [("lead", refNode "#/components/schemas/User")] [])] in
  exists files g',
    generateComponentSchemas schemas (newComponentGenerator []) =
      Some (files, g') /\
    generateComponentSchemas schemas g' = Some (files, g').
Proof.
  intros schemas.
  destruct (generateComponentSchemas schemas (newComponentGenerator []))
    as [[files g']|] eqn:E; [|vm_compute in E; discriminate].
  exists files, g'. split; [reflexivity|].
  apply (X14_second_run_repeats_first schemas (newComponentGenerator [])
           files g' eq_refl E).
Defined.

(* ===================================================================== *)
(** * Further properties of the operation assembler *)
(* ===================================================================== *)

(** ** The records of the pass, in closed form *)






(** ** The order of the stored responses *)

Lemma insertIndex_keys {V : Type} (o : list (string * V)) i k v x :
  In x (map fst (JsObject.insertIndex o i k v)) <-> x = k \/ In x (map fst o).
Proof.
  induction o as [|[k' v'] o IH]; cbn.
  - split; [intros [<-|[]]; auto|intros [->|[]]; auto].
  - destruct (JsObject.arrayIndex k') as [j|]; [destruct (j <? i)%N|]; cbn.
    + rewrite IH. split; [intros [H|[H|H]]|intros [H|[H|H]]]; auto.
    + split; [intros [<-|H]|intros [->|H]]; auto.
    + split; [intros [<-|H]|intros [->|H]]; auto.
Qed.

Lemma insertIndex_order {V : Type} (o : list (string * V)) i k v :
  JsObject.arrayIndex k = Some i ->
  ownKeyOrder (map fst o) ->
  ownKeyOrder (map fst (JsObject.insertIndex o i k v)).
Proof.
  intros Hk. induction o as [|[k' v'] o IH]; cbn [JsObject.insertIndex].
  - intros _. cbn. split; [constructor|exact I].
  - cbn [map fst ownKeyOrder]. intros [Hall Ho].
    assert (Hfront :
      (forall j, JsObject.arrayIndex k' = Some j -> (i <= j)%N) ->
      ownKeyOrder (map fst ((k, v) :: (k', v') :: o))).
    { intros Hj. cbn [map fst ownKeyOrder]. split; [|split; assumption].
      constructor.
      - unfold keyBefore. rewrite Hk.
        destruct (JsObject.arrayIndex k') as [j|]; [apply Hj; reflexivity|exact I].
      - rewrite Forall_forall in Hall |- *. intros x Hx.
        specialize (Hall x Hx). unfold keyBefore in *. rewrite Hk.
        destruct (JsObject.arrayIndex x) as [j'|]; [|exact I].
        destruct (JsObject.arrayIndex k') as [j|]; [|contradiction].
        specialize (Hj j eq_refl). lia. }
    destruct (JsObject.arrayIndex k') as [j|] eqn:Hk'.
    + destruct (j <? i)%N eqn:Hlt.
      * apply N.ltb_lt in Hlt. cbn [map fst ownKeyOrder].
        split; [|apply IH, Ho].
        apply Forall_forall. intros x Hx.
        apply insertIndex_keys in Hx as [->|Hx].
        -- unfold keyBefore. rewrite Hk', Hk. lia.
        -- rewrite Forall_forall in Hall. apply Hall, Hx.
      * apply N.ltb_ge in Hlt. apply Hfront. intros j0 [= <-]. exact Hlt.
    + apply Hfront. intros j0 [=].
Qed.

Lemma ownKeyOrder_snoc ks k :
  JsObject.arrayIndex k = None -> ownKeyOrder ks -> ownKeyOrder (ks ++ [k]).
Proof.
  intros Hk. induction ks as [|k0 ks IH]; cbn [app ownKeyOrder].
  - intros _. split; [constructor|exact I].
  - intros [Hall Hks]. split; [|apply IH, Hks].
    apply Forall_app. split; [exact Hall|]. constructor; [|constructor].
    unfold keyBefore. rewrite Hk.
    destruct (JsObject.arrayIndex k0); exact I.
Qed.

Lemma has_false_not_In {V : Type} (o : list (string * V)) k :
  has o k = false -> ~ In k (map fst o).
Proof.
  intros H Hin. rewrite (get_has_key o k Hin) in H. discriminate.
Qed.

Lemma insertIndex_NoDup {V : Type} (o : list (string * V)) i k v :
  ~ In k (map fst o) -> NoDup (map fst o) ->
  NoDup (map fst (JsObject.insertIndex o i k v)).
Proof.
  induction o as [|[k' v'] o IH]; cbn [JsObject.insertIndex map fst];
    intros Hk Ho.
  - constructor; [intros []|constructor].
  - assert (Hfront : NoDup (k :: k' :: map fst o))
      by (constructor; assumption).
    destruct (JsObject.arrayIndex k') as [j|]; [|exact Hfront].
    destruct (j <? i)%N; [|exact Hfront].
    cbn [map fst]. inversion Ho as [|? ? Hk' Ho']; subst.
    constructor.
    + intros Hin. apply insertIndex_keys in Hin as [->|Hin].
      * apply Hk. left. reflexivity.
      * contradiction.
    + apply IH; [|exact Ho']. intros Hin. apply Hk. right. exact Hin.
Qed.

Lemma set_keys {V : Type} (o : list (string * V)) k v :
  ownKeyOrder (map fst o) /\ NoDup (map fst o) ->
  ownKeyOrder (map fst (JsObject.set o k v)) /\
  NoDup (map fst (JsObject.set o k v)).
Proof.
  intros [Hord Hnd]. unfold JsObject.set.
  destruct (has o k) eqn:Hhas.
  - rewrite map_fst_mapSet_present by exact Hhas. split; assumption.
  - apply has_false_not_In in Hhas.
    destruct (JsObject.arrayIndex k) as [i|] eqn:Hk.
    + split; [apply insertIndex_order|apply insertIndex_NoDup]; assumption.
    + rewrite map_app. cbn [map fst]. split; [apply ownKeyOrder_snoc; assumption|].
      apply NoDup_app; [exact Hnd|constructor; [intros []|constructor]|].
      intros x Hx [<-|[]]. contradiction.
Qed.

Lemma recordResponses_keys responses :
  forall acc : list (string * ResponseSchema.t),
    ownKeyOrder (map fst acc) /\ NoDup (map fst acc) ->
    ownKeyOrder (map fst (recordResponses responses acc)) /\
    NoDup (map fst (recordResponses responses acc)).
Proof.
  unfold recordResponses.
  induction responses as [|[statusCode resp] responses IH]; intros acc Hacc;
    [exact Hacc|].
  cbn [fold_left fst snd]. apply IH.
  destruct (jsonSchema (Response.content resp)); [apply set_keys, Hacc|exact Hacc].
Qed.

Lemma recordOperation_responses pathName method value ops :
  (forall id r, get ops id = Some r ->
     ownKeyOrder (map fst (OperationSchema.responses r)) /\
     NoDup (map fst (OperationSchema.responses r))) ->
  forall id r,
    get (recordOperation pathName method value ops) id = Some r ->
    ownKeyOrder (map fst (OperationSchema.responses r)) /\
    NoDup (map fst (OperationSchema.responses r)).
Proof.
  intros Hinv id r. unfold recordOperation.
  destruct value as [|operation]; [apply Hinv|].
  destruct (truthyStr (Operation.operationId operation)) as [id0|];
    [|apply Hinv].
  cbv zeta.
  set (fresh := OperationSchema.mk _ _ _ _ _ _).
  set (ops1 := if has ops id0 then ops else mapSet ops id0 fresh).
  assert (Hinv1 : forall i r0, get ops1 i = Some r0 ->
            ownKeyOrder (map fst (OperationSchema.responses r0)) /\
            NoDup (map fst (OperationSchema.responses r0))).
  { intros i r0. unfold ops1. destruct (has ops id0); [apply Hinv|].
    destruct (String.eqb_spec i id0) as [->|Hne].
    - rewrite get_mapSet_same. intros [= <-]. cbn.
      split; [exact I|constructor].
    - rewrite get_mapSet_other by exact Hne. apply Hinv. }
  destruct (get ops1 id0) as [base|] eqn:Hbase; [|apply Hinv1].
  destruct (String.eqb_spec id id0) as [->|Hne].
  - rewrite get_mapSet_same. intros [= <-].
    cbn [OperationSchema.responses].
    destruct (Operation.responses operation) as [responses|].
    + apply recordResponses_keys, (Hinv1 id0 base Hbase).
    + apply (Hinv1 id0 base Hbase).
  - rewrite get_mapSet_other by exact Hne. apply Hinv1.
Qed.

Lemma collectOperations_responses paths operationId r :
  get (collectOperations paths) operationId = Some r ->
  ownKeyOrder (map fst (OperationSchema.responses r)) /\
  NoDup (map fst (OperationSchema.responses r)).
Proof.
  unfold collectOperations.
  assert (H : forall (ops : list (string * OperationSchema.t)),
            (forall id r0, get ops id = Some r0 ->
               ownKeyOrder (map fst (OperationSchema.responses r0)) /\
               NoDup (map fst (OperationSchema.responses r0))) ->
            forall id r0,
              get (fold_left
                     (fun acc (entry : string * PathItem) =>
                        fold_left
                          (fun acc (member : string * PathItemValue) =>
                             recordOperation (fst entry) (fst member)
                                             (snd member) acc)
                          (snd entry) acc)
                     paths ops) id = Some r0 ->
              ownKeyOrder (map fst (OperationSchema.responses r0)) /\
              NoDup (map fst (OperationSchema.responses r0))).
  { induction paths as [|[pathName item] paths IH]; intros ops Hinv;
      [exact Hinv|].
    cbn [fold_left fst snd]. apply IH. clear IH. revert ops Hinv.
    induction item as [|[method value] item IH]; intros ops Hinv;
      [exact Hinv|].
    cbn [fold_left fst snd]. apply IH.
    apply recordOperation_responses, Hinv. }
  apply H. intros id r0 [=].
Qed.

(** X16.  The responses of a record are kept under distinct status codes,
    in the own-property order of the object that holds them and not in the
    order of declaration: the status codes that are array indices, as [200]
    and [404] are, come first in ascending numeric order, and the others, as
    [default] is, follow. *)
Theorem X16_responses_in_own_property_order paths operationId r :
  get (collectOperations paths) operationId = Some r ->
  ownKeyOrder (map fst (OperationSchema.responses r)) /\
  NoDup (map fst (OperationSchema.responses r)).
Proof. apply collectOperations_responses. Qed.

Lemma X16_responses_in_own_property_order_witness :
  let paths :=
    [("/a", [("get", OperationValue
                (Operation.mk (Some "op") None None
                   (Some [("default", Response.mk None
                                        (jsonContent (typeNode "null")));
                          ("404", Response.mk None
                                    (jsonContent (typeNode "string")));
                          ("200", Response.mk None
                                    (jsonContent (typeNode "number")))])))])] in
  exists r,
    get (collectOperations paths) "op" = Some r /\
    map fst (OperationSchema.responses r) = ["200"; "404"; "default"] /\
    ownKeyOrder (map fst (OperationSchema.responses r)).
Proof.
  intros paths.
  destruct (get (collectOperations paths) "op") as [r|] eqn:E;
    [|vm_compute in E; discriminate].
  exists r. split; [reflexivity|]. split.
  - vm_compute in E. injection E as <-. reflexivity.
  - apply (X16_responses_in_own_property_order paths "op" r E).
Defined.

(* ===================================================================== *)
(** * Further properties of a run *)
(* ===================================================================== *)

(** ** The artifacts of a run have distinct keys *)

Lemma firstOccurrences_NoDup l : NoDup (firstOccurrences l).
Proof. apply fold_setAdd_NoDup. constructor. Qed.

Lemma firstOccurrences_In l x : In x (firstOccurrences l) <-> In x l.
Proof.
  unfold firstOccurrences. split.
  - intros H. apply fold_setAdd_inv in H as [[]|H]. exact H.
  - apply fold_setAdd_In.
Qed.

Lemma generate_keys doc out files out' :
  generate doc out = Some (files, out') ->
  map fileKey files = declaredArtifacts doc.
Proof.
  destruct (generate_deterministic doc) as (files0 & Hrun & Hkeys).
  rewrite (Hrun out). intros [= <- _]. exact Hkeys.
Qed.

(** X17.  When the names of the component table are distinct, no two files
    of a run have the same directory name and file name, unless an operation
    is called [_components] and a component is called [schema]. *)
Theorem X17_artifacts_have_distinct_keys doc out files out' :
  NoDup (map fst (documentSchemas doc)) ->
  ~ (In "_components" (operationIds (paths doc)) /\
     In "schema" (map fst (documentSchemas doc))) ->
  generate doc out = Some (files, out') ->
  NoDup (map fileKey files).
Proof.
  intros Hnames Hclash Hrun. rewrite (generate_keys _ _ _ _ Hrun).
  unfold declaredArtifacts. apply NoDup_app.
  - apply NoDup_map_inj; [|exact Hnames].
    intros a b [= E]. apply append_inj_l in E. exact E.
  - apply NoDup_map_inj; [|apply firstOccurrences_NoDup].
    intros a b [= E]. exact E.
  - intros key Hc Ho.
    apply in_map_iff in Hc as (name & <- & Hname).
    apply in_map_iff in Ho as (id & [= Eid E] & Hid).
    apply (proj1 (firstOccurrences_In _ _)) in Hid. subst id.
    apply Hclash. split; [exact Hid|].
    change "schema.ts" with ("schema" ++ ".ts") in E.
    apply append_inj_l in E. rewrite E. exact Hname.
Qed.

Lemma X17_artifacts_have_distinct_keys_witness :
  exists files out',
    generate sampleDocument [] = Some (files, out') /\
    NoDup (map fileKey files).
Proof.
  destruct (generate sampleDocument []) as [[files out']|] eqn:E;
    [|vm_compute in E; discriminate].
  exists files, out'. split; [reflexivity|].
  apply (X17_artifacts_have_distinct_keys sampleDocument [] files out');
    [| |exact E].
  - cbn. constructor; [intros [H|[]]; discriminate H|].
    constructor; [intros []|constructor].
  - cbn. intros [[H|[]] _]. discriminate H.
Defined.

(** ** The counts of the summary *)

Lemma fileCount_length files : fileCount files = length files.
Proof.
  unfold fileCount.
  assert (H : forall n, fold_left (fun count (_ : GeneratedFile) => S count)
                                  files n = (n + length files)%nat).
  { induction files as [|f files IH]; intros n; cbn; [lia|].
    rewrite IH. lia. }
  apply (H 0%nat).
Qed.

Lemma filter_map_length {A B : Type} (f : A -> B) (p : B -> bool) (l : list A) :
  length (filter (fun a => p (f a)) l) = length (filter p (map f l)).
Proof.
  induction l as [|a l IH]; [reflexivity|].
  cbn. destruct (p (f a)); cbn; rewrite IH; reflexivity.
Qed.

Lemma filter_all {A : Type} (p : A -> bool) (l : list A) :
  (forall a, In a l -> p a = true) -> filter p l = l.
Proof.
  induction l as [|a l IH]; intros H; [reflexivity|].
  cbn. rewrite (H a (or_introl eq_refl)), IH; [reflexivity|].
  intros b Hb. apply H. right. exact Hb.
Qed.

Lemma filter_none {A : Type} (p : A -> bool) (l : list A) :
  (forall a, In a l -> p a = false) -> filter p l = [].
Proof.
  induction l as [|a l IH]; intros H; [reflexivity|].
  cbn. rewrite (H a (or_introl eq_refl)). apply IH.
  intros b Hb. apply H. right. exact Hb.
Qed.

Lemma filter_split_length {A : Type} (p q : A -> bool) (l : list A) :
  (forall a, In a l -> p a = negb (q a)) ->
  (length (filter p l) + length (filter q l))%nat = length l.
Proof.
  induction l as [|a l IH]; intros H; [reflexivity|].
  cbn. rewrite (H a (or_introl eq_refl)).
  assert (IH' := IH (fun b Hb => H b (or_intror Hb))).
  destruct (q a); cbn; lia.
Qed.

Lemma operationIds_truthy paths id :
  In id (operationIds paths) -> truthy id = true.
Proof.
  unfold operationIds. intros H.
  apply in_flat_map in H as (entry & _ & H).
  apply in_flat_map in H as (member & _ & H).
  destruct (snd member) as [|operation]; [destruct H|].
  unfold truthyStr in H.
  destruct (Operation.operationId operation) as [s|]; [|destruct H].
  destruct (truthy s) eqn:E; [|destruct H].
  destruct H as [<-|[]]. exact E.
Qed.

(** X18.  The counts that [main] prints for a run add up: every file is
    counted either as an operation endpoint or as a component schema, and the
    files are as many as the components and the distinct operationIds
    together.  Unless an operation is called [_components], the two counts
    are the number of components of the table and the number of distinct
    operationIds of the path table. *)
Theorem X18_summary_counts_add_up doc out files out' :
  generate doc out = Some (files, out') ->
  fileCount files = (operationEndpoints files + componentSchemas files)%nat /\
  fileCount files =
    (length (documentSchemas doc) +
     length (firstOccurrences (operationIds (paths doc))))%nat /\
  (~ In "_components" (operationIds (paths doc)) ->
   componentSchemas files = length (documentSchemas doc) /\
   operationEndpoints files =
     length (firstOccurrences (operationIds (paths doc)))).
Proof.
  intros Hrun. pose proof (generate_keys _ _ _ _ Hrun) as Hkeys.
  set (isOp := fun key : option string * string =>
                 match fst key with
                 | Some d => truthy d && negb (d =? "_components")
                 | None => false
                 end).
  set (isComp := fun key : option string * string =>
                   match fst key with
                   | Some d => d =? "_components"
                   | None => false
                   end).
  assert (Hop : operationEndpoints files =
                length (filter isOp (declaredArtifacts doc))).
  { rewrite <- Hkeys, <- filter_map_length. reflexivity. }
  assert (Hcomp : componentSchemas files =
                  length (filter isComp (declaredArtifacts doc))).
  { rewrite <- Hkeys, <- filter_map_length. reflexivity. }
  assert (Hlen : length files = length (declaredArtifacts doc)).
  { rewrite <- Hkeys, length_map. reflexivity. }
  rewrite fileCount_length, Hop, Hcomp, Hlen.
  split; [|split].
  - symmetry. apply filter_split_length. intros key Hkey.
    unfold declaredArtifacts in Hkey. apply in_app_or in Hkey as [H|H].
    + apply in_map_iff in H as (name & <- & _). reflexivity.
    + apply in_map_iff in H as (id & <- & Hid).
      apply (proj1 (firstOccurrences_In _ _)), operationIds_truthy in Hid.
      unfold isOp, isComp. cbn [fst]. rewrite Hid. reflexivity.
  - unfold declaredArtifacts. rewrite length_app, !length_map. reflexivity.
  - intros Hfree. unfold declaredArtifacts. rewrite !filter_app, !length_app.
    rewrite (filter_all isComp), (filter_none isComp),
            (filter_none isOp), (filter_all isOp).
    + cbn [length]. rewrite !length_map. split; lia.
    + intros key H. apply in_map_iff in H as (id & <- & Hid).
      apply (proj1 (firstOccurrences_In _ _)) in Hid. unfold isOp. cbn [fst].
      rewrite (operationIds_truthy _ _ Hid).
      destruct (String.eqb_spec id "_components") as [->|_];
        [contradiction|reflexivity].
    + intros key H. apply in_map_iff in H as (name & <- & _). reflexivity.
    + intros key H. apply in_map_iff in H as (id & <- & Hid).
      apply (proj1 (firstOccurrences_In _ _)) in Hid. unfold isComp. cbn [fst].
      destruct (String.eqb_spec id "_components") as [->|_];
        [contradiction|reflexivity].
    + intros key H. apply in_map_iff in H as (name & <- & _). reflexivity.
Qed.

Lemma X18_summary_counts_add_up_witness :
  exists files out',
    generate sampleDocument [] = Some (files, out') /\
    fileCount files = 3%nat /\
    componentSchemas files = 2%nat /\
    operationEndpoints files = 1%nat.
Proof.
  destruct (generate sampleDocument []) as [[files out']|] eqn:E;
    [|vm_compute in E; discriminate].
  exists files, out'. split; [reflexivity|].
  destruct (X18_summary_counts_add_up sampleDocument [] files out' E)
    as (_ & Hcount & Hparts).
  split; [exact Hcount|].
  apply Hparts. cbn. intros [H|[]]. discriminate H.
Defined.

(** ** The command line *)

Lemma parseLoop_values n :
  forall args options,
    (length args <= n)%nat ->
    (forall a, In a args -> a <> "--help" /\ a <> "-h") ->
    exists options',
      Cli.parseLoop args options = Cli.Parsed options' /\
      (Cli.file options' = Cli.file options \/ In (Cli.file options') args) /\
      (Cli.output options' = Cli.output options \/
       In (Cli.output options') args).
Proof.
  induction n as [|n IH]; intros args options Hlen Hargs.
  - destruct args; [|cbn in Hlen; lia]. exists options. cbn. auto.
  - destruct args as [|arg rest]; [exists options; cbn; auto|].
    cbn [length] in Hlen.
    assert (Hrest : forall a, In a rest -> a <> "--help" /\ a <> "-h")
      by (intros a Ha; apply Hargs; right; exact Ha).
    assert (Hskip : exists options',
              Cli.parseLoop rest options = Cli.Parsed options' /\
              (Cli.file options' = Cli.file options \/
               In (Cli.file options') (arg :: rest)) /\
              (Cli.output options' = Cli.output options \/
               In (Cli.output options') (arg :: rest))).
    { destruct (IH rest options ltac:(lia) Hrest) as (o & Hrun & Hf & Ho).
      exists o. split; [exact Hrun|].
      split; [destruct Hf; [left|right; right]; assumption|].
      destruct Ho; [left|right; right]; assumption. }
    assert (Hvalue : forall value rest' options1,
              rest = value :: rest' ->
              (Cli.file options1 = Cli.file options \/
               Cli.file options1 = value) ->
              (Cli.output options1 = Cli.output options \/
               Cli.output options1 = value) ->
              exists options',
                Cli.parseLoop rest' options1 = Cli.Parsed options' /\
                (Cli.file options' = Cli.file options \/
                 In (Cli.file options') (arg :: rest)) /\
                (Cli.output options' = Cli.output options \/
                 In (Cli.output options') (arg :: rest))).
    { intros value rest' options1 -> Hf1 Ho1. cbn [length] in Hlen.
      destruct (IH rest' options1 ltac:(lia)
                  (fun a Ha => Hrest a (or_intror Ha)))
        as (o & Hrun & Hf & Ho).
      exists o. split; [exact Hrun|]. split.
      - destruct Hf as [Hf|Hf]; [|right; right; right; exact Hf].
        rewrite Hf. destruct Hf1 as [->| ->];
          [left; reflexivity|right; right; left; reflexivity].
      - destruct Ho as [Ho|Ho]; [|right; right; right; exact Ho].
        rewrite Ho. destruct Ho1 as [->| ->];
          [left; reflexivity|right; right; left; reflexivity]. }
    cbn [Cli.parseLoop].
    destruct (arg =? "-file").
    { destruct rest as [|value rest']; [exact Hskip|].
      apply (Hvalue value rest' _ eq_refl); [right|left]; reflexivity. }
    destruct (arg =? "-output").
    { destruct rest as [|value rest']; [exact Hskip|].
      apply (Hvalue value rest' _ eq_refl); [left|right]; reflexivity. }
    destruct (Hargs arg (or_introl eq_refl)) as [Hhelp Hh].
    apply String.eqb_neq in Hhelp, Hh. rewrite Hhelp, Hh. exact Hskip.
Qed.

Lemma parseLoop_no_flags args :
  forall options,
    (forall a, In a args ->
       a <> "-file" /\ a <> "-output" /\ a <> "--help" /\ a <> "-h") ->
    Cli.parseLoop args options = Cli.Parsed options.
Proof.
  induction args as [|arg rest IH]; intros options Hargs; [reflexivity|].
  destruct (Hargs arg (or_introl eq_refl)) as (Hf & Ho & Hhelp & Hh).
  apply String.eqb_neq in Hf, Ho, Hhelp, Hh.
  cbn [Cli.parseLoop]. rewrite Hf, Ho, Hhelp, Hh. apply IH.
  intros a Ha. apply Hargs. right. exact Ha.
Qed.

(** X19.  [parseArgs] prints the usage and exits only when an argument is
    [--help] or [-h]: on other argument lists it returns, and each of the two
    options it returns is the default or one of the arguments.  Arguments
    that are no flag are ignored: without any of the four flags among the
    arguments the options are the defaults. *)
Theorem X19_parseArgs_returns_defaults_or_arguments args :
  ((forall a, In a args -> a <> "--help" /\ a <> "-h") ->
   exists options,
     Cli.parseArgs args = Cli.Parsed options /\
     (Cli.file options = "document.json" \/ In (Cli.file options) args) /\
     (Cli.output options = "schema" \/ In (Cli.output options) args)) /\
  ((forall a, In a args ->
      a <> "-file" /\ a <> "-output" /\ a <> "--help" /\ a <> "-h") ->
   Cli.parseArgs args =
     Cli.Parsed (Cli.mkOptions "document.json" "schema")).
Proof.
  split.
  - intros Hargs.
    apply (parseLoop_values (length args) args
             (Cli.mkOptions "document.json" "schema") (le_n _) Hargs).
  - apply parseLoop_no_flags.
Qed.

Lemma X19_parseArgs_returns_defaults_or_arguments_witness :
  Cli.parseArgs ["api.json"; "out"] =
    Cli.Parsed (Cli.mkOptions "document.json" "schema") /\
  exists options,
    Cli.parseArgs ["-file"; "api.json"; "-output"] = Cli.Parsed options /\
    (Cli.file options = "document.json" \/
     In (Cli.file options) ["-file"; "api.json"; "-output"]).
Proof.
  split.
  - apply (proj2 (X19_parseArgs_returns_defaults_or_arguments
                    ["api.json"; "out"])).
    intros a [<-|[<-|[]]]; repeat split; discriminate.
  - destruct (proj1 (X19_parseArgs_returns_defaults_or_arguments
                       ["-file"; "api.json"; "-output"]))
      as (options & Hrun & Hfile & _).
    + intros a [<-|[<-|[<-|[]]]]; split; discriminate.
    + exists options. split; [exact Hrun|exact Hfile].
Defined.

(* ===================================================================== *)
(** * The dependency map does not reach the output *)
(* ===================================================================== *)

Lemma oblivious_ret {A : Type} (a : A) : oblivious (ret a).
Proof. intros d1 d2. reflexivity. Qed.

Lemma oblivious_exhausted {A : Type} : oblivious (@exhausted A).
Proof. intros d1 d2. reflexivity. Qed.

Lemma oblivious_bind {A B : Type} (m : Conv A) (k : A -> Conv B) :
  oblivious m -> (forall a, oblivious (k a)) -> oblivious (bind m k).
Proof.
  intros Hm Hk d1 d2. unfold bind. specialize (Hm d1 d2).
  destruct (m d1) as [[a x1]|], (m d2) as [[a' x2]|]; cbn in Hm;
    try discriminate; [|reflexivity].
  injection Hm as <-. apply Hk.
Qed.

Lemma oblivious_mapM {A B : Type} (f : A -> Conv B) (l : list A) :
  Forall (fun a => oblivious (f a)) l -> oblivious (mapM f l).
Proof.
  induction 1 as [|a l Ha _ IH]; cbn [mapM].
  - apply oblivious_ret.
  - apply oblivious_bind; [exact Ha|]. intros b.
    apply oblivious_bind; [exact IH|]. intros bs. apply oblivious_ret.
Qed.

Lemma oblivious_trackDependency schemaName refName :
  oblivious (trackDependency schemaName refName).
Proof.
  intros d1 d2. unfold trackDependency.
  destruct (get _ schemaName), (get _ schemaName); reflexivity.
Qed.

Section Oblivious.

Variable schemas : list (string * Schema).

Lemma convertNode_oblivious budget :
  forall property currentPath schemaName isInline,
    oblivious (convertNode schemas budget property currentPath schemaName isInline).
Proof.
  induction budget as [budget IHbudget] using lt_wf_ind.
  induction property as [property IHprops IHitems IHallOf IHoneOf IHanyOf IHadd]
    using Schema_induction.
  intros currentPath schemaName isInline.
  rewrite convertNode_unfold. unfold convertTypeBody.
  destruct (truthyStr (ref property)) as [r|].
  { apply oblivious_bind.
    - destruct (truthy schemaName && truthy (pop (split r "/")) && negb isInline);
        [apply oblivious_trackDependency|apply oblivious_ret].
    - intros _.
      destruct (arrIncludes currentPath (pop (split r "/")));
        [apply oblivious_ret|].
      destruct (if isInline then lookup schemas (pop (split r "/")) else NoMember)
        as [target| |]; [|apply oblivious_ret|apply oblivious_ret].
      destruct budget as [|budget']; [apply oblivious_exhausted|].
      apply IHbudget. lia. }
  destruct (allOf property) as [l|] eqn:EallOf.
  { apply oblivious_bind; [|intros; apply oblivious_ret].
    apply oblivious_mapM. specialize (IHallOf l eq_refl).
    eapply Forall_impl; [|exact IHallOf]. intros s Hs. apply Hs. }
  destruct (oneOf property) as [l|] eqn:EoneOf.
  { apply oblivious_bind; [|intros; apply oblivious_ret].
    apply oblivious_mapM. specialize (IHoneOf l eq_refl).
    eapply Forall_impl; [|exact IHoneOf]. intros s Hs. apply Hs. }
  destruct (anyOf property) as [l|] eqn:EanyOf.
  { apply oblivious_bind; [|intros; apply oblivious_ret].
    apply oblivious_mapM. specialize (IHanyOf l eq_refl).
    eapply Forall_impl; [|exact IHanyOf]. intros s Hs. apply Hs. }
  cbv zeta.
  destruct (typeIs (type property) "string"); [apply oblivious_ret|].
  destruct (typeIs (type property) "number" || typeIs (type property) "integer");
    [apply oblivious_ret|].
  destruct (typeIs (type property) "boolean"); [apply oblivious_ret|].
  destruct (typeIs (type property) "array").
  { unfold convertArray. apply oblivious_bind; [|intros; apply oblivious_ret].
    destruct (items property) as [i|] eqn:Eitems; [|apply oblivious_ret].
    apply (IHitems i eq_refl). }
  destruct (typeIs (type property) "object").
  { unfold convertObject.
    destruct (properties property) as [ps|] eqn:Eprops; [|apply oblivious_ret].
    apply oblivious_bind.
    - apply oblivious_mapM. specialize (IHprops ps eq_refl).
      eapply Forall_impl; [|exact IHprops]. intros [k v] Hv. simpl in *.
      apply oblivious_bind; [apply Hv|intros; apply oblivious_ret].
    - intros props.
      destruct (additionalProperties property) as [[[|]|a]|] eqn:Eadd;
        try apply oblivious_ret.
      apply oblivious_bind; [|intros; apply oblivious_ret].
      apply (IHadd a eq_refl). }
  destruct (typeIs (type property) "null"); apply oblivious_ret.
Qed.

Lemma convertType_oblivious property currentPath schemaName isInline :
  oblivious (convertType schemas property currentPath schemaName isInline).
Proof.
  unfold convertType. destruct property as [s|]; [apply convertNode_oblivious|].
  apply oblivious_ret.
Qed.

Lemma convertResponseSchema_oblivious schema componentRefs :
  oblivious (convertResponseSchema schemas schema componentRefs).
Proof.
  unfold convertResponseSchema.
  destruct (isComponentSchema (Some schema)); [apply oblivious_ret|].
  destruct (if typeIs (type schema) "object" then properties schema else None)
    as [ps|].
  - apply oblivious_bind; [|intros; apply oblivious_ret].
    revert componentRefs. induction ps as [|kv ps IH]; intros componentRefs.
    + apply oblivious_ret.
    + apply oblivious_bind.
      * destruct (isComponentSchema (Some (snd kv))); [apply oblivious_ret|].
        apply oblivious_bind;
          [apply convertType_oblivious|intros; apply oblivious_ret].
      * intros r. apply oblivious_bind; [apply IH|intros; apply oblivious_ret].
  - apply oblivious_bind;
      [apply convertType_oblivious|intros; apply oblivious_ret].
Qed.

Lemma responseLines_oblivious responses :
  forall componentRefs,
    oblivious (responseLines schemas responses componentRefs).
Proof.
  induction responses as [|[statusCode response] responses IH];
    intros componentRefs; cbn [responseLines]; [apply oblivious_ret|].
  apply oblivious_bind; [apply convertResponseSchema_oblivious|]. intros r.
  apply oblivious_bind; [apply IH|intros; apply oblivious_ret].
Qed.

Lemma operationFile_oblivious dirName opSchema :
  oblivious (operationFile schemas dirName opSchema).
Proof.
  unfold operationFile. apply oblivious_bind.
  - unfold requestLines.
    destruct (OperationSchema.request opSchema) as [request|];
      [|apply oblivious_ret].
    apply oblivious_bind; [|intros; apply oblivious_ret].
    destruct (isComponentSchema (Some request)); [apply oblivious_ret|].
    apply oblivious_bind;
      [apply convertType_oblivious|intros; apply oblivious_ret].
  - intros req. apply oblivious_bind; [apply responseLines_oblivious|].
    intros; apply oblivious_ret.
Qed.

(** X20.  The dependency map is written but never read by a conversion: the
    expression that [convertType] returns for a node, and the files that
    [generateOperationSchemas] returns for a path table, are the same on
    every dependency map. *)
Theorem X20_output_independent_of_dependency_map :
  (forall property currentPath schemaName isInline,
     oblivious (convertType schemas property currentPath schemaName isInline)) /\
  (forall paths, oblivious (generateOperationSchemas schemas paths)).
Proof.
  split; [apply convertType_oblivious|].
  intros paths. unfold generateOperationSchemas. apply oblivious_mapM.
  apply Forall_forall. intros entry _. apply operationFile_oblivious.
Qed.

(** ** A component's file does not depend on the run it is part of *)

Lemma getDependencies_recordAll_owner schemaName refs d1 d2 :
  getDependencies d1 schemaName = getDependencies d2 schemaName ->
  getDependencies (recordAll schemaName refs d1) schemaName =
  getDependencies (recordAll schemaName refs d2) schemaName.
Proof.
  intros H. destruct (truthy schemaName) eqn:Hname.
  - rewrite !getDependencies_recordAll by exact Hname. rewrite H. reflexivity.
  - unfold truthy in Hname. apply negb_false_iff, String.eqb_eq in Hname.
    subst schemaName. rewrite !recordAll_no_owner. exact H.
Qed.

(** Two fresh requests for one name return the same file when the
    dependency sets of the name agree. *)
Lemma generateSchemaFile_same_file name g1 g2 f1 g1' :
  get (generatedSchemas g1) name = None ->
  arrIncludes (processingStack g1) name = false ->
  get (generatedSchemas g2) name = None ->
  arrIncludes (processingStack g2) name = false ->
  getDependencies (dependencies g1) name =
    getDependencies (dependencies g2) name ->
  generateSchemaFile schemas name g1 = Some (Some f1, g1') ->
  (exists g2', generateSchemaFile schemas name g2 = Some (Some f1, g2')) /\
  (forall key, key <> name ->
     getDependencies (dependencies g1') key =
     getDependencies (dependencies g1) key) /\
  generatedSchemas g1' = mapSet (generatedSchemas g1) name f1 /\
  processingStack g1' = processingStack g1.
Proof.
  intros Hc1 Hs1 Hc2 Hs2 Hdeps Hgen.
  destruct (memberSchema (lookup schemas name)) as [schema|] eqn:Hschema.
  2:{ unfold generateSchemaFile in Hgen. rewrite Hc1, Hs1, Hschema in Hgen.
      discriminate. }
  destruct (generateSchemaFile_member schemas name g1 schema Hc1 Hs1 Hschema)
    as (zod1 & deps1 & Hconv1 & Hgen1).
  destruct (generateSchemaFile_member schemas name g2 schema Hc2 Hs2 Hschema)
    as (zod2 & deps2 & Hconv2 & Hgen2).
  cbv zeta in Hgen1, Hgen2. rewrite Hgen1 in Hgen. injection Hgen as <- <-.
  pose proof (convertType_oblivious (Some schema) [name] name false
                (dependencies g1) (dependencies g2)) as Hzod.
  rewrite Hconv1, Hconv2 in Hzod. cbn in Hzod. injection Hzod as <-.
  unfold convertType in Hconv1, Hconv2.
  apply convertNode_recordAll in Hconv1, Hconv2. subst deps1 deps2.
  split; [|split; [|split; reflexivity]].
  - eexists. rewrite Hgen2. unfold componentContent.
    rewrite (getDependencies_recordAll_owner name _ _ _ Hdeps). reflexivity.
  - intros key Hkey. cbn [dependencies]. apply recordAll_other, Hkey.
Qed.

Lemma generateEach_standalone names :
  forall files g out g',
    (forall n, In n names -> has schemas n = true) ->
    processingStack g = [] ->
    (forall n, get (generatedSchemas g) n = None ->
               getDependencies (dependencies g) n = []) ->
    cacheOk (standalone schemas) g ->
    generateEach schemas names files g = Some (out, g') ->
    exists new,
      out = (files ++ new)%list /\
      Forall2 (fun n f => exists f0, standalone schemas n f0 /\ f = asComponent f0)
              names new.
Proof.
  induction names as [|name names IH];
    intros files g out g' Hnames Hstack Hdeps Hcache Hrun.
  - injection Hrun as <- _. exists []. rewrite app_nil_r. auto.
  - cbn [generateEach] in Hrun.
    assert (Hrest : forall n, In n names -> has schemas n = true)
      by (intros n Hn; apply Hnames; right; exact Hn).
    destruct (get (generatedSchemas g) name) as [cached|] eqn:Hget.
    + rewrite (generateSchemaFile_cached schemas name g cached Hget) in Hrun.
      change (mkFile (Some "_components") (fileName cached) (content cached))
        with (asComponent cached) in Hrun.
      apply IH in Hrun as (new & -> & Hall); try assumption.
      exists (asComponent cached :: new). rewrite <- app_assoc.
      split; [reflexivity|]. constructor; [|exact Hall].
      exists cached. split; [apply Hcache, Hget|reflexivity].
    + destruct (generateSchemaFile_request schemas name g)
        as (r & g1 & Hgen & _ & _ & _ & Hr).
      rewrite Hgen in Hrun. destruct r as [f|].
      2:{ exfalso. destruct Hr as (_ & _ & [Hhas|Hmid]).
          - rewrite (present_has _ _ (Hnames name (or_introl eq_refl))) in Hhas.
            discriminate.
          - unfold midGeneration in Hmid. rewrite Hstack in Hmid.
            discriminate. }
      assert (Hs : arrIncludes (processingStack g) name = false)
        by (rewrite Hstack; reflexivity).
      destruct (generateSchemaFile_same_file name g (newComponentGenerator [])
                  f g1 Hget Hs eq_refl eq_refl (Hdeps name Hget) Hgen)
        as (Halone & Hother & Hcache1 & Hstack1).
      change (mkFile (Some "_components") (fileName f) (content f))
        with (asComponent f) in Hrun.
      apply IH in Hrun as (new & -> & Hall); try assumption.
      * exists (asComponent f :: new). rewrite <- app_assoc.
        split; [reflexivity|]. constructor; [|exact Hall].
        exists f. split; [exact Halone|reflexivity].
      * rewrite Hstack1. exact Hstack.
      * intros n Hn. rewrite Hcache1 in Hn.
        destruct (String.eqb_spec n name) as [->|Hne].
        -- rewrite get_mapSet_same in Hn. discriminate.
        -- rewrite get_mapSet_other in Hn by exact Hne.
           rewrite Hother by exact Hne. apply Hdeps, Hn.
      * intros n f0 Hn. rewrite Hcache1 in Hn.
        destruct (String.eqb_spec n name) as [->|Hne].
        -- rewrite get_mapSet_same in Hn. injection Hn as <-. exact Halone.
        -- rewrite get_mapSet_other in Hn by exact Hne. apply Hcache, Hn.
Qed.

(** X21.  Every file of a run of [generateComponentSchemas] on a new
    generator is, but for its directory name, the file that a request for
    that component alone returns on a new generator: the file of a component
    depends on the table and the component's name, not on its place in the
    table or on the components generated before it. *)
Theorem X21_component_file_independent_of_run out files g :
  generateComponentSchemas schemas (newComponentGenerator out) =
    Some (files, g) ->
  Forall2 (fun name f =>
             exists f0, standalone schemas name f0 /\ f = asComponent f0)
          (map fst schemas) files.
Proof.
  unfold generateComponentSchemas. intros Hrun.
  apply generateEach_standalone in Hrun as (new & -> & Hall).
  - exact Hall.
  - apply get_has_key.
  - reflexivity.
  - reflexivity.
  - intros n f [=].
Qed.

End Oblivious.

Lemma X21_component_file_independent_of_run_witness :
  let schemas :=
    [("User", objectNode [("team", refNode "#/components/schemas/Team")] []);
     ("Team", objectNode [("lead", refNode "#/components/schemas/User")] [])] in
  exists files g,
    generateComponentSchemas schemas (newComponentGenerator ["log"]) =
      Some (files, g) /\
    Forall2 (fun name f =>
               exists f0, standalone schemas name f0 /\ f = asComponent f0)
            ["User"; "Team"] files.
Proof.
  intros schemas.
  destruct (generateComponentSchemas schemas (newComponentGenerator ["log"]))
    as [[files g]|] eqn:E; [|vm_compute in E; discriminate].
  exists files, g. split; [reflexivity|].
  apply (X21_component_file_independent_of_run schemas ["log"] files g E).
Defined.

(* ===================================================================== *)
(** * The artifacts of a run, and their order *)
(* ===================================================================== *)


(** ** Component files *)



(** ** Operation files *)



Section OperationArtifacts.

Variable schemas : list (string * Schema).




End OperationArtifacts.

(** ** The status codes of a record *)




(** ** Parsed objects *)






(** ** A self-reference that the conversion does not reach *)

Lemma Visits_Mentions target s : Visits target s -> Mentions target s.
Proof.
  induction 1.
  - eapply MentionsRef; eassumption.
  - eapply MentionsAllOf; eassumption.
  - eapply MentionsOneOf; eassumption.
  - eapply MentionsAnyOf; eassumption.
  - eapply MentionsItems; eassumption.
  - eapply MentionsProperty; eassumption.
  - eapply MentionsAdditional; eassumption.
Qed.

(** C10 as stated fails: a node can hold a reference to the component's own
    name where the conversion does not come.  The component [Shape] below has
    a property map and no type; its property [next] refers to [Shape].  The
    node is converted to [z.unknown()], no dependency is recorded, and the
    file imports nothing but zod, while its documentation comment lists the
    property [next] with the type [Shape]. *)
Lemma C10_unreached_self_reference_not_imported :
  let shape :=
    mkSchema None (Some [("next", refNode "#/components/schemas/Shape")])
             None None None None None None None None None None None None None
             None None None None in
  Mentions "Shape" shape /\
  ~ Visits "Shape" shape /\
  exists f g,
    generateSchemaFile [("Shape", shape)] "Shape" (newComponentGenerator []) =
      Some (Some f, g) /\
    getDependencies (dependencies g) "Shape" = [] /\
    includes (content f) (importOf "Shape") = false /\
    includes (content f) "export const Shape = z.unknown();" = true /\
    includes (content f) " * @property {Shape} next? - next" = true.
Proof.
  intros shape. split; [|split].
  - eapply MentionsProperty; [reflexivity|left; reflexivity|].
    eapply MentionsRef; reflexivity.
  - intros H. inversion H; subst; try discriminate.
  - eexists _, _. vm_compute. repeat split.
Qed.
